(** * Weekly coaching tracker: a shallow embedding of the aggregation code

    The development follows the three modules of the program:
    [data_handler] (column resolution, grade averages), [groq_client]
    (key rotation around the hosted text-completion service) and
    [tracker] (week filter, per-employee aggregation, tracker rows).

    Conventions of the embedding.
    - Text is [string]; characters outside ASCII are carried along
      unchanged (no case, never whitespace).
    - Floating-point numbers are exact rationals [Q]; the binary rounding
      of IEEE doubles, infinities and overflow are outside the model.
    - A data frame is a list of column labels and a list of rows with the
      default positional index; a cell is read the same way by column
      access and by row iteration.
    - What the pandas, datetime and remote-service libraries compute on
      text (number parsing, date parsing, the text of a float) is taken as
      section variables; the code of the repository is written out.
    - Code that can raise returns a [result]; code that also reads or
      writes the session state of the client lives in the monad [M]. The
      replies of the hosted service are a function of the number of
      remote calls made so far. *)

From Stdlib Require Import ZArith QArith Qround Qabs Lqa String Ascii List.
From stdpp Require Import gmap strings list sorting pretty.

Local Open Scope string_scope.
Local Open Scope list_scope.

(** ** Python text primitives *)

(** [str.isspace] on the ASCII range: TAB..CR, FS..US and the blank. *)
Definition py_isspace (c : ascii) : bool :=
  let n := nat_of_ascii c in
  ((9 <=? n)%nat && (n <=? 13)%nat) || ((28 <=? n)%nat && (n <=? 32)%nat).

Definition is_upper (c : ascii) : bool :=
  let n := nat_of_ascii c in (65 <=? n)%nat && (n <=? 90)%nat.

Definition is_lower (c : ascii) : bool :=
  let n := nat_of_ascii c in (97 <=? n)%nat && (n <=? 122)%nat.

Definition is_digit (c : ascii) : bool :=
  let n := nat_of_ascii c in (48 <=? n)%nat && (n <=? 57)%nat.

Definition lower_char (c : ascii) : ascii :=
  if is_upper c then ascii_of_nat (nat_of_ascii c + 32) else c.

Definition upper_char (c : ascii) : ascii :=
  if is_lower c then ascii_of_nat (nat_of_ascii c - 32) else c.

Fixpoint string_map (f : ascii → ascii) (s : string) : string :=
  match s with
  | EmptyString => EmptyString
  | String c s' => String (f c) (string_map f s')
  end.

Fixpoint string_filter (p : ascii → bool) (s : string) : string :=
  match s with
  | EmptyString => EmptyString
  | String c s' => if p c then String c (string_filter p s') else string_filter p s'
  end.

(** [s.lower()] and [s.upper()] *)
Definition lower (s : string) : string := string_map lower_char s.
Definition upper (s : string) : string := string_map upper_char s.

Fixpoint lstrip (s : string) : string :=
  match s with
  | EmptyString => EmptyString
  | String c s' => if py_isspace c then lstrip s' else s
  end.

Definition rstrip (s : string) : string := String.rev (lstrip (String.rev s)).

(** [s.strip()] *)
Definition strip (s : string) : string := rstrip (lstrip s).

(** [sep.join(parts)] *)
Fixpoint join (sep : string) (parts : list string) : string :=
  match parts with
  | [] => ""
  | [p] => p
  | p :: ps => p +:+ sep +:+ join sep ps
  end.

(** [p in s] for text: [p] occurs in [s] as a contiguous piece. *)
Fixpoint contains (p s : string) : bool :=
  String.prefix p s ||
  match s with
  | EmptyString => false
  | String _ s' => contains p s'
  end.

(** [s.replace(p, "")] for a non-empty [p]: occurrences are removed from
    left to right without overlap; [skip] counts the characters of the
    occurrence being dropped. *)
Fixpoint remove_all_from (p : string) (skip : nat) (s : string) : string :=
  match s with
  | EmptyString => EmptyString
  | String c s' =>
      match skip with
      | S k => remove_all_from p k s'
      | O => if String.prefix p s
             then remove_all_from p (String.length p - 1) s'
             else String c (remove_all_from p 0 s')
      end
  end.

Definition remove_all (p s : string) : string :=
  if String.eqb p "" then s else remove_all_from p 0 s.

(** [sorted(set(xs))] on text: distinct values in code-point order. *)
Definition sorted_set (xs : list string) : list string :=
  merge_sort String.le (remove_dups xs).

(** ** Cell values *)

Record date := Date { year : Z; month : Z; day : Z }.

(** The values a spreadsheet cell holds once read: [None], the float
    NaN, text, an integer, a float, a timestamp (its calendar day). *)
Inductive pyval :=
  | VNone
  | VNaN
  | VStr (s : string)
  | VInt (z : Z)
  | VFloat (q : Q)
  | VStamp (d : date).

(** [bool(v)]: NaN and timestamps are true, zero and the empty text are
    false. *)
Definition truthy (v : pyval) : bool :=
  match v with
  | VNone => false
  | VNaN => true
  | VStr s => negb (String.eqb s "")
  | VInt z => negb (z =? 0)%Z
  | VFloat q => negb (Qeq_bool q 0)
  | VStamp _ => true
  end.

(** [pd.isna(v)] on a scalar *)
Definition isna (v : pyval) : bool :=
  match v with VNone | VNaN => true | _ => false end.

(** ** Data frames *)

(** A column label is text or, for a multi-level header, a tuple of text. *)
Inductive label :=
  | LStr (s : string)
  | LTuple (parts : list string).

Global Instance label_eq_dec : EqDecision label.
Proof. solve_decision. Defined.

Definition label_truthy (c : label) : bool :=
  match c with
  | LStr s => negb (String.eqb s "")
  | LTuple ps => match ps with [] => false | _ => true end
  end.

(** [bool(c)] for a resolved column that may be [None] *)
Definition col_truthy (c : option label) : bool :=
  match c with Some l => label_truthy l | None => false end.

(** [a or b] on resolved columns *)
Definition col_or (a b : option label) : option label :=
  if col_truthy a then a else b.

Record DataFrame := Frame { columns : list label; rows : list (list pyval) }.

(** [df.empty]: one of the two axes has length zero. *)
Definition df_empty (d : DataFrame) : bool :=
  match columns d, rows d with
  | [], _ | _, [] => true
  | _, _ => false
  end.

(** [len(df)] *)
Definition df_len (d : DataFrame) : nat := length (rows d).

(** Position of a label among the columns. *)
Fixpoint col_index (c : label) (cols : list label) : option nat :=
  match cols with
  | [] => None
  | c' :: cs => if decide (c' = c) then Some 0%nat else S <$> col_index c cs
  end.

(** [row.get(c)]: the cell of the row under column [c], [None] when the
    frame has no such column. *)
Definition row_get (d : DataFrame) (row : list pyval) (c : label) : pyval :=
  match col_index c (columns d) with
  | Some i => default VNone (row !! i)
  | None => VNone
  end.

(** [df[c]]: the cells of column [c], one per row. *)
Definition column_values (d : DataFrame) (c : label) : list pyval :=
  map (λ row, row_get d row c) (rows d).

(** ** Numbers *)

Definition Qsum (l : list Q) : Q := foldr Qplus 0%Q l.

(** [np.mean(vals)] on a non-empty list *)
Definition mean (l : list Q) : Q := (Qsum l / inject_Z (Z.of_nat (length l)))%Q.

(** [round(x, 2)]: the nearest multiple of 1/100, a tie going to the even
    multiple. *)
Definition round_half_even (t : Q) : Z :=
  let f := Qfloor t in
  match Qcompare (t - inject_Z f) (1 # 2) with
  | Lt => f
  | Gt => (f + 1)%Z
  | Eq => if Z.even f then f else (f + 1)%Z
  end.

Definition round2 (x : Q) : Q := Qred (inject_Z (round_half_even (x * 100)) / 100)%Q.

(** ** Dates *)

(** Days since 1970-01-01 in the proleptic Gregorian calendar. *)
Definition days_from_civil (d : date) : Z :=
  let y := if (month d <=? 2)%Z then (year d - 1)%Z else year d in
  let era := (y / 400)%Z in
  let yoe := (y - era * 400)%Z in
  let mp := ((month d + 9) mod 12)%Z in
  let doy := ((153 * mp + 2) / 5 + day d - 1)%Z in
  let doe := (yoe * 365 + yoe / 4 - yoe / 100 + doy)%Z in
  (era * 146097 + doe - 719468)%Z.

(** [d.weekday()]: Monday is 0. *)
Definition weekday (d : date) : Z := ((days_from_civil d + 3) mod 7)%Z.

(** What [to_date] hands back: [None], the not-a-time marker, or a day. *)
Inductive dateval :=
  | DNone
  | DNaT
  | DDate (d : date).

(** ** Exceptions, session state and the monad of effectful code *)

Inductive exn :=
  | IndexError
  | RecursionError
  | ValueError (msg : string)
  | RemoteError (msg : string).

(** [str(e)] *)
Definition exn_text (e : exn) : string :=
  match e with
  | IndexError => "list index out of range"
  | RecursionError => "maximum recursion depth exceeded"
  | ValueError msg => msg
  | RemoteError msg => msg
  end.

Inductive result (A : Type) :=
  | Ok (a : A)
  | Raise (e : exn).
Arguments Ok {A} a.
Arguments Raise {A} e.

(** The two entries of [st.session_state] the client uses, as left by
    [ensure_session_defaults], and the number of remote calls made so
    far, which tells the replies of the service apart. *)
Record Session := MkSession {
  groq_key_index : nat;
  groq_key_limits : gmap nat bool;
  clock : nat;
}.

Definition M (A : Type) : Type := Session → result A * Session.

Definition ret {A} (a : A) : M A := λ s, (Ok a, s).
Definition raise {A} (e : exn) : M A := λ s, (Raise e, s).
Definition bind {A B} (m : M A) (k : A → M B) : M B :=
  λ s, match m s with
       | (Ok a, s') => k a s'
       | (Raise e, s') => (Raise e, s')
       end.

(** [try: body except Exception as e: handler(e)] *)
Definition try_except {A} (body : M A) (handler : exn → M A) : M A :=
  λ s, match body s with
       | (Ok a, s') => (Ok a, s')
       | (Raise e, s') => handler e s'
       end.

Notation "'do' x <- m ; k" := (bind m (λ x, k))
  (at level 10, x name, m at level 100, k at level 200).
Notation "'run' m ; k" := (bind m (λ _, k))
  (at level 10, m at level 100, k at level 200).

Definition get_session : M Session := λ s, (Ok s, s).

(** [st.session_state.groq_key_limits[i]] read through the defaultdict *)
Definition limit_of (s : Session) (i : nat) : bool :=
  default false (groq_key_limits s !! i).

(** [st.session_state.groq_key_limits[i] = b] *)
Definition set_limit (i : nat) (b : bool) : M unit :=
  λ s, (Ok tt, MkSession (groq_key_index s) (<[i := b]> (groq_key_limits s)) (clock s)).

(** [st.session_state.groq_key_index = i] *)
Definition set_key_index (i : nat) : M unit :=
  λ s, (Ok tt, MkSession i (groq_key_limits s) (clock s)).

Definition tick (s : Session) : Session :=
  MkSession (groq_key_index s) (groq_key_limits s) (S (clock s)).

(** * data_handler: cleaning comments

    [clean_comment] and [_is_checklist_line] with their three compiled
    patterns, written out as matchers. Text is read as UTF-8: the two
    bullet characters of the patterns that lie outside ASCII are matched
    by their bytes, and a length counts characters, not bytes. Outside
    ASCII no character counts as whitespace, as a digit or as a word
    character, and none has case. *)

Module Cleaning.

Definition is_quote (c : ascii) : bool := Ascii.eqb c "034".

(** [s.strip(chars)] for a set of ASCII characters *)
Fixpoint lstrip_chars (p : ascii → bool) (s : string) : string :=
  match s with
  | EmptyString => EmptyString
  | String c s' => if p c then lstrip_chars p s' else s
  end.

Definition rstrip_chars (p : ascii → bool) (s : string) : string :=
  String.rev (lstrip_chars p (String.rev s)).

Definition strip_chars (p : ascii → bool) (s : string) : string :=
  rstrip_chars p (lstrip_chars p s).

(** The ASCII characters among those that the loop strips before it
    measures a line: blank, hyphen, asterisk, tab, double quote and
    apostrophe. *)
Definition is_mark (c : ascii) : bool :=
  Ascii.eqb c " " || Ascii.eqb c "-" || Ascii.eqb c "*" || Ascii.eqb c "009"
  || Ascii.eqb c "034" || Ascii.eqb c "'".

(** Dropping the characters of that set from the left; [two] and
    [three] are the bytes of the middle dot and of the bullet, in the
    order in which they are met. *)
Fixpoint lstrip_marks (two : ascii * ascii) (three : ascii * ascii * ascii)
    (s : string) : string :=
  match s with
  | EmptyString => EmptyString
  | String c1 s1 =>
      if is_mark c1 then lstrip_marks two three s1
      else
        match s1 with
        | EmptyString => s
        | String c2 s2 =>
            if Ascii.eqb c1 two.1 && Ascii.eqb c2 two.2 then lstrip_marks two three s2
            else
              match s2 with
              | EmptyString => s
              | String c3 s3 =>
                  if Ascii.eqb c1 three.1.1 && Ascii.eqb c2 three.1.2 && Ascii.eqb c3 three.2
                  then lstrip_marks two three s3
                  else s
              end
        end
  end.

(** [s.strip(chars)] for those characters, the bullet and the middle
    dot. *)
Definition strip_marks (s : string) : string :=
  String.rev
    (lstrip_marks ("183", "194")%char ("162", "128", "226")%char
       (String.rev (lstrip_marks ("194", "183")%char ("226", "128", "162")%char s))).

(** [len(s)]: the bytes that do not continue a character. *)
Definition py_len (s : string) : nat :=
  length (filter (λ c, negb ((128 <=? nat_of_ascii c)%nat && (nat_of_ascii c <? 192)%nat))
                 (list_ascii_of_string s)).

(** [s.split(sep)] for a separator of one character *)
Fixpoint split_on (sep : ascii) (s : string) : list string :=
  match s with
  | EmptyString => [""]
  | String c s' =>
      if Ascii.eqb c sep then "" :: split_on sep s'
      else match split_on sep s' with
           | l :: ls => String c l :: ls
           | [] => [String c ""]
           end
  end.

(** [re.sub(r"\s+", " ", s)]; [in_run] tells that the character before
    was whitespace. *)
Fixpoint collapse_from (in_run : bool) (s : string) : string :=
  match s with
  | EmptyString => EmptyString
  | String c s' =>
      if py_isspace c then
        if in_run then collapse_from true s' else String " " (collapse_from true s')
      else String c (collapse_from false s')
  end.

Definition collapse_ws (s : string) : string := collapse_from false s.

(** A word character of [\b]. *)
Definition is_word (c : ascii) : bool :=
  is_upper c || is_lower c || is_digit c || Ascii.eqb c "_".

(** [\b] after a word that ends in a letter. *)
Definition boundary (rest : string) : bool :=
  match rest with
  | EmptyString => true
  | String c _ => negb (is_word c)
  end.

(** The word [w], in any case, followed by [\b], at the start of [s]. *)
Fixpoint word_here (w s : string) : bool :=
  match w with
  | EmptyString => boundary s
  | String a w' =>
      match s with
      | EmptyString => false
      | String c s' => Ascii.eqb (lower_char a) (lower_char c) && word_here w' s'
      end
  end.

Definition YESNO_WORDS : list string :=
  ["Yes"; "No"; "Yes/No"; "Resolved"; "Escalated"; "Closed"].

(** What may follow the colon: [\s*-?\s*] and one of the words, or
    [\s*Accurate]. *)
Definition after_colon (s : string) : bool :=
  let t := lstrip s in
  let t := match t with
           | String c t' => if Ascii.eqb c "-" then t' else t
           | EmptyString => t
           end in
  existsb (λ w, word_here w (lstrip t)) YESNO_WORDS
  || word_here "Accurate" (lstrip s).

(** [YESNO_SUFFIX.search(s)] *)
Fixpoint YESNO_SUFFIX (s : string) : bool :=
  match s with
  | EmptyString => false
  | String c s' => (Ascii.eqb c ":" && after_colon s') || YESNO_SUFFIX s'
  end.

Fixpoint drop_digits (s : string) : string :=
  match s with
  | EmptyString => EmptyString
  | String c s' => if is_digit c then drop_digits s' else s
  end.

Definition space_here (s : string) : bool :=
  match s with
  | EmptyString => false
  | String c _ => py_isspace c
  end.

Fixpoint drop_prefix (p s : string) : option string :=
  match p with
  | EmptyString => Some s
  | String a p' =>
      match s with
      | EmptyString => None
      | String c s' => if Ascii.eqb a c then drop_prefix p' s' else None
      end
  end.

Definition BULLETS : list string := ["-"; "*"; "•"; "·"].

(** [BULLET_LINE.match(s)]: a number followed by a dot or a bracket, or
    a bullet, and then whitespace. *)
Definition BULLET_LINE (s : string) : bool :=
  let t := lstrip s in
  match t with
  | EmptyString => false
  | String c t' =>
      (is_digit c &&
       match drop_digits t' with
       | String d u => (Ascii.eqb d "." || Ascii.eqb d ")") && space_here u
       | EmptyString => false
       end)
      || existsb (λ b, match drop_prefix b t with
                       | Some u => space_here u
                       | None => false
                       end) BULLETS
  end.

Definition CHECKLIST_KEYS : list string :=
  ["checked for previous tickets"; "preference contact method"; "preferred contact method";
   "contact type"; "ms teams chat integration"; "ms teams integration"; "short description";
   "configuration item"; "category"; "computer name documented"; "error screenshot attached";
   "ticket state"; "work note documentation"; "additional assistance"; "call opening followed";
   "user validation procedure"; "display empathy & assurance"; "call holding procedure";
   "professional and positive tone"; "sufficient probing"; "proper 3 reminder process";
   "bomgar chat messages attached"; "computer name documented/ bomgar chat messages attached"].

Definition _is_checklist_line (line : string) : bool :=
  let L := lower (strip_chars is_quote (strip line)) in
  if String.eqb L "" then true
  else if String.prefix "observations" L || contains "observation/areas for improvement" L
  then true
  else if existsb (λ k, contains k L) CHECKLIST_KEYS then true
  else if YESNO_SUFFIX line then true
  else if BULLET_LINE line then true
  else false.

(** The body of the loop over the lines: what is appended to [kept],
    if anything. *)
Definition keep_line (ln : string) : option string :=
  if _is_checklist_line ln then None
  else if (py_len (strip_marks ln) <? 3)%nat then None
  else Some (strip (strip_chars is_quote ln)).

(** The lines of the comment, each one trimmed. *)
Definition lines_of (raw : string) : list string :=
  let raw := string_map (λ c, if Ascii.eqb c "013" then "010"%char else c) raw in
  map strip (split_on "010" raw).

Definition clean_comment (raw : pyval) : string :=
  match raw with
  | VStr raw =>
      let kept := omap keep_line (lines_of raw) in
      let text := join " " kept in
      strip (collapse_ws text)
  | _ => ""
  end.

End Cleaning.

(** Text without whitespace at either end in which every whitespace
    character is a single blank; [prev_blank] tells that the character
    before was a blank, or that the text starts here. *)
Fixpoint tidy_from (prev_blank : bool) (s : string) : bool :=
  match s with
  | EmptyString => negb prev_blank
  | String c s' =>
      if py_isspace c then Ascii.eqb c " " && negb prev_blank && tidy_from true s'
      else tidy_from false s'
  end.

Definition single_spaced (s : string) : bool :=
  match s with
  | EmptyString => true
  | _ => tidy_from true s
  end.

(** The same without the condition on the end of the text. *)
Fixpoint spaced_from (prev_blank : bool) (s : string) : bool :=
  match s with
  | EmptyString => true
  | String c s' =>
      if py_isspace c then Ascii.eqb c " " && negb prev_blank && spaced_from true s'
      else spaced_from false s'
  end.

Section Program.

(** ** Library behaviour taken as given *)

(** [str(x)] of a float and of a timestamp. *)
Variable repr_float : Q → string.
Variable repr_stamp : date → string.
(** What [pd.to_numeric(..., errors="coerce")] makes of a text cell;
    [None] is NaN. *)
Variable parse_number : string → option Q.
(** [pd.to_datetime(v, errors="coerce")] followed by [.date()] on a cell
    that is neither missing nor a timestamp: the outer [None] is an
    exception, the inner [None] is NaT. *)
Variable to_datetime : pyval → option (option date).

(** ** The text of a value *)

(** [str(v)] *)
Definition py_str (v : pyval) : string :=
  match v with
  | VNone => "None"
  | VNaN => "nan"
  | VStr s => s
  | VInt z => pretty z
  | VFloat q => repr_float q
  | VStamp d => repr_stamp d
  end.

(** * data_handler *)

Definition _norm (s : pyval) : option string :=
  match s with
  | VNone => None
  | VInt _ | VFloat _ => Some (strip (py_str s))
  | VStr t => Some (strip t)
  | VNaN | VStamp _ => None
  end.

(** ** pick_first_available_column *)

Definition col_to_text (col : label) : string :=
  match col with
  | LStr s => s
  | LTuple ps => join " " ps
  end.

Definition norm (s : string) : string := strip (lower s).

(** [re.sub(r"[^a-z]", "", norm(s))] *)
Definition norm_simple (s : string) : string := string_filter is_lower (norm s).

(** [m.setdefault(k, v)] *)
Definition setdefault (k : string) (v : label) (m : gmap string label) : gmap string label :=
  match m !! k with
  | Some _ => m
  | None => <[k := v]> m
  end.

(** The loop over [df.columns] filling [lower_map] and [simple_map]. *)
Definition column_maps (cols : list label) : gmap string label * gmap string label :=
  foldl (λ maps original,
           let t := col_to_text original in
           (setdefault (norm t) original maps.1,
            setdefault (norm_simple t) original maps.2))
        (∅, ∅) cols.

(** One [for cand in candidates] loop: the first candidate whose key is
    in the map decides. *)
Fixpoint first_candidate (key : string → string) (m : gmap string label)
    (candidates : list string) : option label :=
  match candidates with
  | [] => None
  | cand :: rest =>
      match m !! key cand with
      | Some original => Some original
      | None => first_candidate key m rest
      end
  end.

Definition pick_first_available_column (df : option DataFrame)
    (candidates : list string) : option label :=
  match df with
  | None => None
  | Some d =>
      if df_empty d then None
      else
        let maps := column_maps (columns d) in
        match first_candidate norm maps.1 candidates with
        | Some original => Some original
        | None => first_candidate norm_simple maps.2 candidates
        end
  end.

(** ** Weeks and dates *)

Definition week_of_month (d : date) : Z :=
  let first_day := Date (year d) (month d) 1 in
  let adjusted_dom := (day d + weekday first_day)%Z in
  ((adjusted_dom + 6) / 7)%Z.

Definition to_date (s : pyval) : dateval :=
  if isna s then DNone
  else match s with
       | VStamp d => DDate d
       | _ => match to_datetime s with
              | Some (Some d) => DDate d
              | Some None => DNaT
              | None => DNone
              end
       end.

(** ** Grades *)

(** One element of [pd.to_numeric(series, errors="coerce")]; [None] is
    NaN. *)
Definition to_numeric (v : pyval) : option Q :=
  match v with
  | VInt z => Some (inject_Z z)
  | VFloat q => Some q
  | VStr s => parse_number s
  | VNone | VNaN | VStamp _ => None
  end.

Definition grade_scale : list (string * Q) :=
  [("A+", 5); ("A", 5); ("A-", 47 # 10);
   ("B+", 43 # 10); ("B", 4); ("B-", 37 # 10);
   ("C+", 33 # 10); ("C", 3); ("C-", 27 # 10);
   ("D+", 23 # 10); ("D", 2); ("D-", 17 # 10);
   ("E", 1); ("F", 0)]%Q.

(** [m.get(s)] on a literal dict *)
Fixpoint assoc_get {A} (k : string) (m : list (string * A)) : option A :=
  match m with
  | [] => None
  | (k', v) :: m' => if String.eqb k' k then Some v else assoc_get k m'
  end.

Definition letter_grade_to_score (val : pyval) : option Q :=
  if isna val then None
  else assoc_get (upper (strip (py_str val))) grade_scale.

Definition average_of_grades (series : list pyval) : option Q :=
  let s_num := map to_numeric series in
  if existsb (λ x, bool_decide (is_Some x)) s_num then
    let vals := omap id s_num in
    match vals with [] => None | _ => Some (round2 (mean vals)) end
  else
    let mapped := omap letter_grade_to_score series in
    match mapped with [] => None | _ => Some (round2 (mean mapped)) end.

(** ** Cleaning model output *)

Definition output_prefixes : list string :=
  ["Here is a concise summary of Areas to Improve:";
   "Here is a summary of Areas to Improve:";
   "Based on the raw comments,";
   "Here are the areas to improve:";
   "Here are the Areas to Improve:";
   "Here is the summary of Areas to Improve:"].

Definition clean_output (text : string) : string :=
  if String.eqb text "" then ""
  else strip (foldl (λ t p, remove_all p t) text output_prefixes).

(** * groq_client *)

(** ** Rate-limit detection *)

Definition RATE_LIMIT_PATTERNS : list string :=
  ["rate limit"; "quota"; "limit exceeded";
   "too many requests"; "429"; "insufficient_quota"].

Definition is_rate_limit_error (error_msg : string) : bool :=
  if String.eqb error_msg "" then false
  else
    let error_lower := lower error_msg in
    existsb (λ pattern, contains pattern error_lower) RATE_LIMIT_PATTERNS.

(** The default system message of [groq_chat_completion]. *)
Definition default_system : string :=
  "You are a QA coaching assistant." +:+ String "010" "" +:+
  "From the raw comments, output only improvement issues." +:+ String "010" "" +:+
  "- Each issue: a unique, very short phrase or one short sentence." +:+ String "010" "" +:+
  "- Merge duplicates; avoid filler and repetition." +:+ String "010" "" +:+
  "- No strengths, no generic advice, no checklists." +:+ String "010" "" +:+
  "- If no improvements, respond exactly: " +:+ String "034" "" +:+
  "Analyst performed well. No improvement as of now." +:+ String "034" "".

(** What [client.chat.completions.create] does: it raises, or it answers
    with a list of choices, each with its [message.content]. *)
Inductive reply :=
  | Failed (msg : string)
  | Replied (choices : list (option string)).

(** ** The environment and the hosted service *)

(** [os.getenv(name, "")] *)
Variable getenv : string → string.
(** [Groq(api_key=key)] followed by [client.models.list(timeout=5)] as
    the [t]-th remote call: [None] when both go through, the text of the
    exception otherwise. *)
Variable models_list : nat → string → option string.
(** [client.chat.completions.create] as the [t]-th remote call, with the
    key of the client, the system message and the user prompt. *)
Variable chat_create : nat → string → string → string → reply.

(** The loop that removes duplicates while preserving order. *)
Fixpoint unique_keys (seen : list string) (api_keys : list string) : list string :=
  match api_keys with
  | [] => []
  | key :: rest =>
      if bool_decide (key ∈ seen) then unique_keys seen rest
      else key :: unique_keys (key :: seen) rest
  end.

Definition get_api_keys_from_env : list string :=
  let api_keys :=
    filter (λ key_value, key_value ≠ "")
           (map (λ i, strip (getenv ("GROQ_API_KEY_" +:+ pretty i))) (seq 1 20)) in
  unique_keys [] api_keys.

(** [client = Groq(api_key=key); client.models.list(timeout=5)] *)
Definition key_test (key : string) : M unit :=
  λ s, match models_list (clock s) key with
       | None => (Ok tt, tick s)
       | Some msg => (Raise (RemoteError msg), tick s)
       end.

(** The [try] block that probes the key at [index]: on success
    [on_success] runs and the client is returned; a failure with a
    rate-limit message marks the key. The block occurs twice, for the
    current key (nothing to do on success) and for the other keys (the
    index becomes the current one). *)
Definition probe_key (index : nat) (key : string) (on_success : M unit) : M (option string) :=
  try_except
    (run key_test key;
     run on_success;
     ret (Some key))
    (λ e,
       if is_rate_limit_error (exn_text e)
       then run set_limit index true; ret None
       else ret None).

(** The [for i in range(1, len(api_keys))] loop of
    [get_next_groq_client]; a client is identified by its key. *)
Fixpoint try_other_keys (api_keys : list string) (current_index : nat)
    (offsets : list nat) : M (option string) :=
  match offsets with
  | [] => ret None
  | i :: rest =>
      let next_index := ((current_index + i) mod length api_keys)%nat in
      match api_keys !! next_index with
      | None => raise IndexError
      | Some next_key =>
          do s <- get_session;
          if negb (String.eqb next_key "") && negb (limit_of s next_index) then
            do found <- probe_key next_index next_key (set_key_index next_index);
            match found with
            | Some client => ret (Some client)
            | None => try_other_keys api_keys current_index rest
            end
          else try_other_keys api_keys current_index rest
      end
  end.

(** [for i in range(len(api_keys)): limits[i] = False] *)
Definition reset_limits (n : nat) : M unit :=
  λ s, (Ok tt,
        MkSession (groq_key_index s)
                  (foldl (λ m i, <[i := false]> m) (groq_key_limits s) (seq 0 n))
                  (clock s)).

(** The body of [get_next_groq_client]; [recur] stands for the
    recursive call on its last line but two. *)
Definition get_next_groq_client_body (recur : M (option string)) : M (option string) :=
  let api_keys := get_api_keys_from_env in
  match api_keys with
  | [] => ret None
  | _ =>
      do s <- get_session;
      let current_index := groq_key_index s in
      match api_keys !! current_index with
      | None => raise IndexError
      | Some current_key =>
          do first <-
            (if negb (String.eqb current_key "") && negb (limit_of s current_index)
             then probe_key current_index current_key (ret tt)
             else ret None);
          match first with
          | Some client => ret (Some client)
          | None =>
              do other <- try_other_keys api_keys current_index
                            (seq 1 (length api_keys - 1));
              match other with
              | Some client => ret (Some client)
              | None =>
                  do s' <- get_session;
                  if forallb (limit_of s') (seq 0 (length api_keys)) then
                    run reset_limits (length api_keys);
                    run set_key_index 0;
                    recur
                  else ret None
              end
          end
      end
  end.

(** [depth] is the number of nested calls the interpreter still allows;
    running out of it is the [RecursionError] of Python. *)
Fixpoint get_next_groq_client (depth : nat) : M (option string) :=
  get_next_groq_client_body
    (match depth with
     | O => raise RecursionError
     | S depth' => get_next_groq_client depth'
     end).

Definition chat_completions_create (key system prompt : string) : M (list (option string)) :=
  λ s, match chat_create (clock s) key system prompt with
       | Failed msg => (Raise (RemoteError msg), tick s)
       | Replied choices => (Ok choices, tick s)
       end.

(** [system or (default message)] *)
Definition system_or_default (system : option string) : string :=
  match system with
  | Some t => if String.eqb t "" then default_system else t
  | None => default_system
  end.

Definition groq_chat_completion (depth : nat) (prompt : string)
    (system : option string) : M string :=
  do client <- get_next_groq_client depth;
  match client with
  | None => ret ""
  | Some key =>
      try_except
        (let sys_msg := system_or_default system in
         do choices <- chat_completions_create key sys_msg prompt;
         match choices with
         | first :: _ =>
             let raw := default "" first in
             ret (strip (clean_output raw))
         | [] => ret ""
         end)
        (λ e,
           do s <- get_session;
           let current_index := groq_key_index s in
           let error_msg := exn_text e in
           if is_rate_limit_error error_msg
           then run set_limit current_index true; ret ""
           else ret "")
  end.

(** [groq_complete] sends a list of messages, each a dict from text to
    text, with a token limit. [create] is
    [client.chat.completions.create] as it is called there, as the
    [t]-th remote call with the key of the client. *)
Definition chat_completions_create_messages
    (create : nat → string → list (gmap string string) → Z → reply) (key : string)
    (messages : list (gmap string string)) (max_tokens : Z) : M (list (option string)) :=
  λ s, match create (clock s) key messages max_tokens with
       | Failed msg => (Raise (RemoteError msg), tick s)
       | Replied choices => (Ok choices, tick s)
       end.

(** [resp.choices[0]] raises [IndexError] on an empty list of choices,
    inside the [try]. *)
Definition groq_complete (create : nat → string → list (gmap string string) → Z → reply)
    (depth : nat) (messages : list (gmap string string)) (max_tokens : Z) : M string :=
  match get_api_keys_from_env with
  | [] => ret ""
  | _ =>
      do client <- get_next_groq_client depth;
      match client with
      | None => ret ""
      | Some key =>
          try_except
            (do choices <- chat_completions_create_messages create key messages max_tokens;
             match choices with
             | first :: _ =>
                 let out := strip (default "" first) in
                 ret (clean_output out)
             | [] => raise IndexError
             end)
            (λ e,
               do s <- get_session;
               let current_index := groq_key_index s in
               let error_msg := exn_text e in
               if is_rate_limit_error error_msg
               then run set_limit current_index true; ret ""
               else ret "")
      end
  end.

(** * tracker *)

(** [build_employee_key] is imported from [data_handler] but its
    definition is not part of the sources: the aggregation code is
    stated for any key function from a cell to text. *)
Variable build_employee_key : pyval → string.
(** [clean_comment] (data_handler, regular expressions over the lines of
    a comment) only prepares the text sent to the service and is applied to
    text alone. It is left abstract: every property below holds for any
    function from text to text, hence for the one of the source. *)
Variable clean_comment : string → string.

Definition COLUMN_CANDIDATES : list (string * list string) :=
  [("employee_name", ["Employee Name"; "Analyst Name"; "Trainee"; "Analyst"; "Name"]);
   ("trainee_name", ["Trainee"; "Trainee Name"; "Analyst Name"; "Employee Name"; "Analyst"]);
   ("analyst_name", ["Analyst Name"; "Employee Name"; "Analyst"]);
   ("team_lead", ["Team Lead"; "Team Leader"; "TL"; "Manager"; "Reporting Manager"]);
   ("manager", ["Manager"; "Reporting Manager"; "Supervisor"]);
   ("quality_assessor", ["Assessor"; "Quality Assessor"; "QA"; "Quality Analyst"; "Analyst Name"; "Coach"]);
   ("week", ["Week"; "Week Number"; "Week_of_Month"; "WOM"]);
   ("date", ["Date"; "Assessed On"; "Created"; "Assessment Date"]);
   ("sn_rating", ["Trainee rating"; "Trainee Rating"; "Rating"]);
   ("manual_grade", ["Grade"; "Score"; "Marks"]);
   ("comments", ["Comments"; "Notes"; "QA Comments"; "Reviewer Comments"])].

Definition candidates (k : string) : list string :=
  default [] (assoc_get k COLUMN_CANDIDATES).

Record Cols := MkCols {
  name_col : option label;
  tl_col : option label;
  qa_col : option label;
  week_col : option label;
  date_col : option label;
  sn_rating_col : option label;
  manual_grade_col : option label;
  comments_col : option label;
}.

Definition extract_people_fields (df : DataFrame) : Cols :=
  let pick k := pick_first_available_column (Some df) (candidates k) in
  {| name_col := col_or (pick "employee_name") (col_or (pick "trainee_name") (pick "analyst_name"));
     tl_col := col_or (pick "team_lead") (pick "manager");
     qa_col := pick "quality_assessor";
     week_col := pick "week";
     date_col := pick "date";
     sn_rating_col := pick "sn_rating";
     manual_grade_col := pick "manual_grade";
     comments_col := pick "comments" |}.

(** ** The week filter *)

Fixpoint take_digits (s : string) : string :=
  match s with
  | EmptyString => EmptyString
  | String c s' => if is_digit c then String c (take_digits s') else EmptyString
  end.

(** [str.extract(r"(\d+)")]: the leftmost run of digits, if any. *)
Fixpoint first_digits (s : string) : option string :=
  match s with
  | EmptyString => None
  | String c s' => if is_digit c then Some (take_digits s) else first_digits s'
  end.

Definition digits_value (ds : string) : Z :=
  foldl (λ acc c, (acc * 10 + (Z.of_nat (nat_of_ascii c) - 48))%Z) 0%Z
        (list_ascii_of_string ds).

(** One element of [wvals == week_n]. *)
Definition week_cell_matches (week_n : Z) (v : pyval) : bool :=
  match first_digits (py_str v) with
  | Some ds => (digits_value ds =? week_n)%Z
  | None => false
  end.

(** The lambda computing the week of the month of a parsed date: NaN
    for [None]; on NaT, which is true as a condition, [week_of_month]
    ends in [math.ceil] of NaN. *)
Definition wom_of (d : dateval) : result (option Z) :=
  match d with
  | DNone => Ok None
  | DNaT => Raise (ValueError "cannot convert float NaN to integer")
  | DDate x => Ok (Some (week_of_month x))
  end.

Definition month_of (d : dateval) : option Z :=
  match d with
  | DDate x => Some (month x)
  | DNone | DNaT => None
  end.

Fixpoint result_map {A B} (f : A → result B) (l : list A) : result (list B) :=
  match l with
  | [] => Ok []
  | x :: l' =>
      match f x with
      | Raise e => Raise e
      | Ok y => match result_map f l' with
                | Raise e => Raise e
                | Ok ys => Ok (y :: ys)
                end
      end
  end.

(** [c and c in df.columns] *)
Definition usable_col (c : option label) (d : DataFrame) : option label :=
  match c with
  | Some l => if label_truthy l && bool_decide (l ∈ columns d) then Some l else None
  | None => None
  end.

Definition get_week_filter_mask (df : option DataFrame) (week_col date_col : option label)
    (month_n week_n : Z) : result (list bool) :=
  match df with
  | None => Ok []
  | Some d =>
      if df_empty d then Ok []
      else
        match usable_col week_col d with
        | Some wc => Ok (map (week_cell_matches week_n) (column_values d wc))
        | None =>
            match usable_col date_col d with
            | Some dc =>
                let dates := map to_date (column_values d dc) in
                match result_map wom_of dates with
                | Raise e => Raise e
                | Ok wom =>
                    let months := map month_of dates in
                    Ok (zip_with (λ m w, bool_decide (m = Some month_n) && bool_decide (w = Some week_n))
                                 months wom)
                end
            | None => Ok (replicate (df_len d) true)
            end
        end
  end.

(** ** Summaries from the service *)

(** [[clean_comment(c).strip() for c in all_comments if _norm(c)]] *)
Definition cleaned_bits (all_comments : list string) : list string :=
  map (λ c, strip (clean_comment c))
      (filter (λ c, from_option (λ t, t ≠ "") False (_norm (VStr c))) all_comments).

Definition user_prompt (combined : string) : string :=
  "Raw observations (cleaned): " +:+ combined +:+ String "010" "" +:+
  "Write only 2â€“3 sentences focusing on specific improvement actions and missed steps. " +:+
  "Avoid strengths, disclaimers, or generic best practices. Do not include personally identifiable customer data.".

Definition synthesize_areas_to_improve (depth : nat) (all_comments : list string)
    (employee_name : string) (seed_examples : list string) : M string :=
  match cleaned_bits all_comments with
  | [] => ret ""
  | bits => groq_chat_completion depth (user_prompt (join " " bits)) None
  end.

(** ** Aggregation *)

Record Agg := MkAgg {
  team_leads : list string;
  assessors : list string;
  comments : list string;
  sn_ratings : list pyval;
  manual_grades : list pyval;
}.

Definition empty_agg : Agg := MkAgg [] [] [] [] [].

(** [d[name]] on the defaultdict *)
Definition agg_of (d : gmap string Agg) (name : string) : Agg :=
  default empty_agg (d !! name).

(** [row.get(cols[k]) if cols.get(k) else None] *)
Definition cell_or_none (d : DataFrame) (row : list pyval) (c : option label) : pyval :=
  match c with
  | Some l => if label_truthy l then row_get d row l else VNone
  | None => VNone
  end.

Definition is_none (v : pyval) : bool :=
  match v with VNone => true | _ => false end.

(** The body of the [for _, row in df.iterrows()] loop. *)
Definition add_row (df : DataFrame) (cols : Cols) (name_c : label) (d : gmap string Agg)
    (row : list pyval) : gmap string Agg :=
  let name := build_employee_key (row_get df row name_c) in
  if String.eqb name "" then d
  else
    let tl := cell_or_none df row (tl_col cols) in
    let qa := cell_or_none df row (qa_col cols) in
    let cm := cell_or_none df row (comments_col cols) in
    let sr := cell_or_none df row (sn_rating_col cols) in
    let mg := cell_or_none df row (manual_grade_col cols) in
    let a := agg_of d name in
    <[name :=
        {| team_leads := if truthy tl then team_leads a ++ [py_str tl] else team_leads a;
           assessors := if truthy qa then assessors a ++ [py_str qa] else assessors a;
           comments := if truthy cm then comments a ++ [py_str cm] else comments a;
           sn_ratings := if is_none sr then sn_ratings a else sn_ratings a ++ [sr];
           manual_grades := if is_none mg then manual_grades a else manual_grades a ++ [mg] |}]> d.

Definition per_employee (df : DataFrame) (cols : Cols) : gmap string Agg :=
  match name_col cols with
  | Some name_c =>
      if df_empty df || negb (label_truthy name_c) then ∅
      else foldl (add_row df cols name_c) ∅ (rows df)
  | None => ∅
  end.

(** [Counter(xs)]: counts in order of first occurrence. *)
Fixpoint counter_add (x : string) (c : list (string * nat)) : list (string * nat) :=
  match c with
  | [] => [(x, 1%nat)]
  | (k, n) :: c' => if String.eqb k x then (k, S n) :: c' else (k, n) :: counter_add x c'
  end.

Definition Counter (xs : list string) : list (string * nat) :=
  foldl (λ c x, counter_add x c) [] xs.

(** [max(items, key=count)]: the first item with the largest count. *)
Fixpoint max_count (best : string * nat) (c : list (string * nat)) : string * nat :=
  match c with
  | [] => best
  | x :: c' => if (best.2 <? x.2)%nat then max_count x c' else max_count best c'
  end.

(** [c.most_common(1)[0][0] if c else None] *)
Definition most_common1 (c : list (string * nat)) : option string :=
  match c with
  | [] => None
  | x :: c' => Some (max_count x c').1
  end.

(** [[_norm(x) for x in xs if _norm(x)]] on text *)
Definition normalized (xs : list string) : list string :=
  omap (λ x, match _norm (VStr x) with
             | Some t => if String.eqb t "" then None else Some t
             | None => None
             end) xs.

Definition month_abbr (month_n : Z) : option string :=
  if (1 <=? month_n)%Z && (month_n <=? 12)%Z then
    ["Jan"; "Feb"; "Mar"; "Apr"; "May"; "Jun";
     "Jul"; "Aug"; "Sep"; "Oct"; "Nov"; "Dec"] !! Z.to_nat (month_n - 1)
  else None.

Record TrackerRow := MkRow {
  r_employee_name : string;
  r_emp_id : string;
  r_organization : string;
  r_team_lead : string;
  r_status : string;
  r_quality_assessors : string;
  r_week : string;
  r_sn_count : pyval;
  r_sn_avg : pyval;
  r_manual_count : pyval;
  r_manual_avg : pyval;
  r_areas : string;
}.

Definition col_order : list string :=
  ["Employee Name"; "Emp ID"; "Organization"; "Team Lead"; "Status"; "Quality Assessors"; "Week";
   "Service Now Assessments Count"; "Service Now Assessments Average Rating";
   "Manual Assessments Count"; "Manual Assessments Average Rating"; "Areas to Improve"].

Definition row_cells (r : TrackerRow) : list pyval :=
  [VStr (r_employee_name r); VStr (r_emp_id r); VStr (r_organization r);
   VStr (r_team_lead r); VStr (r_status r); VStr (r_quality_assessors r); VStr (r_week r);
   r_sn_count r; r_sn_avg r; r_manual_count r; r_manual_avg r; VStr (r_areas r)].

(** [pd.DataFrame.from_records(records).reindex(columns=col_order)] *)
Definition tracker_frame (records : list TrackerRow) : DataFrame :=
  Frame (map LStr col_order) (map row_cells records).

(** [n if n else ""] *)
Definition count_cell (n : nat) : pyval :=
  match n with O => VStr "" | _ => VInt (Z.of_nat n) end.

(** [x if x is not None else ""] *)
Definition avg_cell (x : option Q) : pyval :=
  match x with Some q => VFloat q | None => VStr "" end.

(** The body of the [for name in all_names] loop. *)
Definition employee_record (depth : nat) (agg_manual agg_sn : gmap string Agg)
    (month_n week_n : Z) (seed_examples : list string) (name : string) : M TrackerRow :=
  let team_leads_all := team_leads (agg_of agg_manual name) ++ team_leads (agg_of agg_sn name) in
  let assessors_all := assessors (agg_of agg_manual name) ++ assessors (agg_of agg_sn name) in
  let comments_all := comments (agg_of agg_manual name) ++ comments (agg_of agg_sn name) in
  let sn_numeric := omap to_numeric (sn_ratings (agg_of agg_sn name)) in
  let manual_grades_series := manual_grades (agg_of agg_manual name) in
  let team_lead_final :=
    match team_leads_all with
    | [] => None
    | _ => most_common1 (Counter (normalized team_leads_all))
    end in
  let assessors_final := join ", " (sorted_set (normalized assessors_all)) in
  let service_now_count := length sn_numeric in
  let service_now_avg :=
    match sn_numeric with [] => None | _ => Some (round2 (mean sn_numeric)) end in
  let manual_count := length manual_grades_series in
  let manual_avg :=
    match manual_count with
    | O => None
    | _ => average_of_grades manual_grades_series
    end in
  do areas_text <- synthesize_areas_to_improve depth comments_all name seed_examples;
  match month_abbr month_n with
  | None => raise (ValueError "month must be in 1..12")
  | Some mon =>
      ret {| r_employee_name := name;
             r_emp_id := "";
             r_organization := "";
             r_team_lead := default "" team_lead_final;
             r_status := "";
             r_quality_assessors := assessors_final;
             r_week := mon +:+ " - Week " +:+ pretty week_n;
             r_sn_count := count_cell service_now_count;
             r_sn_avg := avg_cell service_now_avg;
             r_manual_count := count_cell manual_count;
             r_manual_avg := avg_cell manual_avg;
             r_areas := areas_text |}
  end.

Fixpoint for_each {A B} (f : A → M B) (l : list A) : M (list B) :=
  match l with
  | [] => ret []
  | x :: l' => do y <- f x; do ys <- for_each f l'; ret (y :: ys)
  end.

Definition lift {A} (r : result A) : M A := λ s, (r, s).

(** [df[mask]] with the mask of [get_week_filter_mask]. On a frame that
    has rows but no columns the mask is the zero-length series, which is
    no boolean indexer: it selects no column of a frame that has none
    and every row stays. Otherwise the mask has one entry per row. *)
Definition select_rows (d : DataFrame) (mask : list bool) : DataFrame :=
  match columns d with
  | [] => d
  | _ => Frame (columns d) (map fst (filter (λ p, p.2 = true) (zip (rows d) mask)))
  end.

(** [df[c].dropna().astype(str).map(build_employee_key) if c else
    pd.Series([])] *)
Definition employee_keys (d : DataFrame) (c : option label) : list string :=
  match c with
  | Some l =>
      if label_truthy l
      then map (λ v, build_employee_key (VStr (py_str v)))
               (filter (λ v, isna v = false) (column_values d l))
      else []
  | None => []
  end.

Definition generate_tracker (depth : nat) (manual_df sn_df : DataFrame) (month_n week_n : Z)
    (seed_examples : list string) : M DataFrame :=
  let m_cols := extract_people_fields manual_df in
  let s_cols := extract_people_fields sn_df in
  do m_mask <- lift (get_week_filter_mask (Some manual_df) (week_col m_cols) (date_col m_cols) month_n week_n);
  do s_mask <- lift (get_week_filter_mask (Some sn_df) (week_col s_cols) (date_col s_cols) month_n week_n);
  let mdf := match df_len manual_df with O => manual_df | _ => select_rows manual_df m_mask end in
  let sdf := match df_len sn_df with O => sn_df | _ => select_rows sn_df s_mask end in
  let manual_names := employee_keys mdf (name_col m_cols) in
  let sn_names := employee_keys sdf (name_col s_cols) in
  let all_names := sorted_set (manual_names ++ sn_names) in
  let agg_manual := per_employee mdf m_cols in
  let agg_sn := per_employee sdf s_cols in
  do records <- for_each (employee_record depth agg_manual agg_sn month_n week_n seed_examples) all_names;
  ret (tracker_frame records).

(** * Notions used to state the properties *)

(** The rows of a filtered table that [per_employee] reads for the key
    [name]. *)
Definition records_of (df : DataFrame) (cols : Cols) (name : string) : list (list pyval) :=
  match name_col cols with
  | Some name_c =>
      if df_empty df || negb (label_truthy name_c) then []
      else filter (λ row, build_employee_key (row_get df row name_c) = name) (rows df)
  | None => []
  end.

(** The text of the cells of column [c] that count as present. *)
Definition cell_texts (df : DataFrame) (c : option label) (recs : list (list pyval)) : list string :=
  omap (λ row, let v := cell_or_none df row c in
               if truthy v then Some (py_str v) else None) recs.

(** The cells of column [c] other than [None]. *)
Definition cell_values (df : DataFrame) (c : option label) (recs : list (list pyval)) : list pyval :=
  filter (λ v, is_none v = false) (map (λ row, cell_or_none df row c) recs).

(** The two tables after the week filter. *)
Definition filtered (df : DataFrame) (month_n week_n : Z) : result DataFrame :=
  let cols := extract_people_fields df in
  match get_week_filter_mask (Some df) (week_col cols) (date_col cols) month_n week_n with
  | Raise e => Raise e
  | Ok mask => Ok (match df_len df with O => df | _ => select_rows df mask end)
  end.

(** Reading a field of an output row by its column name. *)
Definition field (out : DataFrame) (row : list pyval) (name : string) : pyval :=
  row_get out row (LStr name).

(** Modelled from the spec: [build_employee_key] is imported by
    [tracker] from [data_handler], where the sources do not define it.
    The spec says that employee identity keys are case/whitespace
    normalized for matching across sources: a name is trimmed and put in
    lower case, a missing name has the empty key. *)
Definition build_employee_key_spec (name : pyval) : string :=
  match _norm name with
  | Some t => lower t
  | None => ""
  end.

(** How often [x] occurs in [l]. *)
Definition occurrences (x : string) (l : list string) : nat :=
  length (filter (λ y, y = x) l).

(** The count a [Counter] holds for [x]; 0 when [x] is not a key. *)
Fixpoint counter_get (c : list (string * nat)) (x : string) : nat :=
  match c with
  | [] => 0%nat
  | (k, n) :: c' => if String.eqb k x then n else counter_get c' x
  end.

(** An aggregate with the cells of further records appended. *)
Definition extend_agg (df : DataFrame) (cols : Cols) (a : Agg) (recs : list (list pyval)) : Agg :=
  {| team_leads := team_leads a ++ cell_texts df (tl_col cols) recs;
     assessors := assessors a ++ cell_texts df (qa_col cols) recs;
     comments := comments a ++ cell_texts df (comments_col cols) recs;
     sn_ratings := sn_ratings a ++ cell_values df (sn_rating_col cols) recs;
     manual_grades := manual_grades a ++ cell_values df (manual_grade_col cols) recs |}.

(** The record the loop body builds for [name], given the month
    abbreviation and the text received from the service. *)
Definition row_of (agg_manual agg_sn : gmap string Agg) (mon : string) (week_n : Z)
    (name areas_text : string) : TrackerRow :=
  let team_leads_all := team_leads (agg_of agg_manual name) ++ team_leads (agg_of agg_sn name) in
  let assessors_all := assessors (agg_of agg_manual name) ++ assessors (agg_of agg_sn name) in
  let sn_numeric := omap to_numeric (sn_ratings (agg_of agg_sn name)) in
  let manual_grades_series := manual_grades (agg_of agg_manual name) in
  {| r_employee_name := name;
     r_emp_id := "";
     r_organization := "";
     r_team_lead :=
       default "" (match team_leads_all with
                   | [] => None
                   | _ => most_common1 (Counter (normalized team_leads_all))
                   end);
     r_status := "";
     r_quality_assessors := join ", " (sorted_set (normalized assessors_all));
     r_week := mon +:+ " - Week " +:+ pretty week_n;
     r_sn_count := count_cell (length sn_numeric);
     r_sn_avg := avg_cell (match sn_numeric with
                           | [] => None
                           | _ => Some (round2 (mean sn_numeric))
                           end);
     r_manual_count := count_cell (length manual_grades_series);
     r_manual_avg := avg_cell (match length manual_grades_series with
                               | O => None
                               | _ => average_of_grades manual_grades_series
                               end);
     r_areas := areas_text |}.

(** The comments collected for [name] from both tables. *)
Definition comments_of (agg_manual agg_sn : gmap string Agg) (name : string) : list string :=
  comments (agg_of agg_manual name) ++ comments (agg_of agg_sn name).

(** [x] is a most frequent element of [l]. *)
Definition most_frequent (x : string) (l : list string) : Prop :=
  x ∈ l ∧ ∀ y, (occurrences y l ≤ occurrences x l)%nat.

(** [parts] lists the distinct elements of [l] in increasing order. *)
Definition sorted_distinct (parts l : list string) : Prop :=
  StronglySorted String.le parts ∧ NoDup parts ∧ ∀ v, v ∈ parts ↔ v ∈ l.

(** A cell that holds a number or the empty text. *)
Definition number_or_blank (v : pyval) : Prop :=
  match v with
  | VFloat _ => True
  | VStr s => s = ""
  | _ => False
  end.

(** The rounded mean of a list of numbers as an output cell; the empty
    text when there is no number. *)
Definition mean_cell (nums : list Q) : pyval :=
  match nums with
  | [] => VStr ""
  | _ => VFloat (round2 (mean nums))
  end.

(** The normalized team-lead values of the records of [name] in both
    filtered tables, manual table first. *)
Definition lead_values (mdf sdf : DataFrame) (m_cols s_cols : Cols) (name : string) : list string :=
  normalized (cell_texts mdf (tl_col m_cols) (records_of mdf m_cols name) ++
              cell_texts sdf (tl_col s_cols) (records_of sdf s_cols name)).

(** The normalized assessor values of the records of [name]. *)
Definition assessor_values (mdf sdf : DataFrame) (m_cols s_cols : Cols) (name : string) : list string :=
  normalized (cell_texts mdf (qa_col m_cols) (records_of mdf m_cols name) ++
              cell_texts sdf (qa_col s_cols) (records_of sdf s_cols name)).

(** The rating cells of the records of [name] in the ticketing table
    and the grade cells of its records in the manual table. *)
Definition sn_rating_cells (sdf : DataFrame) (s_cols : Cols) (name : string) : list pyval :=
  cell_values sdf (sn_rating_col s_cols) (records_of sdf s_cols name).

Definition manual_grade_cells (mdf : DataFrame) (m_cols : Cols) (name : string) : list pyval :=
  cell_values mdf (manual_grade_col m_cols) (records_of mdf m_cols name).

(** Whether the week filter keeps a row: by its week cell when a week
    column is resolved, else by its date when a date column is resolved,
    else always. *)
Definition row_in_week (df : DataFrame) (month_n week_n : Z) (row : list pyval) : bool :=
  let cols := extract_people_fields df in
  match usable_col (week_col cols) df with
  | Some wc => week_cell_matches week_n (row_get df row wc)
  | None =>
      match usable_col (date_col cols) df with
      | Some dc =>
          let d := to_date (row_get df row dc) in
          bool_decide (month_of d = Some month_n) &&
          bool_decide (match d with DDate x => Some (week_of_month x) | _ => None end
                       = Some week_n)
      | None => true
      end
  end.

(** The date cells the week filter reads can be read as dates: no cell
    of the date column parses to NaT when the filter goes by dates. *)
Definition dates_readable (df : DataFrame) : Prop :=
  let cols := extract_people_fields df in
  df_empty df = false →
  usable_col (week_col cols) df = None →
  ∀ dc v, usable_col (date_col cols) df = Some dc →
          v ∈ column_values df dc → to_date v ≠ DNaT.

(** The stored key index points into the keys of the environment. *)
Definition valid_session (s : Session) : Prop :=
  get_api_keys_from_env = [] ∨ (groq_key_index s < length get_api_keys_from_env)%nat.

(** No probe of a key is ever answered with a rate-limit message. *)
Definition probes_never_rate_limited : Prop :=
  ∀ t key msg, models_list t key = Some msg → is_rate_limit_error msg = false.

(** The only exceptions that leave the client are those of the
    interpreter, never one raised by the service. *)
Definition not_from_service (e : exn) : Prop :=
  e = IndexError ∨ e = RecursionError.

(** What an acquisition can end with: a client whose key is the one
    under the stored index, no client, or an exception of the
    interpreter. *)
Definition acquired (r : result (option string)) (s : Session) : Prop :=
  match r with
  | Ok (Some key) => get_api_keys_from_env !! groq_key_index s = Some key
  | Ok None => True
  | Raise e => not_from_service e
  end.

(** The session after the current key has been marked as limited
    following a failed remote call. *)
Definition marked_current (s : Session) : Session :=
  MkSession (groq_key_index s) (<[groq_key_index s := true]> (groq_key_limits s)) (S (clock s)).

(** Text made of whitespace only. *)
Fixpoint all_space (s : string) : bool :=
  match s with
  | EmptyString => true
  | String c s' => py_isspace c && all_space s'
  end.

(** Two texts of the same length that agree character by character up
    to the case of letters. *)
Fixpoint same_letters (a b : string) : Prop :=
  match a, b with
  | EmptyString, EmptyString => True
  | String c a', String d b' => lower_char c = lower_char d ∧ same_letters a' b'
  | _, _ => False
  end.

(** Two names that differ only in letter case or surrounding
    whitespace: each is a core with whitespace around it, and the cores
    agree up to case. *)
Definition same_name (a b : string) : Prop :=
  ∃ l1 c1 r1 l2 c2 r2,
    a = l1 +:+ c1 +:+ r1 ∧ b = l2 +:+ c2 +:+ r2 ∧
    all_space l1 = true ∧ all_space r1 = true ∧
    all_space l2 = true ∧ all_space r2 = true ∧
    same_letters c1 c2.

(** The reading of "a row belongs to the target week" under which a
    filter would keep rows of the target week only: the week cell of the
    row holds the target week or, without a week column, its date falls
    in the target month and week; a row of a table with neither column
    is not known to belong to any week. *)
Definition belongs_to_target_week (df : DataFrame) (month_n week_n : Z)
    (row : list pyval) : bool :=
  let cols := extract_people_fields df in
  match usable_col (week_col cols) df, usable_col (date_col cols) df with
  | None, None => false
  | _, _ => row_in_week df month_n week_n row
  end.

(** The claim's words for the values of a column among the records of
    an employee: the normalized value [_norm] gives to each cell, a cell
    without a value or with an empty one left out. *)
Definition normalized_cells (df : DataFrame) (c : option label)
    (recs : list (list pyval)) : list string :=
  omap (λ row, match _norm (cell_or_none df row c) with
               | Some t => if String.eqb t "" then None else Some t
               | None => None
               end) recs.

(** * Sample data *)

Definition sample_repr_float (q : Q) : string :=
  pretty (Qnum q) +:+ "/" +:+ pretty (Zpos (Qden q)).

Definition sample_repr_stamp (d : date) : string :=
  pretty (year d) +:+ "-" +:+ pretty (month d) +:+ "-" +:+ pretty (day d).

Definition all_digits (s : string) : bool :=
  negb (String.eqb s "") && String.eqb (string_filter is_digit s) s.

Definition sample_parse_number (s : string) : option Q :=
  if all_digits (strip s) then Some (inject_Z (digits_value (strip s))) else None.

Definition sample_to_datetime (v : pyval) : option (option date) := Some None.

Definition sample_getenv (name : string) : string :=
  if String.eqb name "GROQ_API_KEY_1" then "key-a"
  else if String.eqb name "GROQ_API_KEY_2" then " key-b "
  else if String.eqb name "GROQ_API_KEY_3" then "key-c"
  else if String.eqb name "GROQ_API_KEY_4" then "key-a"
  else "".

Definition sample_manual : DataFrame :=
  Frame [LStr "Employee Name"; LStr "Team Lead"; LStr "Assessor"; LStr "Week"; LStr "Grade"; LStr "Comments"]
        [[VStr "Ann Lee"; VStr "Bob"; VStr "Zed"; VStr "Week 2"; VStr "A"; VStr "Probe more"];
         [VStr " ann lee "; VStr "Bob "; VStr "Amy"; VInt 2; VStr "B"; VNaN];
         [VStr "Cy"; VStr "Dee"; VStr "Amy"; VInt 3; VInt 4; VStr "ok"];
         [VStr "Cy"; VStr "Eve"; VNone; VInt 2; VInt 4; VStr ""]].

Definition sample_sn : DataFrame :=
  Frame [LStr "Analyst Name"; LStr "Manager"; LStr "Week"; LStr "Rating"]
        [[VStr "ANN LEE"; VStr "Carl"; VInt 2; VInt 4];
         [VStr "Ann Lee"; VStr "Bob"; VInt 2; VStr "5"];
         [VStr "Cy"; VStr "Eve"; VInt 2; VStr "n/a"]].

Definition sample_models_ok : nat → string → option string := λ _ _, None.

Definition sample_models_first_limited : nat → string → option string :=
  λ t _, if (t =? 0)%nat then Some "Error code: 429 - Too Many Requests" else None.

Definition sample_chat_reply : nat → string → string → string → reply :=
  λ _ _ _ _, Replied [Some " Here are the areas to improve: probe before troubleshooting. "].

Definition sample_chat_limited : nat → string → string → string → reply :=
  λ _ _ _ _, Failed "Rate limit reached for model".

Definition sample_session : Session := MkSession 0 ∅ 0.

Definition sample_session_limited : Session := MkSession 0 {[0%nat := true]} 7.

(** A table with no week or date column; the week is written under a
    header that is not among the candidates. *)
Definition sample_no_week : DataFrame :=
  Frame [LStr "Employee Name"; LStr "Period"] [[VStr "Ann"; VStr "Week 1"]].

Definition sample_empty : DataFrame := Frame [] [].

(** A table with one row and no column. *)
Definition sample_columnless : DataFrame := Frame [] [[]].

Definition sample_manual_no_lead : DataFrame :=
  Frame [LStr "Employee Name"; LStr "Grade"] [[VStr "Ann"; VStr "A"]].

Definition sample_sn_with_lead : DataFrame :=
  Frame [LStr "Analyst Name"; LStr "Team Lead"; LStr "Rating"]
        [[VStr "Ann"; VStr "Bob"; VInt 4]].

(** The tracker of [sample_manual] and [sample_sn] for week 2 of May. *)
Definition sample_tracker : DataFrame :=
  Frame (map LStr col_order)
        [[VStr "ann lee"; VStr ""; VStr ""; VStr "Bob"; VStr "";
          VStr "ANN LEE, Amy, Ann Lee, Zed"; VStr "May - Week 2";
          VInt 2; VFloat (9 # 2); VInt 2; VFloat (9 # 2);
          VStr "probe before troubleshooting."];
         [VStr "cy"; VStr ""; VStr ""; VStr "Eve"; VStr "";
          VStr "Cy"; VStr "May - Week 2";
          VStr ""; VStr ""; VInt 1; VFloat 4; VStr ""]].

(** The tracker of [sample_no_week] and [sample_empty]. *)
Definition sample_tracker_no_week : DataFrame :=
  Frame (map LStr col_order)
        [[VStr "ann"; VStr ""; VStr ""; VStr ""; VStr ""; VStr ""; VStr "May - Week 2";
          VStr ""; VStr ""; VStr ""; VStr ""; VStr ""]].

(** The tracker of [sample_manual_no_lead] and [sample_sn_with_lead]. *)
Definition sample_tracker_lead : DataFrame :=
  Frame (map LStr col_order)
        [[VStr "ann"; VStr ""; VStr ""; VStr "Bob"; VStr ""; VStr "Ann"; VStr "May - Week 2";
          VInt 1; VFloat 4; VInt 1; VFloat 5; VStr ""]].

(** A manual table in which two of the three records of an employee
    have a blank team-lead cell, read as NaN. *)
Definition sample_blank_leads : DataFrame :=
  Frame [LStr "Employee Name"; LStr "Team Lead"; LStr "Assessor"]
        [[VStr "Ann"; VNaN; VStr "Zed"];
         [VStr "Ann"; VNaN; VNaN];
         [VStr "Ann"; VStr "Bob"; VStr "Amy"]].

(** The tracker of [sample_blank_leads] and [sample_empty]. *)
Definition sample_tracker_blank : DataFrame :=
  Frame (map LStr col_order)
        [[VStr "ann"; VStr ""; VStr ""; VStr "nan"; VStr ""; VStr "Amy, Zed, nan";
          VStr "May - Week 2"; VStr ""; VStr ""; VStr ""; VStr ""; VStr ""]].

(** A table filtered by its date column: Monday 6 May 2024 opens the
    second week of the month. *)
Definition sample_dated : DataFrame :=
  Frame [LStr "Name"; LStr "Assessed On"]
        [[VStr "Ann"; VStamp (Date 2024 5 6)];
         [VStr "Bob"; VStamp (Date 2024 5 5)];
         [VStr "Cy"; VStamp (Date 2024 6 4)];
         [VStr "Dee"; VNaN];
         [VStr "Eve"; VStamp (Date 2024 5 12)]].

(** The same with a date cell that cannot be parsed. *)
Definition sample_undated : DataFrame :=
  Frame [LStr "Name"; LStr "Assessed On"]
        [[VStr "Ann"; VStamp (Date 2024 5 6)];
         [VStr "Bob"; VStr "to be confirmed"]].

(** A service that answers every probe of a key with a rate-limit
    message. *)
Definition sample_models_limited : nat → string → option string :=
  λ _ _, Some "429 Too Many Requests".

(** An environment without keys. *)
Definition sample_no_env (name : string) : string := "".

(** A stored index left over from a longer list of keys, and a session
    in which each of the three keys is marked. *)
Definition sample_session_stale : Session := MkSession 5 ∅ 0.

Definition sample_session_all_limited : Session :=
  MkSession 1 (<[2%nat := true]> (<[1%nat := true]> {[0%nat := true]})) 4.

(** A service that answers a list of messages with no choice at all. *)
Definition sample_create_none : nat → string → list (gmap string string) → Z → reply :=
  λ _ _ _ _, Replied [].

(** A manual table whose only name is blank, and its tracker with
    [sample_empty]. *)
Definition sample_blank_name : DataFrame :=
  Frame [LStr "Name"; LStr "Team Lead"; LStr "Grade"] [[VStr "  "; VStr "Bob"; VStr "A"]].

Definition sample_tracker_blank_name : DataFrame :=
  Frame (map LStr col_order)
        [[VStr ""; VStr ""; VStr ""; VStr ""; VStr ""; VStr ""; VStr "May - Week 2";
          VStr ""; VStr ""; VStr ""; VStr ""; VStr ""]].

(** * Properties *)

(** ** The definitions on sample inputs *)

Example pick_demo :
  pick_first_available_column
    (Some (Frame [LStr "  employee NAME "; LStr "Team-Lead"] [[VStr "a"; VStr "b"]]))
    ["Team Lead"; "Employee Name"] = Some (LStr "  employee NAME ").
Proof. vm_compute. reflexivity. Qed.

Example round2_demo :
  round2 (10 # 3) = (333 # 100)%Q ∧ round2 (1 # 8) = (3 # 25)%Q ∧ round2 (3 # 8) = (19 # 50)%Q.
Proof. vm_compute. auto. Qed.

Example week_of_month_demo :
  weekday (Date 2024 5 1) = 2%Z ∧ week_of_month (Date 2024 5 5) = 1%Z
  ∧ week_of_month (Date 2024 5 6) = 2%Z ∧ week_of_month (Date 2024 5 31) = 5%Z.
Proof. vm_compute. auto. Qed.

Example clean_output_demo :
  clean_output "Based on the raw comments, probe more.  " = "probe more.".
Proof. vm_compute. reflexivity. Qed.

Example is_rate_limit_error_demo :
  is_rate_limit_error "Error code: 429 - Too Many Requests" = true
  ∧ is_rate_limit_error "Rate Limit reached for model" = true
  ∧ is_rate_limit_error "Invalid API Key" = false.
Proof. vm_compute. auto. Qed.

(** ** Column resolution *)

Section setdefault_fold.
Variable f : label → string.

Let fill (m : gmap string label) (cols : list label) : gmap string label :=
  foldl (λ m c, setdefault (f c) c m) m cols.

Lemma setdefault_lookup k v (m : gmap string label) k' :
  setdefault k v m !! k' =
    match m !! k' with
    | Some w => Some w
    | None => if decide (k = k') then Some v else None
    end.
Proof.
  unfold setdefault. destruct (m !! k) eqn:Hk.
  - destruct (m !! k') eqn:Hk'; [done|]. case_decide; congruence.
  - destruct (decide (k = k')) as [->|Hne].
    + by rewrite lookup_insert_eq, Hk.
    + rewrite lookup_insert_ne by done. by destruct (m !! k').
Qed.

Lemma fill_kept cols (m : gmap string label) k v :
  m !! k = Some v → fill m cols !! k = Some v.
Proof.
  revert m. induction cols as [|c cols IH]; intros m Hm; [done|].
  simpl. apply IH. by rewrite setdefault_lookup, Hm.
Qed.

Lemma fill_miss cols (m : gmap string label) k :
  m !! k = None → (∀ c, c ∈ cols → f c ≠ k) → fill m cols !! k = None.
Proof.
  revert m. induction cols as [|c cols IH]; intros m Hm Hall; [done|].
  simpl. apply IH.
  - rewrite setdefault_lookup, Hm. case_decide; [|done].
    exfalso. eapply Hall; [left|done].
  - intros c' Hc'. apply Hall. by right.
Qed.

Lemma fill_hit cpre col cpost (m : gmap string label) k :
  m !! k = None → f col = k → (∀ c, c ∈ cpre → f c ≠ k) →
  fill m (cpre ++ col :: cpost) !! k = Some col.
Proof.
  revert m. induction cpre as [|c cpre IH]; intros m Hm Hcol Hpre.
  - simpl. apply fill_kept. rewrite setdefault_lookup, Hm.
    by rewrite decide_True.
  - simpl. apply IH; [|done|].
    + rewrite setdefault_lookup, Hm. case_decide; [|done].
      exfalso. eapply Hpre; [left|done].
    + intros c' Hc'. apply Hpre. by right.
Qed.

Lemma fill_elem cols (m : gmap string label) k v :
  fill m cols !! k = Some v → m !! k = Some v ∨ (v ∈ cols ∧ f v = k).
Proof.
  revert m. induction cols as [|c cols IH]; intros m Hv; [by left|].
  simpl in Hv. apply IH in Hv as [Hv|[Hin Hf]].
  - rewrite setdefault_lookup in Hv. destruct (m !! k); [by left|].
    case_decide; simplify_eq. right. split; [left|done].
  - right. split; [by right|done].
Qed.
End setdefault_fold.

Lemma column_maps_split cols :
  column_maps cols =
    (foldl (λ m c, setdefault (norm (col_to_text c)) c m) ∅ cols,
     foldl (λ m c, setdefault (norm_simple (col_to_text c)) c m) ∅ cols).
Proof.
  unfold column_maps. generalize (∅ : gmap string label) at 1 3.
  generalize (∅ : gmap string label).
  induction cols as [|c cols IH]; intros m2 m1; [done|].
  simpl. apply IH.
Qed.

Lemma first_candidate_hit key (m : gmap string label) pre cand post v :
  (∀ c, c ∈ pre → m !! key c = None) → m !! key cand = Some v →
  first_candidate key m (pre ++ cand :: post) = Some v.
Proof.
  intros Hpre Hcand. induction pre as [|c pre IH]; simpl.
  - by rewrite Hcand.
  - rewrite (Hpre c) by left. apply IH. intros c' Hc'. apply Hpre. by right.
Qed.

Lemma first_candidate_none key (m : gmap string label) cands :
  (∀ c, c ∈ cands → m !! key c = None) → first_candidate key m cands = None.
Proof.
  induction cands as [|c cands IH]; intros Hall; [done|].
  simpl. rewrite (Hall c) by left. apply IH. intros c' Hc'. apply Hall. by right.
Qed.

Lemma first_candidate_some key (m : gmap string label) cands v :
  first_candidate key m cands = Some v → ∃ c, c ∈ cands ∧ m !! key c = Some v.
Proof.
  induction cands as [|c cands IH]; [done|]. simpl.
  destruct (m !! key c) eqn:Hc.
  - intros [= ->]. exists c. split; [left|done].
  - intros [c' [Hin Hv]]%IH. exists c'. split; [by right|done].
Qed.

(** A candidate and a column agree under a normalisation. *)
Definition agree (key : string → string) (cand : string) (col : label) : Prop :=
  key (col_to_text col) = key cand.

(** [col] is the column chosen by the first loop that has a hit: it is
    the first column agreeing with the first candidate that agrees with
    any column. *)
Definition first_agreeing (key : string → string) (cols : list label)
    (candidates : list string) (col : label) : Prop :=
  ∃ pre cand post cpre cpost,
    candidates = pre ++ cand :: post ∧
    (∀ c col', c ∈ pre → col' ∈ cols → ¬ agree key c col') ∧
    cols = cpre ++ col :: cpost ∧
    agree key cand col ∧
    (∀ col', col' ∈ cpre → ¬ agree key cand col').

Lemma first_candidate_agreeing key cols candidates col :
  first_agreeing key cols candidates col →
  first_candidate key (foldl (λ m c, setdefault (key (col_to_text c)) c m) ∅ cols) candidates
    = Some col.
Proof.
  intros (pre & cand & post & cpre & cpost & -> & Hpre & -> & Hcol & Hcpre).
  apply first_candidate_hit.
  - intros c Hc. apply (fill_miss (λ c, key (col_to_text c))); [done|].
    intros col' Hcol'. by apply Hpre.
  - by apply (fill_hit (λ c, key (col_to_text c))).
Qed.

(** C7. [pick_first_available_column] gives [None] for a missing or
    empty frame. On any other frame, if some candidate agrees with a
    column after lower-casing and trimming, the result is the first
    column agreeing with the first such candidate; if no candidate agrees
    with a column that way, the same rule is applied to the names with
    everything but the letters a-z removed. Whatever is returned is a
    column of the frame. *)
Theorem pick_first_available_column_spec :
  (∀ candidates, pick_first_available_column None candidates = None) ∧
  (∀ d candidates, df_empty d = true →
     pick_first_available_column (Some d) candidates = None) ∧
  (∀ d candidates col, df_empty d = false →
     first_agreeing norm (columns d) candidates col →
     pick_first_available_column (Some d) candidates = Some col) ∧
  (∀ d candidates col, df_empty d = false →
     (∀ c col', c ∈ candidates → col' ∈ columns d → ¬ agree norm c col') →
     first_agreeing norm_simple (columns d) candidates col →
     pick_first_available_column (Some d) candidates = Some col) ∧
  (∀ d candidates, df_empty d = false →
     (∀ c col', c ∈ candidates → col' ∈ columns d →
        ¬ agree norm c col' ∧ ¬ agree norm_simple c col') →
     pick_first_available_column (Some d) candidates = None) ∧
  (∀ df candidates col, pick_first_available_column df candidates = Some col →
     ∃ d, df = Some d ∧ col ∈ columns d).
Proof.
  repeat split.
  - intros d candidates He. unfold pick_first_available_column. by rewrite He.
  - intros d candidates col He Hfirst. unfold pick_first_available_column.
    rewrite He, column_maps_split. simpl.
    by rewrite (first_candidate_agreeing norm _ _ col Hfirst).
  - intros d candidates col He Hnone Hfirst. unfold pick_first_available_column.
    rewrite He, column_maps_split. simpl.
    rewrite (first_candidate_none norm).
    + by apply (first_candidate_agreeing norm_simple).
    + intros c Hc. apply (fill_miss (λ c, norm (col_to_text c))); [done|].
      intros col' Hcol'. by apply Hnone.
  - intros d candidates He Hnone. unfold pick_first_available_column.
    rewrite He, column_maps_split. simpl.
    rewrite (first_candidate_none norm), (first_candidate_none norm_simple); [done| |].
    + intros c Hc. apply (fill_miss (λ c, norm_simple (col_to_text c))); [done|].
      intros col' Hcol'. by apply Hnone.
    + intros c Hc. apply (fill_miss (λ c, norm (col_to_text c))); [done|].
      intros col' Hcol'. by apply Hnone.
  - intros [d|] candidates col; [|done]. unfold pick_first_available_column.
    destruct (df_empty d); [done|]. rewrite column_maps_split. simpl.
    intros Hpick. exists d. split; [done|].
    destruct (first_candidate norm _ candidates) eqn:H1.
    + simplify_eq. apply first_candidate_some in H1 as (c & _ & Hc).
      apply (fill_elem (λ c, norm (col_to_text c))) in Hc as [Hc|[Hc _]]; [done|done].
    + apply first_candidate_some in Hpick as (c & _ & Hc).
      apply (fill_elem (λ c, norm_simple (col_to_text c))) in Hc as [Hc|[Hc _]]; [done|done].
Qed.

(** ** Grade averages *)

Lemma omap_id_map {A B} (f : A → option B) (l : list A) :
  omap id (map f l) = omap f l.
Proof. induction l as [|x l IH]; csimpl; [done|]. rewrite IH. by destruct (f x). Qed.

Lemma omap_nil_iff {A B} (f : A → option B) (l : list A) :
  omap f l = [] ↔ ∀ x, x ∈ l → f x = None.
Proof.
  induction l as [|x l IH]; csimpl.
  - split; [|done]. intros _ y Hy. inversion Hy.
  - destruct (f x) eqn:Hx; csimpl.
    + split; [done|]. intros Hall. specialize (Hall x (list_elem_of_here _ _)). congruence.
    + rewrite IH. split.
      * intros Hall y Hy. inversion Hy; subst; [done|]. by apply Hall.
      * intros Hall y Hy. apply Hall. by right.
Qed.

Lemma any_numeric_iff (series : list pyval) :
  existsb (λ x, bool_decide (is_Some x)) (map to_numeric series) = true
  ↔ ∃ v, v ∈ series ∧ is_Some (to_numeric v).
Proof.
  rewrite existsb_exists. split.
  - intros (x & Hin & Hx). apply in_map_iff in Hin as (v & <- & Hv).
    exists v. split; [by apply list_elem_of_In|]. by apply bool_decide_eq_true in Hx.
  - intros (v & Hin & Hv). exists (to_numeric v). split.
    + apply in_map. by apply list_elem_of_In.
    + by apply bool_decide_eq_true.
Qed.

Lemma omap_filter_is_Some {A B} (f : A → option B) (l : list A) :
  omap f (filter (λ v, is_Some (f v)) l) = omap f l.
Proof.
  induction l as [|x l IH]; [done|].
  rewrite filter_cons. destruct (decide (is_Some (f x))) as [[y Hy]|Hn]; csimpl.
  - by rewrite Hy, IH.
  - rewrite IH. destruct (f x) eqn:Hx; [|done]. exfalso. apply Hn. by eexists.
Qed.

Lemma assoc_get_elem {A} k (m : list (string * A)) v :
  assoc_get k m = Some v → v ∈ m.*2.
Proof.
  induction m as [|[k' v'] m IH]; simpl; [done|].
  destruct (String.eqb k' k).
  - intros [= ->]. left.
  - intros Hv. right. by apply IH.
Qed.

Lemma average_of_grades_numeric (l : list pyval) :
  (∃ v, v ∈ l ∧ is_Some (to_numeric v)) →
  average_of_grades l = Some (round2 (mean (omap to_numeric l))).
Proof.
  intros Hex. unfold average_of_grades.
  rewrite (proj2 (any_numeric_iff l) Hex), omap_id_map.
  destruct (omap to_numeric l) eqn:Hvals; [|done].
  destruct Hex as (v & Hin & [x Hx]).
  rewrite (proj1 (omap_nil_iff _ _) Hvals v Hin) in Hx. done.
Qed.

Lemma average_of_grades_letters (l : list pyval) :
  (∀ v, v ∈ l → to_numeric v = None) →
  average_of_grades l =
    match omap letter_grade_to_score l with
    | [] => None
    | scores => Some (round2 (mean scores))
    end.
Proof.
  intros Hall. unfold average_of_grades.
  destruct (existsb _ _) eqn:Hany.
  - apply any_numeric_iff in Hany as (v & Hin & [x Hx]).
    rewrite (Hall v Hin) in Hx. done.
  - by destruct (omap letter_grade_to_score l).
Qed.

Lemma average_of_grades_cases (series : list pyval) :
  average_of_grades series =
    match omap to_numeric series with
    | [] => match omap letter_grade_to_score series with
            | [] => None
            | scores => Some (round2 (mean scores))
            end
    | nums => Some (round2 (mean nums))
    end.
Proof.
  destruct (omap to_numeric series) as [|x nums] eqn:Hn.
  - apply average_of_grades_letters. by apply omap_nil_iff.
  - assert (Hx : x ∈ omap to_numeric series) by (rewrite Hn; left).
    apply list_elem_of_omap in Hx as (v & Hv & Hvx).
    rewrite average_of_grades_numeric, Hn; [done|].
    exists v. split; [done|]. by eexists.
Qed.

(** C10. If some entry of the series is a number, the average is the
    rounded mean of the numeric entries alone: it is the average of the
    series with every other entry, letter grades included, taken out.
    If no entry is a number, it is the rounded mean of the scores of the
    letter grades. It is [None] exactly when no entry is a number or a
    letter grade of the scale. *)
Theorem average_of_grades_spec (series : list pyval) :
  ((∃ v, v ∈ series ∧ is_Some (to_numeric v)) →
     average_of_grades series = Some (round2 (mean (omap to_numeric series))) ∧
     average_of_grades series =
       average_of_grades (filter (λ v, is_Some (to_numeric v)) series)) ∧
  ((∀ v, v ∈ series → to_numeric v = None) →
     average_of_grades series =
       match omap letter_grade_to_score series with
       | [] => None
       | scores => Some (round2 (mean scores))
       end) ∧
  (average_of_grades series = None ↔
     ∀ v, v ∈ series → to_numeric v = None ∧ letter_grade_to_score v = None).
Proof.
  split; [|split].
  - intros Hex. split; [by apply average_of_grades_numeric|].
    rewrite (average_of_grades_numeric series Hex), average_of_grades_numeric.
    + by rewrite omap_filter_is_Some.
    + destruct Hex as (v & Hin & Hv). exists v. split; [|done].
      by apply list_elem_of_filter.
  - apply average_of_grades_letters.
  - rewrite average_of_grades_cases. split.
    + intros Hnone v Hin.
      destruct (omap to_numeric series) eqn:Hn; [|done].
      destruct (omap letter_grade_to_score series) eqn:Hm; [|done].
      split; [by apply (proj1 (omap_nil_iff _ _) Hn)|by apply (proj1 (omap_nil_iff _ _) Hm)].
    + intros Hall.
      rewrite (proj2 (omap_nil_iff to_numeric series)) by (intros v Hv; by apply Hall).
      by rewrite (proj2 (omap_nil_iff letter_grade_to_score series)) by (intros v Hv; by apply Hall).
Qed.

(** ** Counting and the most common value *)

Lemma counter_add_get c x y :
  counter_get (counter_add x c) y =
    if decide (x = y) then S (counter_get c y) else counter_get c y.
Proof.
  induction c as [|[k n] c IH]; simpl.
  - destruct (String.eqb_spec x y); by case_decide.
  - destruct (String.eqb_spec k x) as [->|Hkx]; simpl.
    + destruct (String.eqb_spec x y); by case_decide.
    + destruct (String.eqb_spec k y) as [->|Hky]; [|done].
      by rewrite decide_False by congruence.
Qed.

Lemma counter_add_keys c x k :
  k ∈ (counter_add x c).*1 ↔ k = x ∨ k ∈ c.*1.
Proof.
  induction c as [|[k' n] c IH]; simpl.
  - rewrite list_elem_of_singleton, elem_of_nil. naive_solver.
  - destruct (String.eqb_spec k' x) as [->|Hne]; simpl.
    + rewrite !elem_of_cons. naive_solver.
    + rewrite !elem_of_cons, IH. naive_solver.
Qed.

Lemma counter_add_NoDup c x : NoDup c.*1 → NoDup (counter_add x c).*1.
Proof.
  induction c as [|[k n] c IH]; simpl; intros Hnd.
  - apply NoDup_singleton.
  - apply NoDup_cons in Hnd as [Hk Hnd].
    destruct (String.eqb_spec k x) as [->|Hne]; simpl.
    + by apply NoDup_cons.
    + apply NoDup_cons. split; [|by apply IH].
      rewrite counter_add_keys. naive_solver.
Qed.

Lemma counter_get_elem c k n :
  NoDup c.*1 → (k, n) ∈ c → counter_get c k = n.
Proof.
  induction c as [|[k' n'] c IH]; simpl; intros Hnd Hin; [inversion Hin|].
  apply NoDup_cons in Hnd as [Hk Hnd].
  apply elem_of_cons in Hin as [[= <- <-]|Hin].
  - by rewrite String.eqb_refl.
  - destruct (String.eqb_spec k' k) as [->|Hne]; [|by apply IH].
    exfalso. apply Hk. apply list_elem_of_fmap. by exists (k, n).
Qed.

Lemma counter_get_pos c k :
  (0 < counter_get c k)%nat → (k, counter_get c k) ∈ c.
Proof.
  induction c as [|[k' n'] c IH]; simpl; [lia|].
  destruct (String.eqb_spec k' k) as [->|Hne]; intros Hpos; [left|].
  right. by apply IH.
Qed.

Lemma occurrences_cons x y l :
  occurrences x (y :: l) = if decide (y = x) then S (occurrences x l) else occurrences x l.
Proof. unfold occurrences. rewrite filter_cons. by case_decide. Qed.

Lemma occurrences_pos x l : (0 < occurrences x l)%nat ↔ x ∈ l.
Proof.
  induction l as [|y l IH]; [rewrite elem_of_nil; unfold occurrences; simpl; lia|].
  rewrite occurrences_cons, elem_of_cons. case_decide; [subst|]; naive_solver lia.
Qed.

Lemma Counter_fold c l y :
  counter_get (foldl (λ c x, counter_add x c) c l) y = (counter_get c y + occurrences y l)%nat.
Proof.
  revert c. induction l as [|x l IH]; intros c; simpl.
  - unfold occurrences. simpl. lia.
  - rewrite IH, counter_add_get, occurrences_cons. repeat case_decide; lia.
Qed.

Lemma Counter_get l y : counter_get (Counter l) y = occurrences y l.
Proof. unfold Counter. by rewrite Counter_fold. Qed.

Lemma Counter_NoDup l : NoDup (Counter l).*1.
Proof.
  unfold Counter. generalize (NoDup_nil_2 (A:=string)).
  change (@nil string) with ((@nil (string * nat)).*1).
  generalize (@nil (string * nat)).
  induction l as [|x l IH]; intros c Hc; simpl; [done|].
  apply IH. by apply counter_add_NoDup.
Qed.

Lemma Counter_keys l (c0 : list (string * nat)) k :
  k ∈ (foldl (λ c x, counter_add x c) c0 l).*1 → k ∈ c0.*1 ∨ k ∈ l.
Proof.
  revert c0. induction l as [|x l IH]; intros c0 Hk; [by left|].
  simpl in Hk. apply IH in Hk as [Hk|Hk]; [|by right; right].
  apply counter_add_keys in Hk as [->|Hk]; [right; left|by left].
Qed.

Lemma max_count_spec best c :
  max_count best c ∈ best :: c ∧
  ∀ e, e ∈ best :: c → (e.2 ≤ (max_count best c).2)%nat.
Proof.
  revert best. induction c as [|x c IH]; intros best; simpl.
  - split; [left|]. intros e ->%list_elem_of_singleton. lia.
  - destruct (Nat.ltb_spec best.2 x.2) as [Hlt|Hge].
    + destruct (IH x) as [Hin Hmax]. split; [by right|].
      intros e [->|He]%elem_of_cons; [|by apply Hmax].
      specialize (Hmax x (list_elem_of_here _ _)). lia.
    + destruct (IH best) as [Hin Hmax]. split.
      * apply elem_of_cons in Hin as [->|Hin]; [left|right; by right].
      * intros e [->|[->|He]%elem_of_cons]%elem_of_cons.
        -- apply Hmax. left.
        -- specialize (Hmax best (list_elem_of_here _ _)). lia.
        -- apply Hmax. by right.
Qed.

(** The value picked from a [Counter] occurs in the list and no value
    occurs more often; nothing is picked only from an empty list. *)
Lemma most_common1_spec (l : list string) :
  match most_common1 (Counter l) with
  | None => l = []
  | Some x => x ∈ l ∧ ∀ y, (occurrences y l ≤ occurrences x l)%nat
  end.
Proof.
  pose proof (Counter_NoDup l) as Hnd. pose proof (Counter_get l) as Hget.
  unfold most_common1. destruct (Counter l) as [|e c] eqn:HC.
  - destruct l as [|x l]; [done|]. exfalso.
    specialize (Hget x). simpl in Hget.
    assert (0 < occurrences x (x :: l))%nat by (apply occurrences_pos; left). lia.
  - destruct (max_count_spec e c) as [Hin Hmax].
    set (r := max_count e c) in *.
    assert (Hr : occurrences r.1 l = r.2).
    { rewrite <- Hget. apply counter_get_elem; [done|]. by destruct r. }
    assert (Hpos : ∀ k n, (k, n) ∈ e :: c → (0 < n)%nat).
    { intros k n Hk. rewrite <- (counter_get_elem _ _ _ Hnd Hk), Hget.
      destruct (occurrences k l) eqn:Hocc; [|lia]. exfalso.
      assert (Hk' : k ∈ (e :: c).*1) by (apply list_elem_of_fmap; by exists (k, n)).
      rewrite <- HC in Hk'.
      apply Counter_keys in Hk' as [Hk'|Hk']; [inversion Hk'|].
      apply occurrences_pos in Hk'. lia. }
    split.
    + apply occurrences_pos. rewrite Hr. apply (Hpos r.1). by destruct r.
    + intros y. rewrite Hr. destruct (occurrences y l) eqn:Hy; [lia|].
      rewrite <- Hy, <- Hget.
      apply (Hmax (y, counter_get (e :: c) y)).
      apply counter_get_pos. rewrite Hget. lia.
Qed.

(** ** Sorted sets of text *)

Lemma sorted_set_spec (xs : list string) :
  StronglySorted String.le (sorted_set xs) ∧ NoDup (sorted_set xs) ∧
  ∀ v, v ∈ sorted_set xs ↔ v ∈ xs.
Proof.
  unfold sorted_set. split; [|split].
  - apply StronglySorted_merge_sort; apply _.
  - rewrite merge_sort_Permutation. apply NoDup_remove_dups.
  - intros v. rewrite merge_sort_Permutation. apply elem_of_remove_dups.
Qed.

Lemma normalized_spec (xs : list string) (v : string) :
  v ∈ normalized xs ↔ ∃ x, x ∈ xs ∧ strip x = v ∧ v ≠ "".
Proof.
  unfold normalized. rewrite list_elem_of_omap. simpl. split.
  - intros (x & Hx & Hv). exists x. split; [done|].
    destruct (String.eqb_spec (strip x) ""); by simplify_eq.
  - intros (x & Hx & <- & Hne). exists x. split; [done|].
    by destruct (String.eqb_spec (strip x) "").
Qed.

(** ** Rounding *)

Lemma round_half_even_close (t : Q) :
  (Qabs (inject_Z (round_half_even t) - t) <= 1 # 2)%Q.
Proof.
  unfold round_half_even.
  pose proof (Qfloor_le t) as Hlo. pose proof (Qlt_floor t) as Hhi.
  rewrite inject_Z_plus in Hhi. change (inject_Z 1) with 1%Q in Hhi.
  apply Qabs_Qle_condition.
  destruct (Qcompare_spec (t - inject_Z (Qfloor t)) (1 # 2)) as [He|Hl|Hg].
  - destruct (Z.even (Qfloor t)).
    + split; lra.
    + rewrite inject_Z_plus. change (inject_Z 1) with 1%Q. split; lra.
  - split; lra.
  - rewrite inject_Z_plus. change (inject_Z 1) with 1%Q. split; lra.
Qed.

(** [round2 x] is a whole number of hundredths, at most half a hundredth
    away from [x]. *)
Lemma round2_spec (x : Q) :
  (∃ z : Z, round2 x == inject_Z z / 100)%Q ∧ (Qabs (round2 x - x) <= 1 # 200)%Q.
Proof.
  unfold round2. split.
  - exists (round_half_even (x * 100)). apply Qred_correct.
  - rewrite Qred_correct.
    pose proof (round_half_even_close (x * 100)) as H.
    apply Qabs_Qle_condition in H. apply Qabs_Qle_condition.
    destruct H as [H1 H2].
    set (r := inject_Z (round_half_even (x * 100))) in *.
    split.
    + setoid_replace (r / 100 - x)%Q with ((r - x * 100) / 100)%Q using relation Qeq by field.
      apply Qle_shift_div_l; [reflexivity|]. lra.
    + setoid_replace (r / 100 - x)%Q with ((r - x * 100) / 100)%Q using relation Qeq by field.
      apply Qle_shift_div_r; [reflexivity|]. lra.
Qed.

(** ** The per-employee dictionary *)

Lemma cell_texts_cons df c row recs :
  cell_texts df c (row :: recs) =
    (if truthy (cell_or_none df row c) then [py_str (cell_or_none df row c)] else [])
      ++ cell_texts df c recs.
Proof. unfold cell_texts. csimpl. by destruct (truthy _). Qed.

Lemma cell_values_cons df c row recs :
  cell_values df c (row :: recs) =
    (if is_none (cell_or_none df row c) then [] else [cell_or_none df row c])
      ++ cell_values df c recs.
Proof.
  unfold cell_values. simpl. rewrite filter_cons.
  destruct (is_none _) eqn:Hn; by case_decide.
Qed.

Lemma extend_agg_nil df cols a : extend_agg df cols a [] = a.
Proof. destruct a. unfold extend_agg. simpl. by rewrite !app_nil_r. Qed.

Lemma add_row_other df cols nc d row name :
  build_employee_key (row_get df row nc) ≠ name →
  agg_of (add_row df cols nc d row) name = agg_of d name.
Proof.
  intros Hne. unfold add_row.
  destruct (String.eqb_spec (build_employee_key (row_get df row nc)) ""); [done|].
  unfold agg_of. by rewrite lookup_insert_ne.
Qed.

Lemma add_row_same df cols nc d row name :
  name ≠ "" → build_employee_key (row_get df row nc) = name →
  agg_of (add_row df cols nc d row) name = extend_agg df cols (agg_of d name) [row].
Proof.
  intros Hne Hkey. unfold add_row. rewrite Hkey.
  destruct (String.eqb_spec name ""); [done|].
  unfold agg_of at 1. rewrite lookup_insert_eq. simpl.
  unfold extend_agg. rewrite !cell_texts_cons, !cell_values_cons.
  unfold cell_texts, cell_values. simpl. rewrite !app_nil_r.
  f_equal; try (by destruct (truthy _); rewrite ?app_nil_r);
    by destruct (is_none _); rewrite ?app_nil_r.
Qed.

Lemma extend_agg_app df cols a r1 r2 :
  extend_agg df cols (extend_agg df cols a r1) r2 = extend_agg df cols a (r1 ++ r2).
Proof.
  unfold extend_agg, cell_texts, cell_values. simpl.
  rewrite !omap_app, !map_app, !filter_app, <- !app_assoc. done.
Qed.

Lemma foldl_add_row df cols nc recs d name :
  name ≠ "" →
  agg_of (foldl (add_row df cols nc) d recs) name =
    extend_agg df cols (agg_of d name)
      (filter (λ row, build_employee_key (row_get df row nc) = name) recs).
Proof.
  intros Hne. revert d. induction recs as [|row recs IH]; intros d.
  - simpl. by rewrite extend_agg_nil.
  - simpl. rewrite IH, filter_cons. case_decide as Hkey.
    + rewrite (add_row_same _ _ _ _ _ _ Hne Hkey). by rewrite extend_agg_app.
    + by rewrite add_row_other.
Qed.

Lemma foldl_add_row_blank df cols nc recs d :
  agg_of (foldl (add_row df cols nc) d recs) "" = agg_of d "".
Proof.
  revert d. induction recs as [|row recs IH]; intros d; [done|].
  simpl. rewrite IH. unfold add_row.
  destruct (String.eqb_spec (build_employee_key (row_get df row nc)) "") as [|Hne]; [done|].
  unfold agg_of. by rewrite lookup_insert_ne.
Qed.

(** What [per_employee] holds under a key: for a non-empty key, the
    cells of the rows read for that key, in row order; nothing under
    the empty key. *)
Lemma per_employee_spec df cols name :
  agg_of (per_employee df cols) name =
    if decide (name = "") then empty_agg
    else extend_agg df cols empty_agg (records_of df cols name).
Proof.
  unfold per_employee, records_of.
  destruct (name_col cols) as [nc|].
  - destruct (df_empty df || negb (label_truthy nc)).
    + case_decide; [done|]. by rewrite extend_agg_nil.
    + case_decide as Hname.
      * subst. by rewrite foldl_add_row_blank.
      * by rewrite foldl_add_row.
  - case_decide; [done|]. by rewrite extend_agg_nil.
Qed.

(** ** Reading back a run of [generate_tracker] *)

Lemma for_each_inv {A B} (f : A → M B) (l : list A) s ys s' :
  for_each f l s = (Ok ys, s') →
  Forall2 (λ x y, ∃ s1 s2, f x s1 = (Ok y, s2)) l ys.
Proof.
  revert s ys. induction l as [|x l IH]; intros s ys; simpl.
  - unfold ret. intros [= <- <-]. constructor.
  - unfold bind at 1. destruct (f x s) as [[y|e] s1] eqn:Hx; [|done].
    unfold bind at 1. destruct (for_each f l s1) as [[ys'|e] s2] eqn:Hl; [|done].
    unfold ret. intros [= <- <-]. constructor; [by eauto|by eapply IH].
Qed.

Lemma employee_record_inv depth agg_manual agg_sn month_n week_n seed name s r s' :
  employee_record depth agg_manual agg_sn month_n week_n seed name s = (Ok r, s') →
  ∃ mon areas_text,
    month_abbr month_n = Some mon ∧
    synthesize_areas_to_improve depth (comments_of agg_manual agg_sn name) name seed s
      = (Ok areas_text, s') ∧
    r = row_of agg_manual agg_sn mon week_n name areas_text.
Proof.
  unfold employee_record, comments_of, bind.
  destruct (synthesize_areas_to_improve _ _ _ _ s) as [[areas|e] s1]; [|done].
  destruct (month_abbr month_n) as [mon|]; [|done].
  unfold ret. intros [= <- <-]. by exists mon, areas.
Qed.

Lemma generate_tracker_inv depth manual_df sn_df month_n week_n seed s out s' :
  generate_tracker depth manual_df sn_df month_n week_n seed s = (Ok out, s') →
  ∃ mdf sdf records,
    filtered manual_df month_n week_n = Ok mdf ∧
    filtered sn_df month_n week_n = Ok sdf ∧
    out = tracker_frame records ∧
    for_each
      (employee_record depth
         (per_employee mdf (extract_people_fields manual_df))
         (per_employee sdf (extract_people_fields sn_df))
         month_n week_n seed)
      (sorted_set (employee_keys mdf (name_col (extract_people_fields manual_df)) ++
                   employee_keys sdf (name_col (extract_people_fields sn_df)))) s
      = (Ok records, s').
Proof.
  unfold generate_tracker, filtered, bind, lift.
  destruct (get_week_filter_mask (Some manual_df) _ _ _ _) as [m_mask|e]; [|done].
  destruct (get_week_filter_mask (Some sn_df) _ _ _ _) as [s_mask|e]; [|done].
  match goal with |- context [for_each ?f ?l s] => destruct (for_each f l s) as [[records|e] s1] eqn:Hrec end;
    [|done].
  unfold ret. intros [= <- <-]. by eexists _, _, records.
Qed.

Lemma tracker_frame_field records r :
  field (tracker_frame records) (row_cells r) "Employee Name" = VStr (r_employee_name r) ∧
  field (tracker_frame records) (row_cells r) "Team Lead" = VStr (r_team_lead r) ∧
  field (tracker_frame records) (row_cells r) "Quality Assessors" = VStr (r_quality_assessors r) ∧
  field (tracker_frame records) (row_cells r) "Service Now Assessments Count" = r_sn_count r ∧
  field (tracker_frame records) (row_cells r) "Service Now Assessments Average Rating" = r_sn_avg r ∧
  field (tracker_frame records) (row_cells r) "Manual Assessments Count" = r_manual_count r ∧
  field (tracker_frame records) (row_cells r) "Manual Assessments Average Rating" = r_manual_avg r ∧
  field (tracker_frame records) (row_cells r) "Areas to Improve" = VStr (r_areas r).
Proof. by repeat split. Qed.

Lemma Forall2_elem_r {A B} (P : A → B → Prop) l k y :
  Forall2 P l k → y ∈ k → ∃ x, x ∈ l ∧ P x y.
Proof.
  induction 1 as [|x y' l k Hxy _ IH]; intros Hy; [inversion Hy|].
  apply elem_of_cons in Hy as [->|Hy].
  - exists x. split; [left|done].
  - destruct (IH Hy) as (x' & Hx' & HP). exists x'. split; [by right|done].
Qed.

(** Every output row is the record built for one of the names, from the
    dictionaries of the two filtered tables. *)
Lemma generate_tracker_rows depth manual_df sn_df month_n week_n seed s out s' :
  generate_tracker depth manual_df sn_df month_n week_n seed s = (Ok out, s') →
  ∃ mdf sdf records,
    filtered manual_df month_n week_n = Ok mdf ∧
    filtered sn_df month_n week_n = Ok sdf ∧
    out = tracker_frame records ∧
    Forall2
      (λ name r, ∃ mon areas_text,
         month_abbr month_n = Some mon ∧
         r = row_of (per_employee mdf (extract_people_fields manual_df))
                    (per_employee sdf (extract_people_fields sn_df))
                    mon week_n name areas_text ∧
         ∃ s1 s2,
           synthesize_areas_to_improve depth
             (comments_of (per_employee mdf (extract_people_fields manual_df))
                          (per_employee sdf (extract_people_fields sn_df)) name)
             name seed s1 = (Ok areas_text, s2))
      (sorted_set (employee_keys mdf (name_col (extract_people_fields manual_df)) ++
                   employee_keys sdf (name_col (extract_people_fields sn_df))))
      records.
Proof.
  intros (mdf & sdf & records & Hm & Hs & -> & Hrec)%generate_tracker_inv.
  exists mdf, sdf, records. split_and!; [done..|].
  apply for_each_inv in Hrec. eapply Forall2_impl; [done|].
  intros name r (s1 & s2 & (mon & areas & Hmon & Hsyn & ->)%employee_record_inv).
  exists mon, areas. split_and!; [done..|]. by exists s1, s2.
Qed.

(** On cells that hold text or nothing, the texts the code collects and
    normalizes are the normalized values of the cells. *)
Lemma normalized_cell_texts df c recs :
  (∀ row, row ∈ recs →
     cell_or_none df row c = VNone ∨ ∃ t, cell_or_none df row c = VStr t) →
  normalized (cell_texts df c recs) = normalized_cells df c recs.
Proof.
  unfold normalized, cell_texts, normalized_cells.
  induction recs as [|row recs IH]; intros Hall; [done|].
  csimpl. rewrite <- IH by (intros r Hr; apply Hall; by right).
  destruct (Hall row) as [->|[t ->]]; [left|done|].
  simpl. destruct (String.eqb_spec t "") as [->|Hne]; [done|].
  csimpl. done.
Qed.

Lemma normalized_app (xs ys : list string) :
  normalized (xs ++ ys) = normalized xs ++ normalized ys.
Proof. unfold normalized. apply omap_app. Qed.

(** So, for an employee whose team-lead cells hold text or nothing,
    [lead_values] is the list of the normalized team-lead values of the
    records; likewise for the assessors. *)
Lemma lead_values_on_text mdf sdf m_cols s_cols name :
  (∀ row, row ∈ records_of mdf m_cols name →
     cell_or_none mdf row (tl_col m_cols) = VNone ∨
     ∃ t, cell_or_none mdf row (tl_col m_cols) = VStr t) →
  (∀ row, row ∈ records_of sdf s_cols name →
     cell_or_none sdf row (tl_col s_cols) = VNone ∨
     ∃ t, cell_or_none sdf row (tl_col s_cols) = VStr t) →
  lead_values mdf sdf m_cols s_cols name =
    normalized_cells mdf (tl_col m_cols) (records_of mdf m_cols name) ++
    normalized_cells sdf (tl_col s_cols) (records_of sdf s_cols name).
Proof.
  intros Hm Hs. unfold lead_values.
  by rewrite normalized_app, !normalized_cell_texts.
Qed.

Lemma assessor_values_on_text mdf sdf m_cols s_cols name :
  (∀ row, row ∈ records_of mdf m_cols name →
     cell_or_none mdf row (qa_col m_cols) = VNone ∨
     ∃ t, cell_or_none mdf row (qa_col m_cols) = VStr t) →
  (∀ row, row ∈ records_of sdf s_cols name →
     cell_or_none sdf row (qa_col s_cols) = VNone ∨
     ∃ t, cell_or_none sdf row (qa_col s_cols) = VStr t) →
  assessor_values mdf sdf m_cols s_cols name =
    normalized_cells mdf (qa_col m_cols) (records_of mdf m_cols name) ++
    normalized_cells sdf (qa_col s_cols) (records_of sdf s_cols name).
Proof.
  intros Hm Hs. unfold assessor_values.
  by rewrite normalized_app, !normalized_cell_texts.
Qed.

Lemma row_of_named mdf sdf m_cols s_cols mon week_n name areas_text :
  name ≠ "" →
  let r := row_of (per_employee mdf m_cols) (per_employee sdf s_cols) mon week_n name areas_text in
  r_team_lead r = default "" (most_common1 (Counter (lead_values mdf sdf m_cols s_cols name))) ∧
  r_quality_assessors r = join ", " (sorted_set (assessor_values mdf sdf m_cols s_cols name)) ∧
  r_sn_avg r = mean_cell (omap to_numeric (sn_rating_cells sdf s_cols name)) ∧
  r_manual_avg r = avg_cell (average_of_grades (manual_grade_cells mdf m_cols name)).
Proof.
  intros Hname. unfold row_of. simpl.
  rewrite !per_employee_spec, !decide_False by done.
  unfold extend_agg, lead_values, assessor_values, sn_rating_cells, manual_grade_cells.
  simpl. repeat split.
  - by destruct (cell_texts mdf _ _ ++ cell_texts sdf _ _).
  - by destruct (omap to_numeric _).
  - by destruct (cell_values mdf _ _).
Qed.

Lemma row_of_blank agg_manual_df agg_sn_df m_cols s_cols mon week_n areas_text :
  let r := row_of (per_employee agg_manual_df m_cols) (per_employee agg_sn_df s_cols)
                  mon week_n "" areas_text in
  r_team_lead r = "" ∧ r_quality_assessors r = "" ∧
  r_sn_count r = VStr "" ∧ r_sn_avg r = VStr "" ∧
  r_manual_count r = VStr "" ∧ r_manual_avg r = VStr "".
Proof.
  unfold row_of. simpl. rewrite !per_employee_spec. by rewrite !decide_True by done.
Qed.

(** What [generate_tracker] reduces the records of a named employee to.
    Team Lead is a most frequent entry of [lead_values], the trimmed
    texts of the team-lead cells that are true as a condition, in the
    records of both filtered tables (empty when there is none); Quality
    Assessors is the distinct entries of [assessor_values], sorted and
    joined by a comma and a blank; the Service Now average is the mean
    of the numeric ratings rounded to two decimals; the Manual average is
    the rounded mean of the numeric grades or, when no grade is numeric,
    of the scores of the letter grades. A blank cell, read as NaN, is
    true as a condition and enters the two lists as the text "nan". *)
Lemma tracker_row_aggregates depth manual_df sn_df month_n week_n seed s out s' :
  generate_tracker depth manual_df sn_df month_n week_n seed s = (Ok out, s') →
  ∃ mdf sdf,
    filtered manual_df month_n week_n = Ok mdf ∧
    filtered sn_df month_n week_n = Ok sdf ∧
    ∀ row, row ∈ rows out →
      ∃ name, field out row "Employee Name" = VStr name ∧
        (name ≠ "" →
         let m_cols := extract_people_fields manual_df in
         let s_cols := extract_people_fields sn_df in
         let leads := lead_values mdf sdf m_cols s_cols name in
         let qas := assessor_values mdf sdf m_cols s_cols name in
         let grades := manual_grade_cells mdf m_cols name in
         (∃ tl, field out row "Team Lead" = VStr tl ∧
                match leads with [] => tl = "" | _ => most_frequent tl leads end) ∧
         (∃ parts, field out row "Quality Assessors" = VStr (join ", " parts) ∧
                   sorted_distinct parts qas) ∧
         field out row "Service Now Assessments Average Rating"
           = mean_cell (omap to_numeric (sn_rating_cells sdf s_cols name)) ∧
         field out row "Manual Assessments Average Rating"
           = match omap to_numeric grades with
             | [] => mean_cell (omap letter_grade_to_score grades)
             | nums => mean_cell nums
             end).
Proof.
  intros (mdf & sdf & records & Hm & Hs & -> & Hrows)%generate_tracker_rows.
  exists mdf, sdf. repeat split; [done..|].
  intros row (r & -> & Hr)%list_elem_of_fmap.
  destruct (Forall2_elem_r _ _ _ _ Hrows Hr) as (name & _ & mon & areas & _ & -> & _).
  exists name. split; [done|]. intros Hname. cbv zeta.
  pose proof (tracker_frame_field records
    (row_of (per_employee mdf (extract_people_fields manual_df))
            (per_employee sdf (extract_people_fields sn_df)) mon week_n name areas))
    as (_ & Htl & Hqa & _ & Hsn & _ & Hma & _).
  destruct (row_of_named mdf sdf (extract_people_fields manual_df)
              (extract_people_fields sn_df) mon week_n name areas Hname)
    as (Etl & Eqa & Esn & Ema).
  rewrite Htl, Hqa, Hsn, Hma, Etl, Eqa, Esn, Ema.
  split; [|split; [|split; [done|]]].
  - eexists. split; [done|].
    pose proof (most_common1_spec
      (lead_values mdf sdf (extract_people_fields manual_df)
         (extract_people_fields sn_df) name)) as Hmc.
    destruct (most_common1 _) as [x|].
    + simpl. destruct (lead_values _ _ _ _ _) eqn:Hl; [|done].
      destruct Hmc as [Hin _]. inversion Hin.
    + by rewrite Hmc.
  - eexists. split; [done|]. apply sorted_set_spec.
  - rewrite average_of_grades_cases.
    destruct (omap to_numeric (manual_grade_cells _ _ _)); [|done].
    by destruct (omap letter_grade_to_score _).
Qed.

(** C8. In every row that [generate_tracker] returns, each of the two
    average fields is the empty text or the rounded mean of a list of
    numbers. Each number in the Service Now list is the numeric reading
    of a rating cell of the employee; each number in the Manual list is
    the numeric reading of a grade cell or the score the fixed scale
    gives to a grade cell that has no numeric reading. So both fields
    hold a number or the empty text. *)
Theorem averages_are_numeric depth manual_df sn_df month_n week_n seed s out s' :
  generate_tracker depth manual_df sn_df month_n week_n seed s = (Ok out, s') →
  ∃ mdf sdf,
    filtered manual_df month_n week_n = Ok mdf ∧
    filtered sn_df month_n week_n = Ok sdf ∧
    ∀ row, row ∈ rows out →
      ∃ name sn_vals manual_vals,
        field out row "Employee Name" = VStr name ∧
        field out row "Service Now Assessments Average Rating" = mean_cell sn_vals ∧
        field out row "Manual Assessments Average Rating" = mean_cell manual_vals ∧
        (∀ x, x ∈ sn_vals →
           ∃ v, v ∈ sn_rating_cells sdf (extract_people_fields sn_df) name ∧
                to_numeric v = Some x) ∧
        (∀ x, x ∈ manual_vals →
           ∃ v, v ∈ manual_grade_cells mdf (extract_people_fields manual_df) name ∧
                (to_numeric v = Some x ∨
                 (to_numeric v = None ∧ letter_grade_to_score v = Some x ∧
                  x ∈ grade_scale.*2))) ∧
        number_or_blank (field out row "Service Now Assessments Average Rating") ∧
        number_or_blank (field out row "Manual Assessments Average Rating").
Proof.
  intros (mdf & sdf & records & Hm & Hs & -> & Hrows)%generate_tracker_rows.
  exists mdf, sdf. repeat split; [done..|].
  intros row (r & -> & Hr)%list_elem_of_fmap.
  destruct (Forall2_elem_r _ _ _ _ Hrows Hr) as (name & _ & mon & areas & _ & -> & _).
  pose proof (tracker_frame_field records
    (row_of (per_employee mdf (extract_people_fields manual_df))
            (per_employee sdf (extract_people_fields sn_df)) mon week_n name areas))
    as (Hn & _ & _ & _ & Hsn & _ & Hma & _).
  rewrite Hsn, Hma. clear Hsn Hma.
  destruct (decide (name = "")) as [->|Hname].
  - destruct (row_of_blank mdf sdf (extract_people_fields manual_df)
                (extract_people_fields sn_df) mon week_n areas)
      as (_ & _ & _ & Esn & _ & Ema).
    rewrite Esn, Ema. exists "", [], []. split_and!; try done.
    + intros x Hx. inversion Hx.
    + intros x Hx. inversion Hx.
  - destruct (row_of_named mdf sdf (extract_people_fields manual_df)
                (extract_people_fields sn_df) mon week_n name areas Hname)
      as (_ & _ & Esn & Ema).
    rewrite Esn, Ema, average_of_grades_cases.
    set (grades := manual_grade_cells mdf (extract_people_fields manual_df) name).
    exists name, (omap to_numeric (sn_rating_cells sdf (extract_people_fields sn_df) name)),
      (match omap to_numeric grades with
       | [] => omap letter_grade_to_score grades
       | nums => nums
       end).
    split_and!; try done.
    + destruct (omap to_numeric grades); [|done].
      by destruct (omap letter_grade_to_score grades).
    + intros x Hx. by apply list_elem_of_omap in Hx.
    + intros x Hx. destruct (omap to_numeric grades) as [|y nums] eqn:Hnum.
      * apply list_elem_of_omap in Hx as (v & Hv & Hx). exists v. split; [done|].
        right. split; [by apply (proj1 (omap_nil_iff _ _) Hnum)|]. split; [done|].
        unfold letter_grade_to_score in Hx. destruct (isna v); [done|].
        by apply assoc_get_elem in Hx.
      * rewrite <- Hnum in Hx. apply list_elem_of_omap in Hx as (v & Hv & Hx).
        exists v. split; [done|]. by left.
    + by destruct (omap to_numeric _).
    + destruct (omap to_numeric grades); [|done].
      by destruct (omap letter_grade_to_score grades).
Qed.

(** ** The week filter *)

Lemma pick_empty d candidates :
  df_empty d = true → pick_first_available_column (Some d) candidates = None.
Proof. intros He. unfold pick_first_available_column. by rewrite He. Qed.

Lemma filter_true_id {A} (l : list A) : filter (λ _, true = true) l = l.
Proof.
  induction l as [|x l IH]; [done|]. rewrite filter_cons, IH. by case_decide.
Qed.

Lemma extract_empty d :
  df_empty d = true →
  week_col (extract_people_fields d) = None ∧ date_col (extract_people_fields d) = None.
Proof.
  intros He. unfold extract_people_fields. cbn [week_col date_col].
  by rewrite !(pick_empty _ _ He).
Qed.

Lemma select_by_map {A} (f : A → bool) (l : list A) :
  map fst (filter (λ p, p.2 = true) (zip l (map f l))) = filter (λ x, f x = true) l.
Proof.
  induction l as [|x l IH]; [done|].
  cbn [map zip zip_with]. rewrite !filter_cons. cbn [snd].
  destruct (f x) eqn:Hx; repeat case_decide; try done; cbn [map fst]; by rewrite IH.
Qed.

Lemma filter_all_true {A} (l : list A) :
  map fst (filter (λ p, p.2 = true) (zip l (replicate (length l) true))) = l.
Proof.
  induction l as [|x l IH]; [done|].
  cbn [length replicate zip zip_with]. rewrite filter_cons. cbn [snd].
  case_decide; [|done]. cbn [map fst]. by rewrite IH.
Qed.

Lemma result_map_ok {A B} (f : A → result B) (l : list A) ys :
  result_map f l = Ok ys → Forall2 (λ x y, f x = Ok y) l ys.
Proof.
  revert ys. induction l as [|x l IH]; intros ys; simpl.
  - intros [= <-]. constructor.
  - destruct (f x) as [y|e] eqn:Hx; [|done].
    destruct (result_map f l) as [ys'|e]; [|done].
    intros [= <-]. constructor; [done|by apply IH].
Qed.

Lemma result_map_total {A B} (f : A → result B) (l : list A) :
  (∀ x, x ∈ l → ∃ y, f x = Ok y) → ∃ ys, result_map f l = Ok ys.
Proof.
  induction l as [|x l IH]; intros Hall; simpl; [by eexists|].
  destruct (Hall x) as [y ->]; [left|].
  destruct IH as [ys ->]; [|by eexists].
  intros x' Hx'. apply Hall. by right.
Qed.

(** The mask computed from a date column, entry by entry. *)
Lemma date_mask_by_map (month_n week_n : Z) (dates : list dateval) wom :
  result_map wom_of dates = Ok wom →
  zip_with (λ m w, bool_decide (m = Some month_n) && bool_decide (w = Some week_n))
           (map month_of dates) wom
  = map (λ d, bool_decide (month_of d = Some month_n) &&
              bool_decide (match d with DDate x => Some (week_of_month x) | _ => None end
                           = Some week_n)) dates.
Proof.
  intros Hok%result_map_ok. induction Hok as [|d w dates wom Hd _ IH]; [done|].
  simpl. rewrite IH. f_equal.
  destruct d; simpl in Hd; by simplify_eq.
Qed.

Lemma get_week_filter_mask_by_row d month_n week_n mask :
  df_empty d = false →
  get_week_filter_mask (Some d) (week_col (extract_people_fields d))
    (date_col (extract_people_fields d)) month_n week_n = Ok mask →
  mask = map (λ row, row_in_week d month_n week_n row) (rows d).
Proof.
  intros He. unfold get_week_filter_mask, row_in_week. rewrite He.
  destruct (usable_col (week_col _) d) as [wc|].
  { intros [= <-]. unfold column_values. by rewrite map_map. }
  destruct (usable_col (date_col _) d) as [dc|].
  - destruct (result_map wom_of _) as [wom|e] eqn:Hwom; [|done].
    intros [= <-]. rewrite (date_mask_by_map _ _ _ _ Hwom).
    unfold column_values. by rewrite !map_map.
  - intros [= <-]. unfold df_len. clear.
    induction (rows d) as [|row l IH]; [done|]. simpl. by rewrite IH.
Qed.

(** The filtered table has the columns of the table and the rows the
    week filter keeps. *)
Lemma filtered_spec df month_n week_n fdf :
  filtered df month_n week_n = Ok fdf →
  fdf = Frame (columns df)
              (filter (λ row, row_in_week df month_n week_n row = true) (rows df)).
Proof.
  unfold filtered.
  destruct (get_week_filter_mask _ _ _ _ _) as [mask|e] eqn:Hmask; [|done].
  intros [= <-]. destruct (df_empty df) eqn:He.
  - unfold row_in_week.
    rewrite (proj1 (extract_empty _ He)), (proj2 (extract_empty _ He)). cbn [usable_col].
    rewrite filter_true_id. unfold df_len, select_rows.
    destruct df as [cols [|row rws]]; [done|]. simpl in *.
    unfold df_empty in He. simpl in He. by destruct cols.
  - apply (get_week_filter_mask_by_row _ _ _ _ He) in Hmask as ->.
    unfold df_len, select_rows. unfold df_empty in He.
    destruct df as [[|c cols] [|row rws]]; try done.
    cbn [rows columns length]. by rewrite select_by_map.
Qed.

Lemma filtered_total df month_n week_n :
  dates_readable df → ∃ fdf, filtered df month_n week_n = Ok fdf.
Proof.
  intros Hd. unfold filtered, get_week_filter_mask.
  destruct (df_empty df) eqn:He; [by eexists|].
  destruct (usable_col (week_col _) df) as [wc|] eqn:Hwc; [by eexists|].
  destruct (usable_col (date_col _) df) as [dc|] eqn:Hdc; [|by eexists].
  destruct (result_map_total wom_of (map to_date (column_values df dc))) as [wom ->];
    [|by eexists].
  intros x (v & -> & Hv)%list_elem_of_fmap.
  specialize (Hd He Hwc dc v Hdc Hv).
  destruct (to_date v); simpl; by eauto.
Qed.

(** C9, amended. On a table that is not empty, when neither the week
    column nor the date column is usable, the mask is all true and has
    one entry per row; selecting by it gives the table back. For any
    table, empty or not, for which neither column is resolved, the
    filtered table that [generate_tracker] aggregates is the whole
    table. *)
Theorem unfiltered_without_week_or_date :
  (∀ d wc dc month_n week_n,
     df_empty d = false → usable_col wc d = None → usable_col dc d = None →
     get_week_filter_mask (Some d) wc dc month_n week_n = Ok (replicate (df_len d) true) ∧
     select_rows d (replicate (df_len d) true) = d) ∧
  (∀ d month_n week_n,
     week_col (extract_people_fields d) = None →
     date_col (extract_people_fields d) = None →
     filtered d month_n week_n = Ok d).
Proof.
  split.
  - intros d wc dc month_n week_n He Hwc Hdc. unfold get_week_filter_mask.
    rewrite He, Hwc, Hdc. split; [done|].
    unfold select_rows, df_len. destruct d as [[|c cols] rws]; [done|].
    cbn [rows columns]. by rewrite filter_all_true.
  - intros d month_n week_n Hwc Hdc.
    assert (Hr : dates_readable d).
    { intros _ _ dc v. unfold usable_col. by rewrite Hdc. }
    destruct (filtered_total d month_n week_n Hr) as [fdf Hf].
    rewrite Hf. f_equal. apply filtered_spec in Hf as ->.
    unfold row_in_week. rewrite Hwc, Hdc. simpl.
    destruct d as [cols rws]. simpl. f_equal. apply filter_true_id.
Qed.

(** ** The client: probing keys *)

Lemma unique_keys_elem seen l k : k ∈ unique_keys seen l → k ∈ l.
Proof.
  revert seen. induction l as [|x l IH]; intros seen; simpl; [done|].
  case_bool_decide.
  - intros Hk. right. by eapply IH.
  - intros [->|Hk]%elem_of_cons; [left|right; by eapply IH].
Qed.

Lemma api_keys_nonempty key : key ∈ get_api_keys_from_env → key ≠ "".
Proof.
  unfold get_api_keys_from_env. intros Hk%unique_keys_elem.
  by apply list_elem_of_filter in Hk as [Hk _].
Qed.

Lemma api_key_lookup_nonempty i key :
  get_api_keys_from_env !! i = Some key → String.eqb key "" = false.
Proof.
  intros Hk. apply String.eqb_neq, api_keys_nonempty.
  by eapply list_elem_of_lookup_2.
Qed.

Lemma probe_key_ok i key on_success s s2 :
  models_list (clock s) key = None → on_success (tick s) = (Ok tt, s2) →
  probe_key i key on_success s = (Ok (Some key), s2).
Proof.
  intros Hm Hs. unfold probe_key, try_except, bind, key_test, ret.
  by rewrite Hm, Hs.
Qed.

Lemma probe_key_limited i key on_success s msg :
  models_list (clock s) key = Some msg → is_rate_limit_error msg = true →
  probe_key i key on_success s
    = (Ok None, MkSession (groq_key_index s) (<[i := true]> (groq_key_limits s)) (S (clock s))).
Proof.
  intros Hm Hr. unfold probe_key, try_except, bind, key_test, ret.
  rewrite Hm. simpl. by rewrite Hr.
Qed.

Lemma probe_key_failed i key on_success s msg :
  models_list (clock s) key = Some msg → is_rate_limit_error msg = false →
  probe_key i key on_success s = (Ok None, tick s).
Proof.
  intros Hm Hr. unfold probe_key, try_except, bind, key_test, ret.
  rewrite Hm. simpl. by rewrite Hr.
Qed.

(** A probe never raises: it gives the client, with the session as
    [on_success] leaves it, or no client, with the stored index
    untouched. *)
Lemma probe_key_cases i key on_success s :
  (∀ s0, ∃ s1, on_success s0 = (Ok tt, s1)) →
  (∃ s2, models_list (clock s) key = None ∧ on_success (tick s) = (Ok tt, s2) ∧
         probe_key i key on_success s = (Ok (Some key), s2)) ∨
  (∃ s', probe_key i key on_success s = (Ok None, s') ∧
         groq_key_index s' = groq_key_index s ∧
         (probes_never_rate_limited → groq_key_limits s' = groq_key_limits s)).
Proof.
  intros Hok. destruct (models_list (clock s) key) as [msg|] eqn:Hm.
  - right. destruct (is_rate_limit_error msg) eqn:Hr.
    + eexists. split; [by apply (probe_key_limited _ _ _ _ msg)|]. split; [done|].
      intros Hq. rewrite (Hq _ _ _ Hm) in Hr. done.
    + eexists. split; [by apply (probe_key_failed _ _ _ _ msg)|]. done.
  - left. destruct (Hok (tick s)) as [s2 Hs2]. exists s2.
    split; [done|]. split; [done|]. by apply probe_key_ok.
Qed.

(** What a run of the loop over the other keys can end with. *)
Lemma try_other_keys_result keys cur offsets s r s' :
  try_other_keys keys cur offsets s = (r, s') →
  match r with
  | Ok (Some key) => keys !! groq_key_index s' = Some key
  | Ok None => groq_key_index s' = groq_key_index s
  | Raise e => e = IndexError
  end.
Proof.
  revert s. induction offsets as [|i rest IH]; intros s; simpl.
  - unfold ret. by intros [= <- <-].
  - destruct (keys !! ((cur + i) mod length keys)%nat) as [next_key|] eqn:Hk.
    2:{ unfold raise. by intros [= <- <-]. }
    unfold bind at 1, get_session.
    destruct (negb (String.eqb next_key "") && negb (limit_of s _)); [|by apply IH].
    unfold bind at 1.
    destruct (probe_key_cases ((cur + i) mod length keys)%nat next_key
                (set_key_index ((cur + i) mod length keys)%nat) s)
      as [(s2 & _ & Hs2 & ->)|(s2 & -> & Hidx & _)].
    + intros s0. by eexists.
    + unfold ret. intros [= <- <-].
      unfold set_key_index in Hs2. by simplify_eq.
    + intros Hrest%IH. destruct r as [[key|]|e]; [done| |done]. congruence.
Qed.

Lemma try_other_keys_quiet keys cur offsets s :
  probes_never_rate_limited →
  (0 < length keys)%nat → (groq_key_index s < length keys)%nat →
  ∃ r s', try_other_keys keys cur offsets s = (Ok r, s') ∧
          groq_key_limits s' = groq_key_limits s ∧
          (groq_key_index s' < length keys)%nat.
Proof.
  intros Hq Hn. revert s. induction offsets as [|i rest IH]; intros s Hidx; simpl.
  - by eexists _, _.
  - destruct (keys !! ((cur + i) mod length keys)%nat) as [next_key|] eqn:Hk.
    2:{ apply lookup_ge_None in Hk.
        pose proof (Nat.mod_upper_bound (cur + i) (length keys)). lia. }
    unfold bind at 1, get_session.
    destruct (negb (String.eqb next_key "") && negb (limit_of s _)); [|by apply IH].
    unfold bind at 1.
    destruct (probe_key_cases ((cur + i) mod length keys)%nat next_key
                (set_key_index ((cur + i) mod length keys)%nat) s)
      as [(s2 & _ & Hs2 & ->)|(s2 & -> & Hi & Hl)].
    + intros s0. by eexists.
    + unfold set_key_index in Hs2. simplify_eq. eexists _, _. split; [done|].
      simpl. split; [done|]. apply Nat.mod_upper_bound. lia.
    + destruct (IH s2) as (r & s' & -> & Hl' & Hi'); [lia|].
      eexists _, _. split; [done|]. split; [|done]. by rewrite Hl', Hl.
Qed.

(** Keys that are marked are passed over without a probe; the first
    key after them that is not marked and whose probe goes through
    becomes the current key. *)
Lemma try_other_keys_rotate keys cur pre i post s key :
  (∀ i', i' ∈ pre → limit_of s ((cur + i') mod length keys)%nat = true) →
  keys !! ((cur + i) mod length keys)%nat = Some key →
  String.eqb key "" = false →
  limit_of s ((cur + i) mod length keys)%nat = false →
  models_list (clock s) key = None →
  try_other_keys keys cur (pre ++ i :: post) s
    = (Ok (Some key),
       MkSession ((cur + i) mod length keys)%nat (groq_key_limits s) (S (clock s))).
Proof.
  intros Hpre Hk Hne Hlim Hm. induction pre as [|i' pre IH]; simpl.
  - rewrite Hk. unfold bind at 1, get_session. rewrite Hne, Hlim. simpl.
    unfold bind at 1. by erewrite probe_key_ok.
  - destruct (keys !! ((cur + i') mod length keys)%nat) as [k'|] eqn:Hk'.
    + unfold bind at 1, get_session. rewrite (Hpre i') by left.
      rewrite andb_false_r. apply IH. intros j Hj. apply Hpre. by right.
    + exfalso. apply lookup_ge_None in Hk'.
      assert (length keys ≠ 0)%nat.
      { intros Hz. apply lookup_lt_Some in Hk. lia. }
      pose proof (Nat.mod_upper_bound (cur + i') (length keys)). lia.
Qed.

(** ** The client: acquiring a client *)

Lemma get_next_groq_client_eq depth :
  get_next_groq_client depth =
    get_next_groq_client_body
      (match depth with
       | O => raise RecursionError
       | S depth' => get_next_groq_client depth'
       end).
Proof. by destruct depth. Qed.

Lemma get_next_groq_client_body_result recur s r s' :
  (∀ s0 r0 s0', recur s0 = (r0, s0') → acquired r0 s0') →
  get_next_groq_client_body recur s = (r, s') → acquired r s'.
Proof.
  intros Hrec. unfold get_next_groq_client_body, acquired.
  destruct get_api_keys_from_env as [|k0 ks] eqn:Hkeys.
  { unfold ret. by intros [= <- <-]. }
  unfold bind at 1, get_session.
  destruct ((k0 :: ks) !! groq_key_index s) as [current_key|] eqn:Hcur.
  2:{ unfold raise. intros [= <- <-]. by left. }
  unfold bind at 1.
  assert (Hfirst : ∃ first s1,
    (if negb (String.eqb current_key "") && negb (limit_of s (groq_key_index s))
     then probe_key (groq_key_index s) current_key (ret tt) else ret None) s = (Ok first, s1) ∧
    groq_key_index s1 = groq_key_index s ∧
    (first = None ∨ first = Some current_key)).
  { destruct (negb (String.eqb current_key "") && negb (limit_of s (groq_key_index s))).
    - destruct (probe_key_cases (groq_key_index s) current_key (ret tt) s)
        as [(s2 & _ & Hs2 & ->)|(s2 & -> & Hidx & _)].
      + intros s0. by eexists.
      + unfold ret in Hs2. simplify_eq. eexists _, _. split; [done|]. split; [done|by right].
      + eexists _, _. split; [done|]. split; [done|by left].
    - eexists _, _. split; [done|]. split; [done|by left]. }
  destruct Hfirst as (first & s1 & -> & Hidx1 & [->| ->]).
  2:{ unfold ret. intros [= <- <-]. by rewrite Hidx1. }
  unfold bind at 1.
  destruct (try_other_keys (k0 :: ks) (groq_key_index s) _ s1) as [other s2] eqn:Hother.
  apply try_other_keys_result in Hother.
  destruct other as [[client|]|e].
  - unfold ret. by intros [= <- <-].
  - unfold bind at 1, get_session.
    destruct (forallb (limit_of s2) _).
    + unfold bind, reset_limits, set_key_index. intros Hr. apply Hrec in Hr.
      unfold acquired in Hr. by rewrite Hkeys in Hr.
    + unfold ret. by intros [= <- <-].
  - intros [= <- <-]. subst. by left.
Qed.

(** An acquisition that hands out a client leaves its key under the
    stored index; an acquisition never raises an exception of the
    service. *)
Lemma get_next_groq_client_result depth s r s' :
  get_next_groq_client depth s = (r, s') → acquired r s'.
Proof.
  revert s r s'. induction depth as [|depth IH]; intros s r s';
    rewrite get_next_groq_client_eq; apply get_next_groq_client_body_result.
  - intros s0 r0 s0'. unfold raise. intros [= <- <-]. by right.
  - apply IH.
Qed.

Lemma get_next_groq_client_rotate depth s i key :
  let keys := get_api_keys_from_env in
  let cur := groq_key_index s in
  (cur < length keys)%nat →
  limit_of s cur = true →
  (1 ≤ i < length keys)%nat →
  (∀ i', (1 ≤ i' < i)%nat → limit_of s ((cur + i') mod length keys)%nat = true) →
  limit_of s ((cur + i) mod length keys)%nat = false →
  keys !! ((cur + i) mod length keys)%nat = Some key →
  models_list (clock s) key = None →
  get_next_groq_client depth s
    = (Ok (Some key),
       MkSession ((cur + i) mod length keys)%nat (groq_key_limits s) (S (clock s))).
Proof.
  intros keys cur Hcur Hlim Hi Hbetween Hfree Hkey Hm.
  pose proof (api_key_lookup_nonempty _ _ Hkey) as Hne.
  rewrite get_next_groq_client_eq. unfold get_next_groq_client_body.
  subst keys cur. destruct get_api_keys_from_env as [|k0 ks] eqn:Hkeys.
  { simpl in Hcur. lia. }
  unfold bind at 1, get_session.
  destruct (lookup_lt_is_Some_2 (k0 :: ks) (groq_key_index s) Hcur) as [ck ->].
  rewrite Hlim, andb_false_r. unfold bind at 1, ret at 1.
  unfold bind at 1.
  replace (seq 1 (length (k0 :: ks) - 1))
    with (seq 1 (i - 1) ++ i :: seq (S i) (length (k0 :: ks) - 1 - i)).
  2:{ replace (length (k0 :: ks) - 1)%nat
        with ((i - 1) + S (length (k0 :: ks) - 1 - i))%nat at 2 by lia.
      rewrite seq_app. simpl. repeat f_equal; lia. }
  rewrite (try_other_keys_rotate _ _ _ _ _ _ key); try done.
  intros i' Hi'%elem_of_seq. apply Hbetween. lia.
Qed.

Lemma forallb_false_elem {A} (f : A → bool) (l : list A) :
  forallb f l = false → ∃ x, x ∈ l ∧ f x = false.
Proof.
  induction l as [|x l IH]; simpl; [done|].
  destruct (f x) eqn:Hx; simpl.
  - intros (y & Hy & Hf)%IH. exists y. split; [by right|done].
  - intros _. exists x. split; [left|done].
Qed.

Lemma reset_limits_lookup (m : gmap nat bool) (l : list nat) i :
  i ∈ l → foldl (λ m i, <[i := false]> m) m l !! i = Some false.
Proof.
  revert m. induction l as [|j l IH]; intros m Hi; [inversion Hi|].
  simpl. destruct (decide (i ∈ l)) as [Hin|Hnin]; [by apply IH|].
  apply elem_of_cons in Hi as [->|Hi]; [|done].
  clear IH. revert m. induction l as [|k l IH]; intros m; simpl.
  - apply lookup_insert_eq.
  - rewrite not_elem_of_cons in Hnin. destruct Hnin as [Hne Hnin].
    rewrite insert_insert_ne by done. by apply IH.
Qed.

(** Without rate-limit answers to probes, an acquisition that starts
    with some key not marked ends without a retry. *)
Lemma get_next_groq_client_body_open recur s :
  probes_never_rate_limited →
  (groq_key_index s < length get_api_keys_from_env)%nat →
  (∃ j, (j < length get_api_keys_from_env)%nat ∧ limit_of s j = false) →
  ∃ r s', get_next_groq_client_body recur s = (Ok r, s') ∧ valid_session s'.
Proof.
  intros Hq Hidx (j & Hj & Hfree). unfold get_next_groq_client_body, valid_session.
  destruct get_api_keys_from_env as [|k0 ks] eqn:Hkeys; [simpl in Hidx; lia|].
  unfold bind at 1, get_session.
  destruct (lookup_lt_is_Some_2 (k0 :: ks) (groq_key_index s) Hidx) as [ck ->].
  unfold bind at 1.
  assert (Hfirst : ∃ first s1,
    (if negb (String.eqb ck "") && negb (limit_of s (groq_key_index s))
     then probe_key (groq_key_index s) ck (ret tt) else ret None) s = (Ok first, s1) ∧
    groq_key_index s1 = groq_key_index s ∧ groq_key_limits s1 = groq_key_limits s).
  { destruct (negb (String.eqb ck "") && negb (limit_of s (groq_key_index s))).
    - destruct (probe_key_cases (groq_key_index s) ck (ret tt) s)
        as [(s2 & _ & Hs2 & ->)|(s2 & -> & Hi & Hl)].
      + intros s0. by eexists.
      + unfold ret in Hs2. simplify_eq. by eexists _, _.
      + eexists _, _. split; [done|]. split; [done|]. by apply Hl.
    - by eexists _, _. }
  destruct Hfirst as (first & s1 & -> & Hidx1 & Hlim1).
  destruct first as [client|].
  { eexists _, _. split; [done|]. right. by rewrite Hidx1. }
  unfold bind at 1.
  destruct (try_other_keys_quiet (k0 :: ks) (groq_key_index s)
              (seq 1 (length (k0 :: ks) - 1)) s1 Hq)
    as (other & s2 & -> & Hlim2 & Hidx2); [simpl; lia|by rewrite Hidx1|].
  destruct other as [client|]; [by eexists _, _; split; [done|right]|].
  unfold bind at 1, get_session.
  assert (Hall : forallb (limit_of s2) (seq 0 (length (k0 :: ks))) = false).
  { apply not_true_is_false. intros Hall. rewrite forallb_forall in Hall.
    specialize (Hall j). unfold limit_of in *. rewrite Hlim2, Hlim1, Hfree in Hall.
    assert (false = true); [|done]. apply Hall. apply in_seq. lia. }
  rewrite Hall. eexists _, _. split; [done|by right].
Qed.

Lemma get_next_groq_client_body_quiet recur s :
  probes_never_rate_limited →
  valid_session s →
  (∀ s0, (groq_key_index s0 < length get_api_keys_from_env)%nat →
         (∃ j, (j < length get_api_keys_from_env)%nat ∧ limit_of s0 j = false) →
         ∃ r s', recur s0 = (Ok r, s') ∧ valid_session s') →
  ∃ r s', get_next_groq_client_body recur s = (Ok r, s') ∧ valid_session s'.
Proof.
  intros Hq Hvalid Hrec.
  destruct (forallb (limit_of s) (seq 0 (length get_api_keys_from_env))) eqn:Hall.
  2:{ destruct Hvalid as [Hnil|Hidx].
      { unfold get_next_groq_client_body. rewrite Hnil.
        eexists _, _. split; [done|]. left. done. }
      apply get_next_groq_client_body_open; [done..|].
      apply forallb_false_elem in Hall as (j & Hj%elem_of_seq & Hlim).
      exists j. split; [lia|done]. }
  unfold get_next_groq_client_body, valid_session in *.
  destruct get_api_keys_from_env as [|k0 ks] eqn:Hkeys.
  { eexists _, _. split; [done|by left]. }
  destruct Hvalid as [?|Hidx]; [done|].
  unfold bind at 1, get_session.
  destruct (lookup_lt_is_Some_2 (k0 :: ks) (groq_key_index s) Hidx) as [ck ->].
  assert (Hcur : limit_of s (groq_key_index s) = true).
  { rewrite forallb_forall in Hall. apply Hall, in_seq. lia. }
  rewrite Hcur, andb_false_r. unfold bind at 1, ret at 1. unfold bind at 1.
  destruct (try_other_keys_quiet (k0 :: ks) (groq_key_index s)
              (seq 1 (length (k0 :: ks) - 1)) s Hq)
    as (other & s2 & -> & Hlim2 & Hidx2); [simpl; lia|done|].
  destruct other as [client|]; [by eexists _, _; split; [done|right]|].
  unfold bind at 1, get_session.
  destruct (forallb (limit_of s2) _).
  - unfold bind, reset_limits, set_key_index. apply Hrec; [simpl; lia|].
    exists 0%nat. split; [simpl; lia|]. unfold limit_of. cbn [groq_key_limits].
    rewrite reset_limits_lookup; [done|]. apply elem_of_seq. simpl. lia.
  - eexists _, _. split; [done|by right].
Qed.

Lemma get_next_groq_client_quiet depth s :
  probes_never_rate_limited → valid_session s → (1 ≤ depth)%nat →
  ∃ r s', get_next_groq_client depth s = (Ok r, s') ∧ valid_session s'.
Proof.
  intros Hq Hvalid Hd. destruct depth as [|depth]; [lia|].
  rewrite get_next_groq_client_eq. apply get_next_groq_client_body_quiet; [done..|].
  intros s0 Hidx Hfree. rewrite get_next_groq_client_eq.
  by apply get_next_groq_client_body_open.
Qed.

(** ** The client: completions *)

(** Every way a call of [groq_chat_completion] can go. *)
Lemma groq_chat_completion_cases depth prompt system s :
  match get_next_groq_client depth s with
  | (Raise e, s1) => groq_chat_completion depth prompt system s = (Raise e, s1)
  | (Ok None, s1) => groq_chat_completion depth prompt system s = (Ok "", s1)
  | (Ok (Some key), s1) =>
      match chat_create (clock s1) key (system_or_default system) prompt with
      | Failed msg =>
          groq_chat_completion depth prompt system s
            = (Ok "", if is_rate_limit_error msg then marked_current s1 else tick s1)
      | Replied [] => groq_chat_completion depth prompt system s = (Ok "", tick s1)
      | Replied (first :: _) =>
          groq_chat_completion depth prompt system s
            = (Ok (strip (clean_output (default "" first))), tick s1)
      end
  end.
Proof.
  destruct (get_next_groq_client depth s) as [[[key|]|e] s1] eqn:Hget.
  - destruct (chat_create (clock s1) key (system_or_default system) prompt)
      as [msg|[|first rest]] eqn:Hc;
      unfold groq_chat_completion, bind, try_except, chat_completions_create;
      rewrite Hget, Hc; [|done..].
    unfold get_session, set_limit, ret, marked_current. simpl.
    by destruct (is_rate_limit_error msg).
  - unfold groq_chat_completion, bind. by rewrite Hget.
  - unfold groq_chat_completion, bind. by rewrite Hget.
Qed.

Lemma groq_chat_completion_quiet depth prompt system s :
  probes_never_rate_limited → valid_session s → (1 ≤ depth)%nat →
  ∃ text s', groq_chat_completion depth prompt system s = (Ok text, s') ∧ valid_session s'.
Proof.
  intros Hq Hvalid Hd.
  destruct (get_next_groq_client_quiet depth s Hq Hvalid Hd) as (client & s1 & Hget & Hv1).
  pose proof (groq_chat_completion_cases depth prompt system s) as Hcases.
  rewrite Hget in Hcases. destruct client as [key|]; [|by eexists _, _].
  destruct (chat_create _ _ _ _) as [msg|[|first rest]].
  - eexists _, _. split; [done|]. by destruct (is_rate_limit_error msg).
  - by eexists _, _.
  - by eexists _, _.
Qed.

(** C4. When the call of the text-completion service raises an
    exception, whatever its message, [groq_chat_completion] returns the
    empty text, and so does [synthesize_areas_to_improve] for every
    bundle of comments: the exception does not reach the caller. *)
Theorem completion_failure_gives_empty_text :
  (∀ depth prompt system s key s1 msg,
     get_next_groq_client depth s = (Ok (Some key), s1) →
     chat_create (clock s1) key (system_or_default system) prompt = Failed msg →
     ∃ s2, groq_chat_completion depth prompt system s = (Ok "", s2)) ∧
  (∀ depth all_comments employee_name seed_examples s key s1 msg,
     get_next_groq_client depth s = (Ok (Some key), s1) →
     chat_create (clock s1) key default_system
       (user_prompt (join " " (cleaned_bits all_comments))) = Failed msg →
     ∃ s2, synthesize_areas_to_improve depth all_comments employee_name seed_examples s
             = (Ok "", s2)).
Proof.
  assert (Hcall : ∀ depth prompt system s key s1 msg,
     get_next_groq_client depth s = (Ok (Some key), s1) →
     chat_create (clock s1) key (system_or_default system) prompt = Failed msg →
     ∃ s2, groq_chat_completion depth prompt system s = (Ok "", s2)).
  { intros depth prompt system s key s1 msg Hget Hfail.
    pose proof (groq_chat_completion_cases depth prompt system s) as Hcases.
    rewrite Hget, Hfail in Hcases. by eexists. }
  split; [done|].
  intros depth all_comments employee_name seed_examples s key s1 msg Hget Hfail.
  unfold synthesize_areas_to_improve.
  destruct (cleaned_bits all_comments) as [|bit bits] eqn:Hbits; [by eexists|].
  by apply (Hcall depth _ None s key s1 msg).
Qed.


(** ** Runs of [generate_tracker] that return *)

Lemma month_abbr_total month_n :
  (1 ≤ month_n ≤ 12)%Z → ∃ mon, month_abbr month_n = Some mon.
Proof.
  intros Hm. unfold month_abbr.
  destruct (Z.leb_spec 1 month_n); [|lia]. destruct (Z.leb_spec month_n 12); [|lia].
  simpl. apply lookup_lt_is_Some_2. simpl. lia.
Qed.

Lemma synthesize_areas_to_improve_quiet depth all_comments employee_name seed s :
  probes_never_rate_limited → valid_session s → (1 ≤ depth)%nat →
  ∃ text s', synthesize_areas_to_improve depth all_comments employee_name seed s
               = (Ok text, s') ∧ valid_session s'.
Proof.
  intros Hq Hvalid Hd. unfold synthesize_areas_to_improve.
  destruct (cleaned_bits all_comments); [by eexists _, _|].
  by apply groq_chat_completion_quiet.
Qed.

Lemma employee_record_total depth agg_manual agg_sn month_n week_n seed name s :
  (1 ≤ month_n ≤ 12)%Z →
  probes_never_rate_limited → valid_session s → (1 ≤ depth)%nat →
  ∃ r s', employee_record depth agg_manual agg_sn month_n week_n seed name s = (Ok r, s') ∧
          valid_session s'.
Proof.
  intros [mon Hmon]%month_abbr_total Hq Hvalid Hd. unfold employee_record, bind.
  destruct (synthesize_areas_to_improve_quiet depth
              (comments (agg_of agg_manual name) ++ comments (agg_of agg_sn name))
              name seed s Hq Hvalid Hd) as (areas & s1 & -> & Hv1).
  rewrite Hmon. by eexists _, _.
Qed.

Lemma for_each_total {A B} (f : A → M B) (l : list A) (inv : Session → Prop) s :
  (∀ x s0, inv s0 → ∃ y s1, f x s0 = (Ok y, s1) ∧ inv s1) →
  inv s → ∃ ys s', for_each f l s = (Ok ys, s') ∧ inv s'.
Proof.
  intros Hf. revert s. induction l as [|x l IH]; intros s Hs; simpl.
  - by eexists _, _.
  - unfold bind at 1. destruct (Hf x s Hs) as (y & s1 & -> & Hs1).
    unfold bind at 1. destruct (IH s1 Hs1) as (ys & s2 & -> & Hs2).
    by eexists _, _.
Qed.

Lemma generate_tracker_total depth manual_df sn_df month_n week_n seed s :
  (1 ≤ month_n ≤ 12)%Z →
  dates_readable manual_df → dates_readable sn_df →
  probes_never_rate_limited → valid_session s → (1 ≤ depth)%nat →
  ∃ out s', generate_tracker depth manual_df sn_df month_n week_n seed s = (Ok out, s').
Proof.
  intros Hmonth [mdf Hm]%(filtered_total _ month_n week_n)
    [sdf Hs]%(filtered_total _ month_n week_n) Hq Hvalid Hd.
  unfold filtered in Hm, Hs. unfold generate_tracker, bind at 1, lift.
  destruct (get_week_filter_mask (Some manual_df) _ _ _ _) as [m_mask|]; [|done].
  unfold bind at 1.
  destruct (get_week_filter_mask (Some sn_df) _ _ _ _) as [s_mask|]; [|done].
  unfold bind at 1.
  match goal with
  | |- context [for_each ?f ?l s] =>
      destruct (for_each_total f l valid_session s) as (records & s' & -> & _)
  end; [|done|by eexists _, _].
  intros name s0 Hs0. by apply employee_record_total.
Qed.

Lemma tracker_frame_rows records :
  columns (tracker_frame records) = map LStr col_order ∧
  length (columns (tracker_frame records)) = 12%nat ∧
  Forall2 (λ r row, length row = 12%nat ∧
                    field (tracker_frame records) row "Employee Name"
                      = VStr (r_employee_name r))
          records (rows (tracker_frame records)).
Proof.
  split; [done|]. split; [done|]. simpl.
  induction records as [|r records IH]; constructor; [done|].
  eapply Forall2_impl; [apply IH|]. done.
Qed.

(** C3, amended. For a target month between 1 and 12, date columns
    whose cells can be read, a client that is not answered with
    rate-limit messages when it probes its keys, and a stored key index
    within the keys, [generate_tracker] returns a table. It is computed
    from the two tables reduced to the rows the week filter keeps: the
    rows whose week cell holds the target week when a week column is
    resolved, else the rows dated in the target month and week when a
    date column is resolved, else all rows. The table has the twelve
    columns of the fixed layout and one row, of twelve cells, for each
    distinct key of a non-missing name in the reduced tables, in
    increasing order of the keys. *)
Theorem tracker_rows_per_key depth manual_df sn_df month_n week_n seed s :
  (1 ≤ month_n ≤ 12)%Z →
  dates_readable manual_df → dates_readable sn_df →
  probes_never_rate_limited → valid_session s → (1 ≤ depth)%nat →
  ∃ out s' names,
    generate_tracker depth manual_df sn_df month_n week_n seed s = (Ok out, s') ∧
    let mdf := Frame (columns manual_df)
                 (filter (λ row, row_in_week manual_df month_n week_n row = true)
                         (rows manual_df)) in
    let sdf := Frame (columns sn_df)
                 (filter (λ row, row_in_week sn_df month_n week_n row = true)
                         (rows sn_df)) in
    filtered manual_df month_n week_n = Ok mdf ∧
    filtered sn_df month_n week_n = Ok sdf ∧
    sorted_distinct names
      (employee_keys mdf (name_col (extract_people_fields manual_df)) ++
       employee_keys sdf (name_col (extract_people_fields sn_df))) ∧
    columns out = map LStr col_order ∧
    length (columns out) = 12%nat ∧
    Forall2 (λ name row, length row = 12%nat ∧ field out row "Employee Name" = VStr name)
            names (rows out).
Proof.
  intros Hmonth Hdm Hds Hq Hvalid Hd.
  destruct (generate_tracker_total depth manual_df sn_df month_n week_n seed s)
    as (out & s' & Hrun); [done..|].
  pose proof Hrun as (mdf & sdf & records & Hm & Hs & -> & Hrows)%generate_tracker_rows.
  pose proof (filtered_spec _ _ _ _ Hm) as Em. pose proof (filtered_spec _ _ _ _ Hs) as Es.
  rewrite <- Em, <- Es. eexists _, s', _. split; [done|]. cbv zeta.
  split; [done|]. split; [done|]. split; [apply sorted_set_spec|].
  destruct (tracker_frame_rows records) as (Hc & Hl & Hr).
  split; [done|]. split; [done|].
  clear -Hrows Hr. revert Hr. generalize (tracker_frame records). intros out Hr.
  revert Hr. generalize (rows out). intros rws Hr.
  revert rws Hr. induction Hrows as [|name r names records Hnr _ IH]; intros rws Hr.
  - inversion Hr. constructor.
  - inversion Hr as [|? row ? rws' [Hlen Hname] Hrest]; subst. constructor.
    + split; [done|]. destruct Hnr as (mon & areas & _ & -> & _). done.
    + by apply IH.
Qed.

(** ** Columns that are not resolved *)

Lemma cell_texts_none df recs : cell_texts df None recs = [].
Proof. unfold cell_texts. induction recs as [|row recs IH]; [done|]. by csimpl. Qed.

Lemma cell_values_none df recs : cell_values df None recs = [].
Proof.
  unfold cell_values. induction recs as [|row recs IH]; [done|].
  cbn [map cell_or_none]. rewrite filter_cons. by case_decide.
Qed.

Lemma per_employee_missing df cols name :
  (tl_col cols = None → team_leads (agg_of (per_employee df cols) name) = []) ∧
  (qa_col cols = None → assessors (agg_of (per_employee df cols) name) = []) ∧
  (comments_col cols = None → comments (agg_of (per_employee df cols) name) = []) ∧
  (sn_rating_col cols = None → sn_ratings (agg_of (per_employee df cols) name) = []) ∧
  (manual_grade_col cols = None → manual_grades (agg_of (per_employee df cols) name) = []).
Proof.
  rewrite per_employee_spec. case_decide; [done|].
  unfold extend_agg. simpl.
  split_and!; intros ->; by rewrite ?cell_texts_none, ?cell_values_none.
Qed.

Lemma synthesize_no_comments depth employee_name seed s text s' :
  synthesize_areas_to_improve depth [] employee_name seed s = (Ok text, s') → text = "".
Proof. unfold synthesize_areas_to_improve, ret. simpl. by intros [= <- <-]. Qed.

(** C6, amended. Under the conditions of C3, [generate_tracker] returns
    a table, and in each of its rows: Team Lead is empty when the
    team-lead column is resolved in neither table; Quality Assessors is
    empty when the assessor column is resolved in neither table; Areas
    to Improve is empty when the comments column is resolved in neither
    table; the Service Now count and average are empty when the rating
    column of the ticketing table is not resolved; the Manual count and
    average are empty when the grade column of the manual table is not
    resolved. When the name column is resolved in neither table, the
    table has no rows. *)
Theorem missing_columns_give_empty_fields depth manual_df sn_df month_n week_n seed s :
  (1 ≤ month_n ≤ 12)%Z →
  dates_readable manual_df → dates_readable sn_df →
  probes_never_rate_limited → valid_session s → (1 ≤ depth)%nat →
  let m_cols := extract_people_fields manual_df in
  let s_cols := extract_people_fields sn_df in
  ∃ out s',
    generate_tracker depth manual_df sn_df month_n week_n seed s = (Ok out, s') ∧
    (name_col m_cols = None → name_col s_cols = None → rows out = []) ∧
    ∀ row, row ∈ rows out →
      (tl_col m_cols = None → tl_col s_cols = None →
         field out row "Team Lead" = VStr "") ∧
      (qa_col m_cols = None → qa_col s_cols = None →
         field out row "Quality Assessors" = VStr "") ∧
      (comments_col m_cols = None → comments_col s_cols = None →
         field out row "Areas to Improve" = VStr "") ∧
      (sn_rating_col s_cols = None →
         field out row "Service Now Assessments Count" = VStr "" ∧
         field out row "Service Now Assessments Average Rating" = VStr "") ∧
      (manual_grade_col m_cols = None →
         field out row "Manual Assessments Count" = VStr "" ∧
         field out row "Manual Assessments Average Rating" = VStr "").
Proof.
  intros Hmonth Hdm Hds Hq Hvalid Hd m_cols s_cols.
  destruct (generate_tracker_total depth manual_df sn_df month_n week_n seed s)
    as (out & s' & Hrun); [done..|].
  exists out, s'. split; [done|].
  apply generate_tracker_rows in Hrun as (mdf & sdf & records & Hm & Hs & -> & Hrows).
  fold m_cols s_cols in Hrows. split.
  - intros Hnm Hns. rewrite Hnm, Hns in Hrows. simpl in Hrows.
    inversion Hrows. done.
  - intros row (r & -> & Hr)%list_elem_of_fmap.
    destruct (Forall2_elem_r _ _ _ _ Hrows Hr)
      as (name & _ & mon & areas & _ & -> & s1 & s2 & Hsyn).
    pose proof (tracker_frame_field records
      (row_of (per_employee mdf m_cols) (per_employee sdf s_cols) mon week_n name areas))
      as (_ & Htl & Hqa & Hsc & Hsa & Hmc & Hma & Har).
    rewrite Htl, Hqa, Hsc, Hsa, Hmc, Hma, Har. clear Htl Hqa Hsc Hsa Hmc Hma Har.
    destruct (per_employee_missing mdf m_cols name) as (Mtl & Mqa & Mcm & _ & Mmg).
    destruct (per_employee_missing sdf s_cols name) as (Stl & Sqa & Scm & Ssr & _).
    unfold row_of. cbn [r_team_lead r_quality_assessors r_areas r_sn_count r_sn_avg
                        r_manual_count r_manual_avg].
    split_and!.
    + intros H1 H2. by rewrite (Mtl H1), (Stl H2).
    + intros H1 H2. by rewrite (Mqa H1), (Sqa H2).
    + intros H1 H2. unfold comments_of in Hsyn. rewrite (Mcm H1), (Scm H2) in Hsyn.
      by apply synthesize_no_comments in Hsyn as ->.
    + intros H1. by rewrite (Ssr H1).
    + intros H1. by rewrite (Mmg H1).
Qed.

(** ** Trimming and case *)

Lemma app_cons c (s t : string) : String c s +:+ t = String c (s +:+ t).
Proof. done. Qed.

Lemma app_empty_l (t : string) : "" +:+ t = t.
Proof. done. Qed.

Lemma app_empty_r (s : string) : s +:+ "" = s.
Proof. induction s as [|c s IH]; [done|]. by rewrite app_cons, IH. Qed.

Lemma app_assoc_string (a b c : string) : (a +:+ b) +:+ c = a +:+ (b +:+ c).
Proof. induction a as [|x a IH]; [done|]. by rewrite !app_cons, IH. Qed.

Lemma rev_app_spec (s acc : string) : String.rev_app s acc = String.rev s +:+ acc.
Proof.
  unfold String.rev. revert acc. induction s as [|c s IH]; intros acc; simpl; [done|].
  rewrite (IH (String c acc)), (IH (String c "")), app_assoc_string. done.
Qed.

Lemma rev_app_distr (a b : string) : String.rev (a +:+ b) = String.rev b +:+ String.rev a.
Proof.
  induction a as [|c a IH].
  - by rewrite app_empty_l, app_empty_r.
  - rewrite app_cons. unfold String.rev at 1 3. simpl.
    rewrite !rev_app_spec, IH, app_assoc_string. done.
Qed.

Lemma all_space_app (a b : string) : all_space (a +:+ b) = all_space a && all_space b.
Proof.
  induction a as [|c a IH]; [done|]. rewrite app_cons. simpl. rewrite IH.
  by rewrite andb_assoc.
Qed.

Lemma all_space_rev (s : string) : all_space (String.rev s) = all_space s.
Proof.
  induction s as [|c s IH]; [done|].
  change (String c s) with (String c "" +:+ s) at 1.
  rewrite rev_app_distr, all_space_app, IH. simpl.
  rewrite andb_true_r. apply andb_comm.
Qed.

Lemma lstrip_all_space (s : string) : all_space s = true → lstrip s = "".
Proof.
  induction s as [|c s IH]; [done|]. simpl.
  intros [-> Hs]%andb_true_iff. by apply IH.
Qed.

Lemma lstrip_app_space (l x : string) : all_space l = true → lstrip (l +:+ x) = lstrip x.
Proof.
  induction l as [|c l IH]; [done|]. rewrite app_cons. simpl.
  intros [-> Hl]%andb_true_iff. by apply IH.
Qed.

Lemma rstrip_app_space (x r : string) : all_space r = true → rstrip (x +:+ r) = rstrip x.
Proof.
  intros Hr. unfold rstrip. rewrite rev_app_distr, lstrip_app_space; [done|].
  by rewrite all_space_rev.
Qed.

Lemma strip_app_space_r (c r : string) : all_space r = true → strip (c +:+ r) = strip c.
Proof.
  intros Hr. unfold strip. induction c as [|x c IH].
  - rewrite app_empty_l, lstrip_all_space by done. done.
  - rewrite app_cons. simpl. destruct (py_isspace x); [done|].
    rewrite <- app_cons. by apply rstrip_app_space.
Qed.

Lemma strip_padded (l c r : string) :
  all_space l = true → all_space r = true → strip (l +:+ c +:+ r) = strip c.
Proof.
  intros Hl Hr. unfold strip at 1. rewrite lstrip_app_space by done.
  by apply strip_app_space_r.
Qed.

Lemma py_isspace_lower_char c : py_isspace (lower_char c) = py_isspace c.
Proof. by destruct c as [[] [] [] [] [] [] [] []]. Qed.

Lemma lower_lstrip (s : string) : lower (lstrip s) = lstrip (lower s).
Proof.
  induction s as [|c s IH]; [done|]. simpl.
  rewrite py_isspace_lower_char. by destruct (py_isspace c).
Qed.

Lemma string_map_app f (a b : string) :
  string_map f (a +:+ b) = string_map f a +:+ string_map f b.
Proof. induction a as [|c a IH]; [done|]. rewrite app_cons. simpl. by rewrite IH. Qed.

Lemma lower_rev (s : string) : lower (String.rev s) = String.rev (lower s).
Proof.
  unfold lower. induction s as [|c s IH]; [done|].
  change (String c s) with (String c "" +:+ s) at 1.
  change (string_map lower_char (String c s))
    with (String (lower_char c) "" +:+ string_map lower_char s).
  by rewrite !rev_app_distr, string_map_app, IH.
Qed.

Lemma lower_strip (s : string) : lower (strip s) = strip (lower s).
Proof.
  unfold strip, rstrip. by rewrite lower_rev, lower_lstrip, lower_rev, lower_lstrip.
Qed.

Lemma same_letters_lower (a b : string) : same_letters a b → lower a = lower b.
Proof.
  revert b. induction a as [|c a IH]; intros [|d b]; try done.
  cbn [same_letters]. intros [Hc Hab]. unfold lower in *. cbn [string_map].
  by rewrite Hc, (IH b Hab).
Qed.

(** Names that differ only in case or surrounding whitespace have the
    same key. *)
Lemma build_employee_key_spec_same_name (a b : string) :
  same_name a b → build_employee_key_spec (VStr a) = build_employee_key_spec (VStr b).
Proof.
  intros (l1 & c1 & r1 & l2 & c2 & r2 & -> & -> & Hl1 & Hr1 & Hl2 & Hr2 & Hc).
  unfold build_employee_key_spec. simpl.
  rewrite !strip_padded, !lower_strip by done.
  by rewrite (same_letters_lower _ _ Hc).
Qed.

(** ** Records with the same key *)

Lemma Forall2_elem_l {A B} (P : A → B → Prop) l k x :
  Forall2 P l k → x ∈ l → ∃ y, y ∈ k ∧ P x y.
Proof.
  induction 1 as [|x' y l k Hxy _ IH]; intros Hx; [inversion Hx|].
  apply elem_of_cons in Hx as [->|Hx].
  - exists y. split; [left|done].
  - destruct (IH Hx) as (y' & Hy' & HP). exists y'. split; [by right|done].
Qed.

Lemma row_get_columns d row c v : row_get d row c = v → v ≠ VNone → columns d ≠ [].
Proof. unfold row_get. destruct (columns d); [|done]. simpl. congruence. Qed.

(** A record with a text name has the key of its name among the
    employee keys of its table and is read under that key. *)
Lemma record_key_present d cols name_c row a :
  name_col cols = Some name_c → label_truthy name_c = true →
  row ∈ rows d → row_get d row name_c = VStr a →
  build_employee_key (VStr a) ∈ employee_keys d (name_col cols) ∧
  row ∈ records_of d cols (build_employee_key (VStr a)).
Proof.
  intros Hcol Htruthy Hrow Hcell. split.
  - unfold employee_keys. rewrite Hcol, Htruthy.
    apply list_elem_of_fmap. exists (VStr a). split; [done|].
    apply list_elem_of_filter. split; [done|].
    unfold column_values. apply list_elem_of_fmap. by exists row.
  - unfold records_of. rewrite Hcol, Htruthy.
    assert (He : df_empty d = false).
    { unfold df_empty. pose proof (row_get_columns _ _ _ _ Hcell) as Hc.
      destruct (columns d); [by destruct Hc|].
      destruct (rows d); [inversion Hrow|done]. }
    rewrite He. simpl. apply list_elem_of_filter. split; [|done].
    by rewrite Hcell.
Qed.

(** Two records, one in each filtered table, whose names have the same
    key are behind one output row, named by that key. *)
Lemma records_share_row depth manual_df sn_df month_n week_n seed s out s' mdf sdf
    nc1 nc2 r1 r2 a b :
  generate_tracker depth manual_df sn_df month_n week_n seed s = (Ok out, s') →
  filtered manual_df month_n week_n = Ok mdf →
  filtered sn_df month_n week_n = Ok sdf →
  name_col (extract_people_fields manual_df) = Some nc1 → label_truthy nc1 = true →
  name_col (extract_people_fields sn_df) = Some nc2 → label_truthy nc2 = true →
  r1 ∈ rows mdf → row_get mdf r1 nc1 = VStr a →
  r2 ∈ rows sdf → row_get sdf r2 nc2 = VStr b →
  build_employee_key (VStr a) = build_employee_key (VStr b) →
  let k := build_employee_key (VStr a) in
  (∃ row, row ∈ rows out ∧ field out row "Employee Name" = VStr k) ∧
  r1 ∈ records_of mdf (extract_people_fields manual_df) k ∧
  r2 ∈ records_of sdf (extract_people_fields sn_df) k.
Proof.
  intros Hrun Hm Hs Hc1 Ht1 Hc2 Ht2 Hr1 Ha Hr2 Hb Hkey k.
  apply generate_tracker_rows in Hrun as (mdf' & sdf' & records & Hm' & Hs' & -> & Hrows).
  rewrite Hm in Hm'. rewrite Hs in Hs'. simplify_eq.
  destruct (record_key_present mdf' _ nc1 r1 a Hc1 Ht1 Hr1 Ha) as [Hk1 Hrec1].
  destruct (record_key_present sdf' _ nc2 r2 b Hc2 Ht2 Hr2 Hb) as [Hk2 Hrec2].
  rewrite <- Hkey in Hrec2. split; [|done].
  assert (Hin : k ∈ sorted_set
            (employee_keys mdf' (name_col (extract_people_fields manual_df)) ++
             employee_keys sdf' (name_col (extract_people_fields sn_df)))).
  { apply sorted_set_spec. apply elem_of_app. by left. }
  destruct (Forall2_elem_l _ _ _ _ Hrows Hin) as (r & Hr & mon & areas & _ & -> & _).
  eexists. split; [apply list_elem_of_fmap; by eexists|]. done.
Qed.


(** * Further properties of the modules *)

(** ** More on trimming and case *)

Lemma rev_involutive_string (s : string) : String.rev (String.rev s) = s.
Proof using Type.
  induction s as [|c s IH]; [done|].
  change (String c s) with (String c "" +:+ s) at 1.
  by rewrite rev_app_distr, rev_app_distr, IH.
Qed.

Lemma lstrip_split (s : string) : ∃ w, all_space w = true ∧ s = w +:+ lstrip s.
Proof using Type.
  induction s as [|c s (w & Hw & IH)]; [by exists ""|]. simpl.
  destruct (py_isspace c) eqn:Hc.
  - exists (String c w). simpl. rewrite Hc, Hw. split; [done|]. rewrite app_cons. f_equal. exact IH.
  - by exists "".
Qed.

Lemma lstrip_head (s : string) c r : lstrip s = String c r → py_isspace c = false.
Proof using Type.
  induction s as [|x s IH]; [done|]. simpl.
  destruct (py_isspace x) eqn:Hx; [done|]. by intros [= <- <-].
Qed.

Lemma lstrip_fixed (s : string) c r : s = String c r → py_isspace c = false → lstrip s = s.
Proof using Type. intros -> Hc. simpl. by rewrite Hc. Qed.

Lemma lstrip_idem (s : string) : lstrip (lstrip s) = lstrip s.
Proof using Type.
  destruct (lstrip s) as [|c r] eqn:Hs; [done|].
  eapply lstrip_fixed; [done|]. by eapply lstrip_head.
Qed.

Lemma rstrip_split (s : string) : ∃ w, all_space w = true ∧ s = rstrip s +:+ w.
Proof using Type.
  destruct (lstrip_split (String.rev s)) as (w & Hw & Hs).
  exists (String.rev w). split; [by rewrite all_space_rev|].
  unfold rstrip. rewrite <- rev_app_distr, <- Hs. by rewrite rev_involutive_string.
Qed.

Lemma rstrip_idem (s : string) : rstrip (rstrip s) = rstrip s.
Proof using Type. unfold rstrip. by rewrite rev_involutive_string, lstrip_idem. Qed.

Lemma lstrip_rstrip (s : string) : lstrip s = s → lstrip (rstrip s) = rstrip s.
Proof using Type.
  intros Hs. destruct (rstrip_split s) as (w & _ & Hsplit).
  destruct (rstrip s) as [|c r] eqn:Hr; [done|].
  rewrite Hsplit, app_cons in Hs.
  eapply lstrip_fixed; [done|]. by eapply lstrip_head.
Qed.

(** Trimming twice is trimming once. *)
Lemma strip_idem (s : string) : strip (strip s) = strip s.
Proof using Type.
  unfold strip. rewrite (lstrip_rstrip (lstrip s)) by apply lstrip_idem.
  apply rstrip_idem.
Qed.

Lemma upper_lower_char c : upper_char (lower_char c) = upper_char c.
Proof using Type. by destruct c as [[] [] [] [] [] [] [] []]. Qed.

Lemma py_isspace_upper_char c : py_isspace (upper_char c) = py_isspace c.
Proof using Type. by destruct c as [[] [] [] [] [] [] [] []]. Qed.

Lemma upper_lstrip (s : string) : upper (lstrip s) = lstrip (upper s).
Proof using Type.
  induction s as [|c s IH]; [done|]. simpl.
  rewrite py_isspace_upper_char. by destruct (py_isspace c).
Qed.

Lemma upper_rev (s : string) : upper (String.rev s) = String.rev (upper s).
Proof using Type.
  unfold upper. induction s as [|c s IH]; [done|].
  change (String c s) with (String c "" +:+ s) at 1.
  change (string_map upper_char (String c s))
    with (String (upper_char c) "" +:+ string_map upper_char s).
  by rewrite !rev_app_distr, string_map_app, IH.
Qed.

Lemma upper_strip (s : string) : upper (strip s) = strip (upper s).
Proof using Type.
  unfold strip, rstrip. by rewrite upper_rev, upper_lstrip, upper_rev, upper_lstrip.
Qed.

Lemma same_letters_upper (a b : string) : same_letters a b → upper a = upper b.
Proof using Type.
  revert b. induction a as [|c a IH]; intros [|d b]; try done.
  cbn [same_letters]. intros [Hc Hab]. unfold upper in *. cbn [string_map].
  rewrite <- (upper_lower_char c), Hc, upper_lower_char. by rewrite (IH b Hab).
Qed.

(** ** data_handler: normalized values *)

(** X1. The text [_norm] gives is trimmed, and [_norm] gives it back
    unchanged when applied to it; [_norm] has no text exactly for [None],
    NaN and timestamps. *)
Theorem norm_value_trimmed :
  (∀ v t, _norm v = Some t → strip t = t ∧ _norm (VStr t) = Some t) ∧
  (∀ v, _norm v = None ↔ v = VNone ∨ v = VNaN ∨ ∃ d, v = VStamp d).
Proof using Type.
  split.
  - intros v t Hv.
    assert (Ht : strip t = t).
    { destruct v; simpl in Hv; simplify_eq; apply strip_idem. }
    split; [done|]. simpl. by rewrite Ht.
  - intros v. split.
    + destruct v; simpl; try done; eauto.
    + intros [->|[->|[d ->]]]; done.
Qed.

(** ** data_handler: candidates of a column *)

Lemma first_candidate_by_keys key (m : gmap string label) cands :
  first_candidate key m cands = first_candidate id m (map key cands).
Proof using Type.
  induction cands as [|c cands IH]; [done|]. simpl.
  destruct (m !! key c); [done|apply IH].
Qed.

(** X2. Candidates are compared in lower case and trimmed: two lists of
    candidates that agree, entry by entry, up to letter case and
    surrounding whitespace pick the same column of every frame. *)
Theorem pick_first_available_column_candidates df (c1 c2 : list string) :
  map norm c1 = map norm c2 →
  pick_first_available_column df c1 = pick_first_available_column df c2.
Proof using Type.
  intros Hc. unfold pick_first_available_column.
  destruct df as [d|]; [|done]. destruct (df_empty d); [done|].
  cbv zeta.
  rewrite (first_candidate_by_keys norm _ c1), (first_candidate_by_keys norm _ c2), Hc.
  rewrite (first_candidate_by_keys norm_simple _ c1), (first_candidate_by_keys norm_simple _ c2).
  assert (Hs : map norm_simple c1 = map norm_simple c2).
  { change norm_simple with (λ s, string_filter is_lower (norm s)).
    rewrite <- !(map_map norm (string_filter is_lower)). by rewrite Hc. }
  by rewrite Hs.
Qed.

(** ** data_handler: weeks of a month *)

Lemma weekday_range (d : date) : (0 ≤ weekday d < 7)%Z.
Proof using Type. unfold weekday. apply Z.mod_pos_bound. lia. Qed.

Lemma days_from_civil_day y m d :
  days_from_civil (Date y m d) = (days_from_civil (Date y m 1) + (d - 1))%Z.
Proof using Type. unfold days_from_civil. simpl. lia. Qed.

Lemma weekday_in_month y m d :
  weekday (Date y m d) = ((weekday (Date y m 1) + (d - 1)) mod 7)%Z.
Proof using Type.
  unfold weekday. rewrite (days_from_civil_day y m d).
  rewrite Zplus_mod_idemp_l. f_equal. lia.
Qed.

(** X3. The first day of a month is in week 1, and every day of a month
    is in one of the weeks 1 to 6. *)
Theorem week_of_month_range :
  (∀ y m, week_of_month (Date y m 1) = 1%Z) ∧
  (∀ d, (1 ≤ day d ≤ 31)%Z → (1 ≤ week_of_month d ≤ 6)%Z).
Proof using Type.
  split.
  - intros y m. unfold week_of_month. simpl.
    pose proof (weekday_range (Date y m 1)) as Hw.
    symmetry. apply Z.div_unique with (r := weekday (Date y m 1)); lia.
  - intros d Hd. unfold week_of_month.
    pose proof (weekday_range (Date (year d) (month d) 1)) as Hw.
    cbv zeta. split.
    + apply Z.div_le_lower_bound; lia.
    + apply Z.lt_succ_r. apply Z.div_lt_upper_bound; lia.
Qed.

(** X4. Weeks run from Monday to Sunday: from one day of a month to the
    next, the week of the month goes up by one when the next day is a
    Monday and stays the same otherwise. *)
Theorem week_of_month_advances_on_monday y m d :
  week_of_month (Date y m (d + 1)) =
    (week_of_month (Date y m d)
     + (if (weekday (Date y m (d + 1)) =? 0)%Z then 1 else 0))%Z.
Proof using Type.
  rewrite (weekday_in_month y m (d + 1)). unfold week_of_month. simpl.
  pose proof (weekday_range (Date y m 1)) as Hw.
  set (w := weekday (Date y m 1)) in *.
  replace (w + (d + 1 - 1))%Z with (d + w)%Z by lia.
  pose proof (Z.div_mod (d + w) 7 ltac:(lia)) as Hdm.
  pose proof (Z.mod_pos_bound (d + w) 7 ltac:(lia)) as Hr.
  set (q := ((d + w) / 7)%Z) in *. set (r := ((d + w) mod 7)%Z) in *.
  replace (d + 1 + w + 6)%Z with (7 * (q + 1) + r)%Z by lia.
  replace (d + w + 6)%Z with (7 * q + (r + 6))%Z by lia.
  assert (Hdiv : ∀ k j, (0 ≤ j < 7)%Z → ((7 * k + j) / 7 = k)%Z).
  { intros k j Hj. symmetry. apply Z.div_unique with (r := j); lia. }
  destruct (Z.eqb_spec r 0) as [Hr0|Hr0].
  - rewrite Hr0. rewrite !Hdiv by lia. done.
  - replace (7 * (q + 1) + r)%Z with (7 * (q + 1) + r)%Z by lia.
    replace (7 * q + (r + 6))%Z with (7 * (q + 1) + (r - 1))%Z by lia.
    rewrite !Hdiv by lia. lia.
Qed.

(** ** data_handler: letter grades *)

Lemma letter_grade_score_range (v : pyval) (x : Q) :
  letter_grade_to_score v = Some x → (0 <= x <= 5)%Q.
Proof using Type.
  unfold letter_grade_to_score.
  destruct (isna v); [done|]. intros Hx%assoc_get_elem.
  unfold grade_scale in Hx.
  repeat (apply elem_of_cons in Hx as [->|Hx]; [by split|]).
  inversion Hx.
Qed.

(** X5. The score of a letter grade does not depend on the case of its
    letters or on whitespace around it; a score lies between 0 and 5;
    a missing grade has no score. *)
Theorem letter_grade_to_score_spec :
  (∀ a b, same_name a b →
     letter_grade_to_score (VStr a) = letter_grade_to_score (VStr b)) ∧
  (∀ v x, letter_grade_to_score v = Some x → (0 <= x <= 5)%Q) ∧
  (∀ v, isna v = true → letter_grade_to_score v = None).
Proof using Type.
  split_and!.
  - intros a b (l1 & c1 & r1 & l2 & c2 & r2 & -> & -> & Hl1 & Hr1 & Hl2 & Hr2 & Hc).
    unfold letter_grade_to_score. simpl.
    rewrite !strip_padded, !upper_strip by done.
    by rewrite (same_letters_upper _ _ Hc).
  - apply letter_grade_score_range.
  - intros v Hv. unfold letter_grade_to_score. by rewrite Hv.
Qed.


(** ** data_handler: averages *)

Lemma Qsum_Permutation (l l' : list Q) : l ≡ₚ l' → (Qsum l == Qsum l')%Q.
Proof using Type.
  induction 1 as [|x l l' _ IH|x y l|l l' l'' _ IH1 _ IH2]; simpl.
  - reflexivity.
  - by rewrite IH.
  - ring.
  - by rewrite IH1.
Qed.

Lemma mean_Permutation (l l' : list Q) : l ≡ₚ l' → (mean l == mean l')%Q.
Proof using Type.
  intros Hp. unfold mean. rewrite (Qsum_Permutation _ _ Hp).
  by rewrite (Permutation_length Hp).
Qed.

Lemma round_half_even_Qeq (t t' : Q) : (t == t')%Q → round_half_even t = round_half_even t'.
Proof using Type.
  intros Ht. unfold round_half_even. rewrite (Qfloor_comp _ _ Ht).
  cbv zeta.
  assert (Hc : ((t - inject_Z (Qfloor t')) ?= (1 # 2))%Q
               = ((t' - inject_Z (Qfloor t')) ?= (1 # 2))%Q).
  { apply Qcompare_comp; [by rewrite Ht|reflexivity]. }
  by rewrite Hc.
Qed.

Lemma round2_Qeq (x y : Q) : (x == y)%Q → round2 x = round2 y.
Proof using Type.
  intros Hxy. unfold round2. apply Qred_complete.
  rewrite (round_half_even_Qeq (x * 100) (y * 100)); [reflexivity|by rewrite Hxy].
Qed.

Lemma rounded_mean_Permutation (l l' : list Q) :
  l ≡ₚ l' →
  match l with [] => None | _ => Some (round2 (mean l)) end
  = match l' with [] => None | _ => Some (round2 (mean l')) end.
Proof using Type.
  intros Hp. destruct l as [|x l].
  - apply Permutation_nil_l in Hp. by subst.
  - destruct l' as [|x' l'].
    + by apply Permutation_nil_r in Hp.
    + f_equal. by apply round2_Qeq, mean_Permutation.
Qed.

(** With exact arithmetic, the average of a series of grades does not
    depend on the order of its entries. *)
Lemma average_of_grades_order (series series' : list pyval) :
  series ≡ₚ series' → average_of_grades series = average_of_grades series'.
Proof using Type.
  intros Hp. rewrite !average_of_grades_cases.
  pose proof (omap_Permutation to_numeric _ _ Hp) as Hn.
  pose proof (omap_Permutation letter_grade_to_score _ _ Hp) as Hl.
  pose proof (rounded_mean_Permutation _ _ Hn) as Hrn.
  pose proof (rounded_mean_Permutation _ _ Hl) as Hrl.
  destruct (omap to_numeric series) as [|x l] eqn:E1.
  - apply Permutation_nil_l in Hn. rewrite <- Hn.
    destruct (omap letter_grade_to_score series), (omap letter_grade_to_score series');
      done.
  - destruct (omap to_numeric series') as [|x' l'] eqn:E2; done.
Qed.

Lemma Qsum_between (lo hi : Q) (l : list Q) :
  (∀ x, x ∈ l → lo <= x <= hi)%Q →
  (lo * inject_Z (Z.of_nat (length l)) <= Qsum l
   ∧ Qsum l <= hi * inject_Z (Z.of_nat (length l)))%Q.
Proof using Type.
  induction l as [|x l IH]; intros Hall.
  - simpl. split; apply Qle_lteq; right; ring.
  - destruct (Hall x) as [Hlo Hhi]; [left|].
    destruct IH as [IHlo IHhi]; [intros y Hy; apply Hall; by right|].
    cbn [length Qsum foldr]. rewrite Nat2Z.inj_succ, <- Z.add_1_r, inject_Z_plus.
    change (inject_Z 1) with 1%Q. fold (Qsum l). split; lra.
Qed.

Lemma mean_between (lo hi : Q) (l : list Q) :
  l ≠ [] → (∀ x, x ∈ l → lo <= x <= hi)%Q → (lo <= mean l <= hi)%Q.
Proof using Type.
  intros Hne Hall. destruct (Qsum_between lo hi l Hall) as [Hlo Hhi].
  unfold mean.
  assert (Hn : (0 < inject_Z (Z.of_nat (length l)))%Q).
  { change 0%Q with (inject_Z 0). rewrite <- Zlt_Qlt. destruct l; [done|simpl; lia]. }
  split.
  - apply Qle_shift_div_l; [done|]. done.
  - apply Qle_shift_div_r; [done|]. done.
Qed.

Lemma round_half_even_between (a b : Z) (t : Q) :
  (inject_Z a <= t <= inject_Z b)%Q → (a ≤ round_half_even t ≤ b)%Z.
Proof using Type.
  intros [Ha Hb]. unfold round_half_even.
  pose proof (Qfloor_le t) as Hlo.
  assert (Hfa : (a ≤ Qfloor t)%Z).
  { rewrite <- (Qfloor_Z a). by apply Qfloor_resp_le. }
  assert (Hfb : (Qfloor t ≤ b)%Z).
  { rewrite <- (Qfloor_Z b). by apply Qfloor_resp_le. }
  assert (Hstep : (inject_Z (Qfloor t) < t)%Q → (Qfloor t + 1 ≤ b)%Z).
  { intros Hlt. assert (Hfl : (Qfloor t < b)%Z); [|lia].
    rewrite Zlt_Qlt. eapply Qlt_le_trans; done. }
  cbv zeta.
  destruct (Qcompare_spec (t - inject_Z (Qfloor t)) (1 # 2)) as [He|Hl|Hg].
  - destruct (Z.even (Qfloor t)); [lia|].
    split; [lia|]. apply Hstep. lra.
  - lia.
  - split; [lia|]. apply Hstep. lra.
Qed.

Lemma round2_between (a b : Z) (x : Q) :
  (inject_Z a <= x <= inject_Z b)%Q → (inject_Z a <= round2 x <= inject_Z b)%Q.
Proof using Type.
  intros [Ha Hb]. unfold round2. rewrite Qred_correct.
  destruct (round_half_even_between (a * 100) (b * 100) (x * 100)) as [Hlo Hhi].
  { rewrite !inject_Z_mult. change (inject_Z 100) with 100%Q. split; lra. }
  rewrite Zle_Qle, inject_Z_mult in Hlo. rewrite Zle_Qle, inject_Z_mult in Hhi.
  change (inject_Z 100) with 100%Q in Hlo, Hhi.
  split.
  - apply Qle_shift_div_l; [done|]. done.
  - apply Qle_shift_div_r; [done|]. done.
Qed.



(** ** data_handler: the text received from the service *)

Lemma remove_all_absent (p s : string) : contains p s = false → remove_all p s = s.
Proof using Type.
  unfold remove_all. destruct (String.eqb p ""); [done|].
  induction s as [|c s IH]; [done|].
  cbn [contains remove_all_from]. intros [Hp Hs]%orb_false_iff.
  rewrite Hp. f_equal. by apply IH.
Qed.

Lemma contains_all_space (p s : string) c r :
  p = String c r → py_isspace c = false → all_space s = true → contains p s = false.
Proof using Type.
  intros -> Hc. induction s as [|x s IH]; [done|].
  cbn [all_space contains]. intros [Hx Hs]%andb_true_iff.
  rewrite (IH Hs), orb_false_r. simpl.
  destruct (Ascii.ascii_dec c x) as [->|Hne]; [congruence|done].
Qed.

(** X7. The cleaned text of a reply is trimmed; a reply that holds none
    of the stock opening phrases is only trimmed; a reply made of
    whitespace alone becomes the empty text. *)
Theorem clean_output_spec :
  (∀ text, strip (clean_output text) = clean_output text) ∧
  (∀ text, (∀ p, p ∈ output_prefixes → contains p text = false) →
     clean_output text = strip text) ∧
  (∀ text, all_space text = true → clean_output text = "").
Proof using Type.
  assert (Hplain : ∀ text, (∀ p, p ∈ output_prefixes → contains p text = false) →
                           clean_output text = strip text).
  { intros text Hnone. unfold clean_output.
    destruct (String.eqb_spec text "") as [->|_]; [done|]. f_equal.
    induction output_prefixes as [|p ps IH]; [done|].
    cbn [foldl]. rewrite remove_all_absent by (apply Hnone; left).
    apply IH. intros q Hq. apply Hnone. by right. }
  split_and!.
  - intros text. unfold clean_output.
    destruct (String.eqb text ""); [done|]. apply strip_idem.
  - apply Hplain.
  - intros text Hsp. rewrite Hplain.
    + unfold strip. by rewrite lstrip_all_space.
    + intros p Hp. unfold output_prefixes in Hp.
      repeat (apply elem_of_cons in Hp as [->|Hp];
              [by eapply contains_all_space|]).
      inversion Hp.
Qed.

(** ** groq_client: the keys of the environment *)

Lemma unique_keys_spec (seen l : list string) (k : string) :
  k ∈ unique_keys seen l ↔ k ∈ l ∧ k ∉ seen.
Proof using Type.
  revert seen. induction l as [|x l IH]; intros seen; simpl.
  - split; [inversion 1|intros [H _]; inversion H].
  - case_bool_decide as Hx.
    + rewrite IH. rewrite elem_of_cons. split.
      * intros [Hk Hn]. split; [by right|done].
      * intros [[->|Hk] Hn]; [done|done].
    + rewrite elem_of_cons, IH, !elem_of_cons. split.
      * intros [->|[Hk Hn]]; [by split; [left|]|]. split; [by right|].
        intros Hin. apply Hn. by right.
      * intros [[->|Hk] Hn]; [by left|].
        destruct (decide (k = x)) as [->|Hne]; [by left|]. right. split; [done|].
        intros [?|?]; [done|by apply Hn].
Qed.

Lemma unique_keys_NoDup (seen l : list string) : NoDup (unique_keys seen l).
Proof using Type.
  revert seen. induction l as [|x l IH]; intros seen; simpl; [constructor|].
  case_bool_decide; [apply IH|]. constructor; [|apply IH].
  rewrite unique_keys_spec. intros [_ Hn]. apply Hn. left.
Qed.

Lemma unique_keys_length (seen l : list string) :
  (length (unique_keys seen l) ≤ length l)%nat.
Proof using Type.
  revert seen. induction l as [|x l IH]; intros seen; simpl; [done|].
  case_bool_decide; simpl.
  - specialize (IH seen). lia.
  - specialize (IH (x :: seen)). lia.
Qed.

(** X8. The keys read from the environment are the trimmed values of
    the variables GROQ_API_KEY_1 to GROQ_API_KEY_20 that are not blank,
    each listed once; there are at most twenty of them. *)
Theorem get_api_keys_from_env_spec :
  NoDup get_api_keys_from_env ∧
  (∀ key, key ∈ get_api_keys_from_env ↔
     key ≠ "" ∧ ∃ i, (1 ≤ i ≤ 20)%nat ∧ key = strip (getenv ("GROQ_API_KEY_" +:+ pretty i))) ∧
  (∀ key, key ∈ get_api_keys_from_env → strip key = key) ∧
  (length get_api_keys_from_env ≤ 20)%nat.
Proof using Type.
  assert (Hin : ∀ key, key ∈ get_api_keys_from_env ↔
     key ≠ "" ∧ ∃ i, (1 ≤ i ≤ 20)%nat ∧ key = strip (getenv ("GROQ_API_KEY_" +:+ pretty i))).
  { intros key. unfold get_api_keys_from_env. rewrite unique_keys_spec.
    rewrite list_elem_of_filter, list_elem_of_fmap. split.
    - intros [[Hne (i & -> & Hi)] _]. split; [done|]. exists i. split; [|done].
      apply elem_of_seq in Hi. lia.
    - intros [Hne (i & Hi & ->)]. split; [|inversion 1]. split; [done|].
      exists i. split; [done|]. apply elem_of_seq. lia. }
  split_and!.
  - apply unique_keys_NoDup.
  - apply Hin.
  - intros key (_ & i & _ & ->)%Hin. apply strip_idem.
  - unfold get_api_keys_from_env. etrans; [apply unique_keys_length|].
    etrans; [apply length_filter|]. by rewrite length_map, length_seq.
Qed.

(** ** groq_client: rate-limit messages *)

Lemma prefix_app_r (p s t : string) :
  String.prefix p s = true → String.prefix p (s +:+ t) = true.
Proof using Type.
  revert s. induction p as [|c p IH]; intros s; [intros _; by destruct (s +:+ t)|].
  destruct s as [|d s]; [done|]. rewrite app_cons. simpl.
  destruct (Ascii.ascii_dec c d); [|done]. apply IH.
Qed.

Lemma contains_app_r (p s t : string) :
  contains p s = true → contains p (s +:+ t) = true.
Proof using Type.
  induction s as [|c s IH].
  - simpl. rewrite orb_false_r. intros Hp. rewrite app_empty_l.
    destruct p; [by destruct t|done].
  - cbn [contains]. rewrite app_cons. cbn [contains].
    intros [Hp|Hs]%orb_true_iff.
    + apply (prefix_app_r _ _ t) in Hp. rewrite app_cons in Hp. by rewrite Hp.
    + rewrite (IH Hs). apply orb_true_r.
Qed.

Lemma contains_app_l (p s t : string) :
  contains p s = true → contains p (t +:+ s) = true.
Proof using Type.
  intros Hs. induction t as [|c t IH]; [done|].
  rewrite app_cons. cbn [contains]. rewrite IH. apply orb_true_r.
Qed.

Lemma same_letters_empty (a b : string) : same_letters a b → (a = "" ↔ b = "").
Proof using Type. destruct a, b; simpl; done. Qed.

(** X9. Whether a message reports a rate limit does not depend on the
    case of its letters, and a message that holds a rate-limit message
    reports one too; the empty message reports none. *)
Theorem is_rate_limit_error_spec :
  (∀ a b, same_letters a b → is_rate_limit_error a = is_rate_limit_error b) ∧
  (∀ pre msg post, is_rate_limit_error msg = true →
     is_rate_limit_error (pre +:+ msg +:+ post) = true) ∧
  is_rate_limit_error "" = false.
Proof using Type.
  split_and!; [| |done].
  - intros a b Hab. unfold is_rate_limit_error.
    rewrite (same_letters_lower _ _ Hab).
    pose proof (same_letters_empty _ _ Hab) as He.
    destruct (String.eqb_spec a "") as [Ha|Ha], (String.eqb_spec b "") as [Hb|Hb]; try done.
    + by apply He in Ha.
    + by apply He in Hb.
  - intros pre msg post. unfold is_rate_limit_error.
    destruct (String.eqb_spec msg "") as [->|Hne]; [done|].
    intros Hmsg.
    destruct (String.eqb_spec (pre +:+ msg +:+ post) "") as [He|_].
    { exfalso. destruct pre; [|done]. rewrite app_empty_l in He.
      destruct msg; done. }
    apply existsb_exists in Hmsg as (p & Hp & Hc).
    apply existsb_exists. exists p. split; [done|].
    unfold lower in *. rewrite !string_map_app.
    by apply contains_app_l, contains_app_r.
Qed.


(** ** groq_client: what an acquisition does to the session *)

Lemma probe_key_run i key on_success s r s' :
  (∀ s0, ∃ s1, on_success s0 = (Ok tt, s1) ∧ clock s1 = clock s0) →
  probe_key i key on_success s = (r, s') →
  clock s' = S (clock s) ∧
  ((r = Ok (Some key) ∧ on_success (tick s) = (Ok tt, s')) ∨
   (r = Ok None ∧ groq_key_index s' = groq_key_index s)).
Proof using Type.
  intros Hon. unfold probe_key, try_except, bind, key_test, ret.
  destruct (models_list (clock s) key) as [msg|].
  - simpl. destruct (is_rate_limit_error msg); unfold set_limit;
      intros [= <- <-]; (split; [done|by right]).
  - destruct (Hon (tick s)) as (s1 & Hs1 & Hc). rewrite Hs1.
    intros [= <- <-]. split; [by rewrite Hc|by left].
Qed.

Lemma try_other_keys_run keys cur offsets s r s' :
  (groq_key_index s < length keys)%nat →
  try_other_keys keys cur offsets s = (r, s') →
  (groq_key_index s' < length keys)%nat ∧
  (clock s ≤ clock s' ≤ clock s + length offsets)%nat.
Proof using Type.
  revert s. induction offsets as [|i rest IH]; intros s Hidx; simpl.
  - unfold ret. intros [= <- <-]. lia.
  - destruct (keys !! ((cur + i) mod length keys)%nat) as [next_key|] eqn:Hk.
    2:{ unfold raise. intros [= <- <-]. lia. }
    unfold bind at 1, get_session.
    destruct (negb (String.eqb next_key "") && negb (limit_of s _)).
    2:{ intros Hrun. destruct (IH s Hidx Hrun). lia. }
    unfold bind at 1.
    destruct (probe_key _ next_key _ s) as [found s1] eqn:Hprobe.
    apply probe_key_run in Hprobe as [Hclock [[-> Hset]|[-> Hsame]]].
    + unfold ret. intros [= <- <-]. unfold set_key_index in Hset. simplify_eq.
      simpl. split; [|lia]. apply Nat.mod_upper_bound. lia.
    + intros Hrun. destruct (IH s1 ltac:(lia) Hrun). lia.
    + intros s0. by eexists.
Qed.

Lemma get_next_groq_client_body_run recur (bound : nat) s r s' :
  (∀ s0 r0 s0', (groq_key_index s0 < length get_api_keys_from_env)%nat →
     recur s0 = (r0, s0') →
     (groq_key_index s0' < length get_api_keys_from_env)%nat ∧
     (clock s0 ≤ clock s0' ≤ clock s0 + bound)%nat) →
  valid_session s →
  get_next_groq_client_body recur s = (r, s') →
  valid_session s' ∧
  (clock s ≤ clock s' ≤ clock s + (length get_api_keys_from_env + bound))%nat.
Proof using Type.
  intros Hrec Hvalid. unfold get_next_groq_client_body, valid_session in *.
  destruct get_api_keys_from_env as [|k0 ks] eqn:Hkeys.
  { unfold ret. intros [= <- <-]. split; [by left|lia]. }
  destruct Hvalid as [?|Hidx]; [done|].
  unfold bind at 1, get_session.
  destruct ((k0 :: ks) !! groq_key_index s) as [current_key|] eqn:Hcur.
  2:{ unfold raise. intros [= <- <-]. split; [by right|lia]. }
  unfold bind at 1.
  assert (Hfirst : ∃ first s1,
    (if negb (String.eqb current_key "") && negb (limit_of s (groq_key_index s))
     then probe_key (groq_key_index s) current_key (ret tt) else ret None) s = (first, s1) ∧
    groq_key_index s1 = groq_key_index s ∧ (clock s ≤ clock s1 ≤ clock s + 1)%nat ∧
    (first = Ok None ∨ first = Ok (Some current_key))).
  { destruct (negb (String.eqb current_key "") && negb (limit_of s (groq_key_index s))).
    - destruct (probe_key _ current_key _ s) as [found s1] eqn:Hprobe.
      exists found, s1. split; [done|].
      apply probe_key_run in Hprobe as [Hclock [[-> Hret]|[-> Hsame]]].
      + unfold ret in Hret. simplify_eq. simpl. split; [done|]. split; [lia|by right].
      + split; [done|]. split; [lia|by left].
      + intros s0. by eexists.
    - eexists _, _. split; [done|]. split; [done|]. split; [lia|by left]. }
  destruct Hfirst as (first & s1 & -> & Hidx1 & Hclock1 & [->| ->]).
  2:{ unfold ret. intros [= <- <-]. split; [right; lia|simpl in *; lia]. }
  unfold bind at 1.
  destruct (try_other_keys (k0 :: ks) (groq_key_index s) _ s1) as [other s2] eqn:Hother.
  apply try_other_keys_run in Hother as [Hidx2 Hclock2]; [|lia].
  rewrite length_seq in Hclock2. cbn [length] in *.
  destruct other as [[client|]|e].
  - unfold ret. intros [= <- <-]. split; [by right|lia].
  - unfold bind at 1, get_session.
    destruct (forallb (limit_of s2) _).
    + unfold bind, reset_limits, set_key_index. intros Hr.
      apply Hrec in Hr as [Hi Hc]; [|simpl; lia]. simpl in Hc.
      split; [by right|lia].
    + unfold ret. intros [= <- <-]. split; [by right|lia].
  - intros [= <- <-]. split; [by right|lia].
Qed.

Lemma get_next_groq_client_run depth s r s' :
  valid_session s →
  get_next_groq_client depth s = (r, s') →
  valid_session s' ∧
  (clock s ≤ clock s' ≤ clock s + length get_api_keys_from_env * S depth)%nat.
Proof using Type.
  revert s r s'. induction depth as [|depth IH]; intros s r s' Hvalid;
    rewrite get_next_groq_client_eq; intros Hrun.
  - apply (get_next_groq_client_body_run _ 0) in Hrun as [Hv Hc]; [|..|done].
    + split; [done|lia].
    + intros s0 r0 s0' Hi. unfold raise. intros [= <- <-]. lia.
  - apply (get_next_groq_client_body_run _ (length get_api_keys_from_env * S depth))
      in Hrun as [Hv Hc]; [|..|done].
    + split; [done|lia].
    + intros s0 r0 s0' Hi Hr. apply IH in Hr as [Hv Hc]; [|by right].
      split; [|done]. destruct Hv as [Hnil|]; [|done]. rewrite Hnil in Hi. simpl in Hi. lia.
Qed.

(** X10. Whatever the service answers, an acquisition keeps the stored
    key index inside the list of keys and makes a bounded number of
    remote calls: at most one probe of each key in each of its rounds. A
    completion adds at most one call and keeps the index valid too. *)
Theorem acquisition_keeps_index_valid :
  (∀ depth s r s', valid_session s →
     get_next_groq_client depth s = (r, s') →
     valid_session s' ∧
     (clock s ≤ clock s' ≤ clock s + length get_api_keys_from_env * S depth)%nat) ∧
  (∀ depth prompt system s r s', valid_session s →
     groq_chat_completion depth prompt system s = (r, s') →
     valid_session s' ∧
     (clock s ≤ clock s' ≤ clock s + length get_api_keys_from_env * S depth + 1)%nat).
Proof using Type.
  split; [apply get_next_groq_client_run|].
  intros depth prompt system s r s' Hvalid Hrun.
  pose proof (groq_chat_completion_cases depth prompt system s) as Hcases.
  destruct (get_next_groq_client depth s) as [[[key|]|e] s1] eqn:Hget;
    apply get_next_groq_client_run in Hget as [Hv1 Hc1]; try done.
  - destruct (chat_create _ _ _ _) as [msg|[|first rest]];
      rewrite Hcases in Hrun; injection Hrun as <- <-.
    + destruct (is_rate_limit_error msg); (split; [done|simpl; lia]).
    + split; [done|simpl; lia].
    + split; [done|simpl; lia].
  - rewrite Hcases in Hrun. injection Hrun as <- <-. split; [done|lia].
  - rewrite Hcases in Hrun. injection Hrun as <- <-. split; [done|lia].
Qed.

(** X11. A stored key index that points past the keys of the
    environment makes the acquisition raise [IndexError]; the completion
    calls the acquisition outside its [try], so the exception reaches
    the caller of [groq_chat_completion] and of
    [synthesize_areas_to_improve]. *)
Theorem stale_key_index_raises depth s :
  get_api_keys_from_env ≠ [] →
  (length get_api_keys_from_env ≤ groq_key_index s)%nat →
  get_next_groq_client depth s = (Raise IndexError, s) ∧
  (∀ prompt system, groq_chat_completion depth prompt system s = (Raise IndexError, s)) ∧
  (∀ all_comments employee_name seed_examples,
     cleaned_bits all_comments ≠ [] →
     synthesize_areas_to_improve depth all_comments employee_name seed_examples s
       = (Raise IndexError, s)).
Proof using Type.
  intros Hne Hidx.
  assert (Hget : get_next_groq_client depth s = (Raise IndexError, s)).
  { rewrite get_next_groq_client_eq. unfold get_next_groq_client_body.
    destruct get_api_keys_from_env as [|k0 ks] eqn:Hkeys; [done|].
    unfold bind, get_session. by rewrite (lookup_ge_None_2 _ _ Hidx). }
  assert (Hchat : ∀ prompt system,
            groq_chat_completion depth prompt system s = (Raise IndexError, s)).
  { intros prompt system. unfold groq_chat_completion, bind. by rewrite Hget. }
  split_and!; [done|done|].
  intros all_comments employee_name seed_examples Hbits.
  unfold synthesize_areas_to_improve.
  destruct (cleaned_bits all_comments); [done|apply Hchat].
Qed.

(** X12. While the current key is not marked and its probe goes
    through, the acquisition hands out the client of the current key
    after that one remote call and leaves the index and the marks alone:
    no other key is tried. *)
Theorem working_key_is_kept depth s key :
  get_api_keys_from_env !! groq_key_index s = Some key →
  limit_of s (groq_key_index s) = false →
  models_list (clock s) key = None →
  get_next_groq_client depth s = (Ok (Some key), tick s).
Proof using Type.
  intros Hk Hlim Hm. rewrite get_next_groq_client_eq. unfold get_next_groq_client_body.
  destruct get_api_keys_from_env as [|k0 ks] eqn:Hkeys; [done|].
  unfold bind at 1, get_session. rewrite Hk.
  assert (Hne : String.eqb key "" = false).
  { apply (api_key_lookup_nonempty (groq_key_index s)). by rewrite Hkeys. }
  rewrite Hne, Hlim. simpl. unfold bind at 1.
  by rewrite (probe_key_ok _ _ _ _ (tick s)).
Qed.

Lemma try_other_keys_all_limited keys cur offsets s :
  (0 < length keys)%nat →
  (∀ i, (i < length keys)%nat → limit_of s i = true) →
  try_other_keys keys cur offsets s = (Ok None, s).
Proof using Type.
  intros Hn Hall. induction offsets as [|i rest IH]; simpl; [done|].
  pose proof (Nat.mod_upper_bound (cur + i) (length keys) ltac:(lia)) as Hlt.
  destruct (keys !! ((cur + i) mod length keys)%nat) as [next_key|] eqn:Hk.
  2:{ apply lookup_ge_None in Hk. lia. }
  unfold bind at 1, get_session. rewrite (Hall _ Hlt), andb_false_r. apply IH.
Qed.

Lemma forallb_true_elem {A} (f : A → bool) (l : list A) :
  (∀ x, x ∈ l → f x = true) → forallb f l = true.
Proof using Type.
  induction l as [|x l IH]; intros Hall; simpl; [done|].
  rewrite Hall by left. simpl. apply IH. intros y Hy. apply Hall. by right.
Qed.

Lemma reset_limits_other (m : gmap nat bool) (l : list nat) i :
  i ∉ l → foldl (λ m i, <[i := false]> m) m l !! i = m !! i.
Proof using Type.
  revert m. induction l as [|j l IH]; intros m Hi; [done|].
  rewrite not_elem_of_cons in Hi. destruct Hi as [Hne Hi].
  simpl. rewrite IH by done. by rewrite lookup_insert_ne.
Qed.

(** X13. Once every key is marked as limited, the next acquisition
    makes no remote call in its first round: it clears the marks of all
    keys, makes the first key the current one and starts again from
    there; with no nested call left it ends in [RecursionError]. *)
Theorem all_keys_limited_reset s :
  let n := length get_api_keys_from_env in
  (groq_key_index s < n)%nat →
  (∀ i, (i < n)%nat → limit_of s i = true) →
  ∃ s0,
    groq_key_index s0 = 0%nat ∧ clock s0 = clock s ∧
    (∀ i, (i < n)%nat → limit_of s0 i = false) ∧
    (∀ i, (n ≤ i)%nat → limit_of s0 i = limit_of s i) ∧
    (∀ depth, get_next_groq_client (S depth) s = get_next_groq_client depth s0) ∧
    get_next_groq_client 0 s = (Raise RecursionError, s0).
Proof using Type.
  intros n Hidx Hall.
  set (s0 := MkSession 0 (foldl (λ m i, <[i := false]> m) (groq_key_limits s) (seq 0 n))
                       (clock s)).
  assert (Hbody : ∀ recur, get_next_groq_client_body recur s = recur s0).
  { intros recur. unfold get_next_groq_client_body. fold n.
    destruct get_api_keys_from_env as [|k0 ks] eqn:Hkeys; [simpl in n; lia|].
    unfold bind at 1, get_session.
    destruct ((k0 :: ks) !! groq_key_index s) as [current_key|] eqn:Hcur.
    2:{ apply lookup_ge_None in Hcur. unfold n in Hidx. lia. }
    rewrite (Hall _ Hidx), andb_false_r. unfold bind at 1, ret.
    unfold bind at 1. rewrite try_other_keys_all_limited; [|simpl; lia|done].
    unfold bind at 1, get_session.
    rewrite forallb_true_elem.
    2:{ intros i Hi. apply elem_of_seq in Hi. apply Hall. unfold n. lia. }
    done. }
  exists s0. split_and!; [done|done| | | |].
  - intros i Hi. unfold limit_of, s0. simpl.
    rewrite reset_limits_lookup; [done|]. apply elem_of_seq. lia.
  - intros i Hi. unfold limit_of, s0. simpl.
    rewrite reset_limits_other; [done|]. rewrite elem_of_seq. lia.
  - intros depth. rewrite get_next_groq_client_eq. apply Hbody.
  - rewrite get_next_groq_client_eq. apply Hbody.
Qed.

(** ** groq_client: completions *)

Lemma get_next_groq_client_no_keys depth s :
  get_api_keys_from_env = [] → get_next_groq_client depth s = (Ok None, s).
Proof using Type.
  intros Hkeys. rewrite get_next_groq_client_eq. unfold get_next_groq_client_body.
  by rewrite Hkeys.
Qed.

Lemma groq_chat_completion_no_keys depth prompt system s :
  get_api_keys_from_env = [] → groq_chat_completion depth prompt system s = (Ok "", s).
Proof using Type.
  intros Hkeys. unfold groq_chat_completion, bind.
  by rewrite get_next_groq_client_no_keys.
Qed.

Lemma synthesize_no_keys depth all_comments employee_name seed_examples s :
  get_api_keys_from_env = [] →
  synthesize_areas_to_improve depth all_comments employee_name seed_examples s = (Ok "", s).
Proof using Type.
  intros Hkeys. unfold synthesize_areas_to_improve.
  destruct (cleaned_bits all_comments); [done|]. by apply groq_chat_completion_no_keys.
Qed.

(** X14. Without any key in the environment nothing is asked of the
    service: the acquisition gives no client, both completion functions
    and the synthesis of improvement text return the empty text, and the
    session is left as it was. *)
Theorem no_keys_no_remote_call :
  get_api_keys_from_env = [] →
  (∀ depth s, get_next_groq_client depth s = (Ok None, s)) ∧
  (∀ depth prompt system s, groq_chat_completion depth prompt system s = (Ok "", s)) ∧
  (∀ create depth messages max_tokens s, groq_complete create depth messages max_tokens s = (Ok "", s)) ∧
  (∀ depth all_comments employee_name seed_examples s,
     synthesize_areas_to_improve depth all_comments employee_name seed_examples s = (Ok "", s)).
Proof using Type.
  intros Hkeys. split_and!.
  - intros. by apply get_next_groq_client_no_keys.
  - intros. by apply groq_chat_completion_no_keys.
  - intros create depth messages max_tokens s. unfold groq_complete. by rewrite Hkeys.
  - intros. by apply synthesize_no_keys.
Qed.

(** The text [groq_chat_completion] returns is trimmed, and an
    empty system message is replaced by the default one, as a missing
    one is. *)
Lemma groq_chat_completion_text :
  (∀ depth prompt system s text s',
     groq_chat_completion depth prompt system s = (Ok text, s') → strip text = text) ∧
  (∀ depth prompt s,
     groq_chat_completion depth prompt (Some "") s = groq_chat_completion depth prompt None s).
Proof using Type.
  split; [|done].
  intros depth prompt system s text s' Hrun.
  pose proof (groq_chat_completion_cases depth prompt system s) as Hcases.
  destruct (get_next_groq_client depth s) as [[[key|]|e] s1].
  - destruct (chat_create _ _ _ _) as [msg|[|first rest]];
      rewrite Hcases in Hrun; injection Hrun as <- _; [done|done|].
    apply strip_idem.
  - rewrite Hcases in Hrun. by injection Hrun as <- _.
  - rewrite Hcases in Hrun. done.
Qed.

(** Every way a call of [groq_complete] can go once there are keys. *)
Lemma groq_complete_cases create depth messages max_tokens s :
  get_api_keys_from_env ≠ [] →
  match get_next_groq_client depth s with
  | (Raise e, s1) => groq_complete create depth messages max_tokens s = (Raise e, s1)
  | (Ok None, s1) => groq_complete create depth messages max_tokens s = (Ok "", s1)
  | (Ok (Some key), s1) =>
      match create (clock s1) key messages max_tokens with
      | Failed msg =>
          groq_complete create depth messages max_tokens s
            = (Ok "", if is_rate_limit_error msg then marked_current s1 else tick s1)
      | Replied [] => groq_complete create depth messages max_tokens s = (Ok "", tick s1)
      | Replied (first :: _) =>
          groq_complete create depth messages max_tokens s
            = (Ok (clean_output (strip (default "" first))), tick s1)
      end
  end.
Proof using Type.
  intros Hne. unfold groq_complete.
  destruct get_api_keys_from_env as [|k0 ks] eqn:Hkeys; [done|].
  destruct (get_next_groq_client depth s) as [[[key|]|e] s1] eqn:Hget.
  - destruct (create (clock s1) key messages max_tokens)
      as [msg|[|first rest]] eqn:Hc;
      unfold bind, try_except, chat_completions_create_messages;
      rewrite Hget, Hc; [|done..].
    unfold get_session, set_limit, ret, marked_current. simpl.
    by destruct (is_rate_limit_error msg).
  - unfold bind. by rewrite Hget.
  - unfold bind. by rewrite Hget.
Qed.

(** X15. [groq_complete] never lets an exception of the service out: its
    only exceptions are those of the acquisition. When the completion
    call raises, or answers with no choice at all, it returns the empty
    text; a rate-limit message marks the current key. Otherwise it
    returns the cleaned text of the first choice, which is trimmed. *)
Theorem groq_complete_spec :
  (∀ create depth messages max_tokens s e s',
     groq_complete create depth messages max_tokens s = (Raise e, s') → not_from_service e) ∧
  (∀ create depth messages max_tokens s key s1 msg,
     get_next_groq_client depth s = (Ok (Some key), s1) →
     create (clock s1) key messages max_tokens = Failed msg →
     ∃ s2, groq_complete create depth messages max_tokens s = (Ok "", s2) ∧
           groq_key_index s2 = groq_key_index s1 ∧
           (is_rate_limit_error msg = true → limit_of s2 (groq_key_index s1) = true)) ∧
  (∀ create depth messages max_tokens s key s1,
     get_next_groq_client depth s = (Ok (Some key), s1) →
     create (clock s1) key messages max_tokens = Replied [] →
     groq_complete create depth messages max_tokens s = (Ok "", tick s1)) ∧
  (∀ create depth messages max_tokens s text s',
     groq_complete create depth messages max_tokens s = (Ok text, s') → strip text = text).
Proof using Type.
  assert (Hkeys : ∀ depth s key s1,
            get_next_groq_client depth s = (Ok (Some key), s1) → get_api_keys_from_env ≠ []).
  { intros depth s key s1 Hget Hnil.
    apply get_next_groq_client_result in Hget. unfold acquired in Hget.
    by rewrite Hnil in Hget. }
  split_and!.
  - intros create depth messages max_tokens s e s' Hrun.
    destruct (decide (get_api_keys_from_env = [])) as [Hnil|Hne].
    { unfold groq_complete in Hrun. by rewrite Hnil in Hrun. }
    pose proof (groq_complete_cases create depth messages max_tokens s Hne) as Hcases.
    destruct (get_next_groq_client depth s) as [[[key|]|e1] s1] eqn:Hget.
    + destruct (create _ _ _ _) as [msg|[|first rest]];
        rewrite Hcases in Hrun; done.
    + rewrite Hcases in Hrun. done.
    + rewrite Hcases in Hrun. injection Hrun as <- <-.
      by apply get_next_groq_client_result in Hget.
  - intros create depth messages max_tokens s key s1 msg Hget Hc.
    pose proof (groq_complete_cases create depth messages max_tokens s (Hkeys _ _ _ _ Hget)) as Hcases.
    rewrite Hget, Hc in Hcases. eexists. split; [done|].
    destruct (is_rate_limit_error msg); simpl; [|done].
    split; [done|]. intros _. unfold limit_of. simpl. by rewrite lookup_insert_eq.
  - intros create depth messages max_tokens s key s1 Hget Hc.
    pose proof (groq_complete_cases create depth messages max_tokens s (Hkeys _ _ _ _ Hget)) as Hcases.
    by rewrite Hget, Hc in Hcases.
  - intros create depth messages max_tokens s text s' Hrun.
    destruct (decide (get_api_keys_from_env = [])) as [Hnil|Hne].
    { unfold groq_complete in Hrun. rewrite Hnil in Hrun. by injection Hrun as <- _. }
    pose proof (groq_complete_cases create depth messages max_tokens s Hne) as Hcases.
    destruct (get_next_groq_client depth s) as [[[key|]|e1] s1] eqn:Hget.
    + destruct (create _ _ _ _) as [msg|[|first rest]];
        rewrite Hcases in Hrun; injection Hrun as <- _; [done|done|].
      unfold clean_output. destruct (String.eqb _ ""); [done|]. apply strip_idem.
    + rewrite Hcases in Hrun. by injection Hrun as <- _.
    + rewrite Hcases in Hrun. done.
Qed.


(** ** tracker: the columns that are resolved *)

Lemma strip_empty_text (s : string) : s = "" → strip s = "".
Proof using Type. by intros ->. Qed.

Lemma norm_simple_of_norm (a b : string) : norm a = norm b → norm_simple a = norm_simple b.
Proof using Type. unfold norm_simple. by intros ->. Qed.

Lemma fill_some (f : label → string) cols (m : gmap string label) k c :
  c ∈ cols → f c = k → is_Some (foldl (λ m c, setdefault (f c) c m) m cols !! k).
Proof using Type.
  revert m. induction cols as [|x cols IH]; intros m Hc Hf; [inversion Hc|].
  simpl. apply elem_of_cons in Hc as [->|Hc]; [|by apply IH].
  assert (is_Some (setdefault (f x) x m !! k)) as [v Hv].
  { rewrite setdefault_lookup. destruct (m !! k); [by eexists|].
    rewrite decide_True by done. by eexists. }
  exists v. by apply (fill_kept f).
Qed.

Lemma first_candidate_none_inv key (m : gmap string label) cands c :
  first_candidate key m cands = None → c ∈ cands → m !! key c = None.
Proof using Type.
  induction cands as [|x cands IH]; intros Hnone Hc; [inversion Hc|].
  simpl in Hnone. destruct (m !! key x) eqn:Hx; [done|].
  apply elem_of_cons in Hc as [->|Hc]; [done|by apply IH].
Qed.

Lemma pick_agrees_with_candidate df candidates col :
  pick_first_available_column df candidates = Some col →
  ∃ d cand, df = Some d ∧ df_empty d = false ∧ col ∈ columns d ∧ cand ∈ candidates ∧
    (agree norm cand col ∨
     ((∀ c col', c ∈ candidates → col' ∈ columns d → ¬ agree norm c col') ∧
      agree norm_simple cand col)).
Proof using Type.
  unfold pick_first_available_column. destruct df as [d|]; [|done].
  destruct (df_empty d) eqn:He; [done|]. rewrite column_maps_split. cbn [fst snd].
  destruct (first_candidate norm _ candidates) as [orig|] eqn:H1.
  - intros [= ->]. apply first_candidate_some in H1 as (cand & Hc & Hm).
    apply (fill_elem (λ c, norm (col_to_text c))) in Hm as [Hm|[Hin Hf]]; [done|].
    exists d, cand. split_and!; try done. by left.
  - intros H2. apply first_candidate_some in H2 as (cand & Hc & Hm).
    apply (fill_elem (λ c, norm_simple (col_to_text c))) in Hm as [Hm|[Hin Hf]]; [done|].
    exists d, cand. split_and!; try done. right. split; [|done].
    intros c col' Hcin Hcol' Hagree.
    destruct (fill_some (λ c, norm (col_to_text c)) (columns d) ∅ (norm c) col' Hcol' Hagree)
      as [v Hv].
    by rewrite (first_candidate_none_inv _ _ _ _ H1 Hcin) in Hv.
Qed.

(** X16. A column is picked only if it agrees with one of the
    candidates: in lower case and trimmed or, when no candidate agrees
    with any column that way, with everything but the letters a-z
    removed. *)
Theorem pick_first_available_column_sound df candidates col :
  pick_first_available_column df candidates = Some col →
  ∃ d cand, df = Some d ∧ df_empty d = false ∧ col ∈ columns d ∧ cand ∈ candidates ∧
    (agree norm cand col ∨
     ((∀ c col', c ∈ candidates → col' ∈ columns d → ¬ agree norm c col') ∧
      agree norm_simple cand col)).
Proof using Type. apply pick_agrees_with_candidate. Qed.

Lemma agree_text_nonempty cand col :
  norm_simple cand ≠ "" → agree norm cand col ∨ agree norm_simple cand col →
  label_truthy col = true.
Proof using Type.
  intros Hne Hagree.
  assert (Hs : norm_simple (col_to_text col) = norm_simple cand).
  { destruct Hagree as [Hn|Hs]; [by apply norm_simple_of_norm|done]. }
  assert (Ht : col_to_text col ≠ "").
  { intros Ht. rewrite Ht in Hs. apply Hne. by rewrite <- Hs. }
  destruct col as [t|[|x ps]]; simpl in *; [|done|done].
  by destruct t.
Qed.

Lemma pick_usable d k l :
  pick_first_available_column (Some d) (candidates k) = Some l →
  l ∈ columns d ∧ label_truthy l = true.
Proof using Type.
  intros (d' & cand & [= <-] & _ & Hin & Hc & Hagree)%pick_agrees_with_candidate.
  split; [done|]. apply (agree_text_nonempty cand);
    [|destruct Hagree as [?|[_ ?]]; [by left|by right]].
  unfold candidates in Hc.
  destruct (assoc_get k COLUMN_CANDIDATES) as [cs|] eqn:Hk; [|inversion Hc].
  simpl in Hc. clear Hagree Hin.
  unfold COLUMN_CANDIDATES in Hk. cbn [assoc_get] in Hk.
  repeat (destruct (String.eqb _ k);
          [injection Hk as <-;
           repeat (apply elem_of_cons in Hc as [->|Hc]; [by vm_compute|]); inversion Hc|]).
  done.
Qed.



Lemma col_or_some (a b : option label) :
  (∀ l, a = Some l → label_truthy l = true) →
  col_or a b = match a with Some l => Some l | None => b end.
Proof using Type.
  intros Ha. unfold col_or, col_truthy. destruct a as [l|]; [|done].
  by rewrite (Ha l).
Qed.

Lemma extract_people_fields_usable d l :
  let cols := extract_people_fields d in
  Some l ∈ [name_col cols; tl_col cols; qa_col cols; week_col cols; date_col cols;
            sn_rating_col cols; manual_grade_col cols; comments_col cols] →
  l ∈ columns d ∧ label_truthy l = true.
Proof using Type.
  intros cols Hl. unfold cols, extract_people_fields in Hl.
  cbn [name_col tl_col qa_col week_col date_col sn_rating_col manual_grade_col comments_col] in Hl.
  rewrite !col_or_some in Hl by (intros l0 Hl0; by eapply pick_usable).
  repeat (apply elem_of_cons in Hl as [Hl|Hl];
          [symmetry in Hl;
           repeat match type of Hl with
                  | match ?a with _ => _ end = _ => destruct a eqn:?
                  end;
           simplify_eq; by eapply pick_usable|]).
  inversion Hl.
Qed.

(** X17. Every column [extract_people_fields] resolves in a frame is a
    column of that frame with a label that is true as a condition, so
    the week filter finds the resolved week and date columns usable
    as they are. *)
Theorem resolved_columns_are_usable d :
  let cols := extract_people_fields d in
  (∀ l, Some l ∈ [name_col cols; tl_col cols; qa_col cols; week_col cols; date_col cols;
                  sn_rating_col cols; manual_grade_col cols; comments_col cols] →
        l ∈ columns d ∧ label_truthy l = true) ∧
  usable_col (week_col cols) d = week_col cols ∧
  usable_col (date_col cols) d = date_col cols.
Proof using Type.
  intros cols. split; [apply extract_people_fields_usable|].
  assert (Hu : ∀ c, c = week_col cols ∨ c = date_col cols → usable_col c d = c).
  { intros [l|] Hc; [|done]. unfold usable_col.
    destruct (extract_people_fields_usable d l) as [Hin Ht].
    { fold cols. destruct Hc as [-> | ->]; [do 3 right; left|do 4 right; left]. }
    by rewrite Ht, bool_decide_true. }
  split; apply Hu; [by left|by right].
Qed.

(** ** tracker: the mask of the week filter *)

Lemma result_map_length {A B} (f : A → result B) (l : list A) ys :
  result_map f l = Ok ys → length ys = length l.
Proof using Type. intros Hok%result_map_ok. symmetry. by eapply Forall2_length. Qed.

(** X18. For a table that is not empty, the mask of the week filter has
    one entry for each row of the table, whichever way it filters. *)
Theorem week_filter_mask_length d wc dc month_n week_n mask :
  df_empty d = false →
  get_week_filter_mask (Some d) wc dc month_n week_n = Ok mask →
  length mask = df_len d.
Proof using Type.
  intros He. unfold get_week_filter_mask, df_len. rewrite He.
  destruct (usable_col wc d) as [c|].
  { intros [= <-]. unfold column_values. by rewrite !length_map. }
  destruct (usable_col dc d) as [c|].
  - destruct (result_map wom_of _) as [wom|e] eqn:Hwom; [|done].
    intros [= <-]. apply result_map_length in Hwom.
    rewrite length_zip_with, Hwom. unfold column_values. rewrite !length_map. lia.
  - intros [= <-]. by rewrite length_replicate.
Qed.

Lemma filtered_by_week_column d c month_n week_n :
  week_col (extract_people_fields d) = Some c →
  filtered d month_n week_n
    = Ok (Frame (columns d)
                (filter (λ row, week_cell_matches week_n (row_get d row c) = true) (rows d))).
Proof using Type.
  intros Hc.
  assert (He : df_empty d = false).
  { destruct (df_empty d) eqn:He; [|done]. apply extract_empty in He as [He _]. congruence. }
  assert (Hu : usable_col (week_col (extract_people_fields d)) d = Some c).
  { rewrite Hc. unfold usable_col.
    destruct (extract_people_fields_usable d c) as [Hin Ht].
    { rewrite <- Hc. do 3 right. left. }
    by rewrite Ht, bool_decide_true. }
  destruct (filtered d month_n week_n) as [fdf|e] eqn:Hf.
  - apply filtered_spec in Hf as ->. f_equal. f_equal.
    apply list_filter_iff. intros row. unfold row_in_week. by rewrite Hu.
  - exfalso. unfold filtered, get_week_filter_mask in Hf. by rewrite He, Hu in Hf.
Qed.

(** X19. When a week column is resolved the date column and the target
    month play no part: the rows kept are those whose week cell holds
    the target week, for every month, and the filter raises nothing,
    whatever the date cells hold. *)
Theorem week_column_overrides_date d c month_n month_n' week_n :
  week_col (extract_people_fields d) = Some c →
  filtered d month_n week_n
    = Ok (Frame (columns d)
                (filter (λ row, week_cell_matches week_n (row_get d row c) = true) (rows d))) ∧
  filtered d month_n week_n = filtered d month_n' week_n.
Proof using Type.
  intros Hc. split; [by apply filtered_by_week_column|].
  by rewrite !(filtered_by_week_column d c).
Qed.

(** ** tracker: when the service is asked *)

Lemma cleaned_bits_nil (all_comments : list string) :
  cleaned_bits all_comments = [] ↔ ∀ c, c ∈ all_comments → strip c = "".
Proof using Type.
  unfold cleaned_bits. split.
  - intros Hf%map_eq_nil c Hc. destruct (decide (strip c = "")) as [|Hne]; [done|].
    assert (Hin : c ∈ filter (λ c, from_option (λ t, t ≠ "") False (_norm (VStr c)))
                             all_comments).
    { apply list_elem_of_filter. by split. }
    rewrite Hf in Hin. inversion Hin.
  - intros Hall.
    assert (Hf : filter (λ c, from_option (λ t, t ≠ "") False (_norm (VStr c)))
                        all_comments = []); [|by rewrite Hf].
    induction all_comments as [|c l IH]; [done|].
    rewrite filter_cons. simpl. rewrite decide_False.
    + apply IH. intros c' Hc'. apply Hall. by right.
    + intros Hne. apply Hne. apply Hall. left.
Qed.

(** X20. The service is asked for improvement text exactly when some
    comment holds more than whitespace: with only blank comments the
    result is the empty text and the session is untouched; otherwise the
    completion is called with the prompt built from the cleaned
    comments, even when cleaning has left them empty. The name of the
    employee and the seed examples are not part of what is sent. *)
Theorem synthesis_asks_service :
  (∀ depth all_comments employee_name seed_examples s,
     (∀ c, c ∈ all_comments → strip c = "") →
     synthesize_areas_to_improve depth all_comments employee_name seed_examples s
       = (Ok "", s)) ∧
  (∀ depth all_comments employee_name seed_examples c,
     c ∈ all_comments → strip c ≠ "" →
     synthesize_areas_to_improve depth all_comments employee_name seed_examples
       = groq_chat_completion depth
           (user_prompt (join " " (cleaned_bits all_comments))) None) ∧
  (∀ depth all_comments name1 name2 seed1 seed2,
     synthesize_areas_to_improve depth all_comments name1 seed1
       = synthesize_areas_to_improve depth all_comments name2 seed2).
Proof using Type.
  split_and!.
  - intros depth all_comments employee_name seed_examples s Hall.
    unfold synthesize_areas_to_improve. by rewrite (proj2 (cleaned_bits_nil _) Hall).
  - intros depth all_comments employee_name seed_examples c Hc Hne.
    unfold synthesize_areas_to_improve.
    destruct (cleaned_bits all_comments) eqn:Hbits; [|done].
    exfalso. apply Hne. by apply (proj1 (cleaned_bits_nil all_comments) Hbits).
  - done.
Qed.


(** ** tracker: the most common value on a tie *)

Lemma counter_add_keys_order c z :
  (counter_add z c).*1 = if decide (z ∈ c.*1) then c.*1 else c.*1 ++ [z].
Proof using Type.
  induction c as [|[k n] c IH].
  - change (([] : list (string * nat)).*1) with ([] : list string).
    rewrite decide_False; [done|]. by intros ?%elem_of_nil.
  - change (((k, n) :: c).*1) with (k :: c.*1).
    cbn [counter_add]. destruct (String.eqb_spec k z) as [->|Hne].
    + change (((z, S n) :: c).*1) with (z :: c.*1). rewrite decide_True by left. done.
    + change (((k, n) :: counter_add z c).*1) with (k :: (counter_add z c).*1).
      rewrite IH. destruct (decide (z ∈ c.*1)).
      * rewrite decide_True by (by right). done.
      * rewrite decide_False; [done|]. intros [?|?]%elem_of_cons; congruence.
Qed.

Lemma Counter_snoc l z : Counter (l ++ [z]) = counter_add z (Counter l).
Proof using Type. unfold Counter. by rewrite foldl_app. Qed.

Lemma Counter_has_key l y : y ∈ l → y ∈ (Counter l).*1.
Proof.
  intros Hy%occurrences_pos. rewrite <- Counter_get in Hy.
  apply counter_get_pos in Hy. apply list_elem_of_fmap. by eexists (_, _).
Qed.

(** The keys of a [Counter] are in the order in which the values are
    first met. *)
Lemma Counter_first_seen l a x b :
  (Counter l).*1 = a ++ x :: b →
  ∃ pre post, l = pre ++ x :: post ∧ ∀ y, y ∈ pre → y ∈ a.
Proof.
  revert a x b. induction l as [|z l IH] using rev_ind; intros a x b.
  - by destruct a.
  - rewrite Counter_snoc, counter_add_keys_order.
    destruct (decide (z ∈ (Counter l).*1)) as [Hin|Hnin].
    + intros (pre & post & -> & Hpre)%IH.
      exists pre, (post ++ [z]). split; [by rewrite <- app_assoc|done].
    + destruct b as [|w b _] using rev_ind.
      * intros [Ha <-]%app_inj_tail. exists l, []. split; [done|].
        intros y Hy. rewrite <- Ha. by apply Counter_has_key.
      * rewrite app_comm_cons, app_assoc. intros [Hks _]%app_inj_tail.
        apply IH in Hks as (pre & post & -> & Hpre).
        exists pre, (post ++ [z]). split; [by rewrite <- app_assoc|done].
Qed.

(** [max] keeps the first of the entries with the largest count. *)
Lemma max_count_first best c :
  ∃ a b, best :: c = a ++ max_count best c :: b ∧
         ∀ e, e ∈ a → (e.2 < (max_count best c).2)%nat.
Proof using Type.
  revert best. induction c as [|x c IH]; intros best; simpl.
  - exists [], []. split; [done|inversion 1].
  - destruct (Nat.ltb_spec best.2 x.2) as [Hlt|Hge].
    + destruct (IH x) as (a & b & Heq & Ha). exists (best :: a), b.
      split; [by rewrite Heq|].
      intros e [->|He]%elem_of_cons; [|by apply Ha].
      destruct (max_count_spec x c) as [_ Hmax].
      specialize (Hmax x (list_elem_of_here _ _)). lia.
    + destruct (IH best) as (a & b & Heq & Ha). destruct a as [|e0 a].
      * simpl in Heq. injection Heq as Hb <-. exists [], (x :: c).
        split; [by rewrite <- Hb|inversion 1].
      * simpl in Heq. injection Heq as <- Hc.
        exists (best :: x :: a), b. split; [simpl; by rewrite <- Hc|].
        assert (Hbest : (best.2 < (max_count best c).2)%nat).
        { apply Ha. left. }
        intros e [->|[->|He]%elem_of_cons]%elem_of_cons; [done|lia|].
        apply Ha. by right.
Qed.

Lemma most_common1_first (l : list string) (x : string) :
  most_common1 (Counter l) = Some x →
  ∀ y, occurrences y l = occurrences x l →
       ∃ pre post, l = pre ++ x :: post ∧ (x ∉ pre) ∧ (y ∉ pre).
Proof.
  pose proof (Counter_NoDup l) as Hnd. pose proof (Counter_get l) as Hget.
  unfold most_common1. destruct (Counter l) as [|e c] eqn:HC; [done|].
  intros [= <-] y Hocc.
  destruct (max_count_first e c) as (a & b & Heq & Ha).
  set (r := max_count e c) in *.
  assert (Hkeys : (Counter l).*1 = (a.*1) ++ (r.1) :: (b.*1)).
  { rewrite HC, Heq. by rewrite fmap_app. }
  destruct (Counter_first_seen l _ _ _ Hkeys) as (pre & post & Hl & Hpre).
  assert (Hcount : ∀ k n, (k, n) ∈ e :: c → occurrences k l = n).
  { intros k n Hin. rewrite <- Hget. by apply counter_get_elem. }
  assert (Hr : occurrences r.1 l = r.2).
  { apply Hcount. rewrite Heq. apply elem_of_app. right.
    rewrite <- surjective_pairing. left. }
  assert (Hbefore : ∀ k, k ∈ a.*1 → (occurrences k l < r.2)%nat).
  { intros k ([k' n] & -> & Hin)%list_elem_of_fmap. simpl.
    rewrite (Hcount k' n).
    - by apply (Ha (k', n)).
    - rewrite Heq. apply elem_of_app. by left. }
  exists pre, post. split; [done|]. split.
  - intros Hx%Hpre%Hbefore. lia.
  - intros Hy%Hpre%Hbefore. lia.
Qed.

(** ** tracker: the rows of the result *)

Lemma generate_tracker_eq depth manual_df sn_df month_n week_n seed s mdf sdf :
  filtered manual_df month_n week_n = Ok mdf →
  filtered sn_df month_n week_n = Ok sdf →
  generate_tracker depth manual_df sn_df month_n week_n seed s =
    match for_each
            (employee_record depth
               (per_employee mdf (extract_people_fields manual_df))
               (per_employee sdf (extract_people_fields sn_df))
               month_n week_n seed)
            (sorted_set (employee_keys mdf (name_col (extract_people_fields manual_df)) ++
                         employee_keys sdf (name_col (extract_people_fields sn_df)))) s with
    | (Ok records, s') => (Ok (tracker_frame records), s')
    | (Raise e, s') => (Raise e, s')
    end.
Proof using Type.
  unfold generate_tracker, filtered, bind, lift.
  destruct (get_week_filter_mask (Some manual_df) _ _ _ _) as [m_mask|e]; [|done].
  destruct (get_week_filter_mask (Some sn_df) _ _ _ _) as [s_mask|e]; [|done].
  intros [= <-] [= <-].
  match goal with |- context [for_each ?f ?l s] => by destruct (for_each f l s) as [[records|e] s1] end.
Qed.

Lemma tracker_frame_fixed_fields records r :
  field (tracker_frame records) (row_cells r) "Emp ID" = VStr (r_emp_id r) ∧
  field (tracker_frame records) (row_cells r) "Organization" = VStr (r_organization r) ∧
  field (tracker_frame records) (row_cells r) "Status" = VStr (r_status r) ∧
  field (tracker_frame records) (row_cells r) "Week" = VStr (r_week r).
Proof using Type. by repeat split. Qed.

(** The record behind a row of the result. *)
Lemma generate_tracker_row depth manual_df sn_df month_n week_n seed s out s' row :
  generate_tracker depth manual_df sn_df month_n week_n seed s = (Ok out, s') →
  row ∈ rows out →
  ∃ mdf sdf records name mon areas_text s1 s2,
    filtered manual_df month_n week_n = Ok mdf ∧
    filtered sn_df month_n week_n = Ok sdf ∧
    out = tracker_frame records ∧
    month_abbr month_n = Some mon ∧
    row = row_cells (row_of (per_employee mdf (extract_people_fields manual_df))
                            (per_employee sdf (extract_people_fields sn_df))
                            mon week_n name areas_text) ∧
    synthesize_areas_to_improve depth
      (comments_of (per_employee mdf (extract_people_fields manual_df))
                   (per_employee sdf (extract_people_fields sn_df)) name)
      name seed s1 = (Ok areas_text, s2).
Proof using Type.
  intros (mdf & sdf & records & Hm & Hs & -> & Hrows)%generate_tracker_rows Hrow.
  simpl in Hrow. apply list_elem_of_fmap in Hrow as (r & -> & Hr).
  destruct (Forall2_elem_r _ _ _ _ Hrows Hr)
    as (name & _ & mon & areas_text & Hmon & -> & s1 & s2 & Hsyn).
  by exists mdf, sdf, records, name, mon, areas_text, s1, s2.
Qed.

(** X21. In every row of the result, Emp ID, Organization and Status
    are empty, and Week is the English abbreviation of the target month
    followed by the target week. *)
Theorem tracker_fixed_fields depth manual_df sn_df month_n week_n seed s out s' :
  generate_tracker depth manual_df sn_df month_n week_n seed s = (Ok out, s') →
  ∀ row, row ∈ rows out →
    ∃ mon, month_abbr month_n = Some mon ∧
      field out row "Emp ID" = VStr "" ∧
      field out row "Organization" = VStr "" ∧
      field out row "Status" = VStr "" ∧
      field out row "Week" = VStr (mon +:+ " - Week " +:+ pretty week_n).
Proof using Type.
  intros Hrun row Hrow.
  destruct (generate_tracker_row _ _ _ _ _ _ _ _ _ _ Hrun Hrow)
    as (mdf & sdf & records & name & mon & areas & s1 & s2 & _ & _ & -> & Hmon & -> & _).
  exists mon. split; [done|]. by repeat split.
Qed.

Lemma row_of_counts mdf sdf m_cols s_cols mon week_n name areas_text :
  name ≠ "" →
  let r := row_of (per_employee mdf m_cols) (per_employee sdf s_cols) mon week_n name areas_text in
  r_sn_count r = count_cell (length (omap to_numeric (sn_rating_cells sdf s_cols name))) ∧
  r_manual_count r = count_cell (length (manual_grade_cells mdf m_cols name)).
Proof using Type.
  intros Hname. unfold row_of. simpl.
  rewrite !per_employee_spec, !decide_False by done.
  by unfold extend_agg, sn_rating_cells, manual_grade_cells.
Qed.

Lemma count_cell_blank n : count_cell n = VStr "" ↔ n = 0%nat.
Proof using Type. destruct n; simpl; split; done. Qed.

(** X22. The Service Now count of a named employee is the number of its
    rating cells that read as numbers; the Manual count is the number of
    its grade cells other than [None], whether or not they can be
    graded. A count is never the number 0: it is left empty instead. The
    Service Now count is empty exactly when the Service Now average is,
    and the Manual average is empty whenever the Manual count is. *)
Theorem tracker_counts depth manual_df sn_df month_n week_n seed s out s' :
  generate_tracker depth manual_df sn_df month_n week_n seed s = (Ok out, s') →
  ∃ mdf sdf,
    filtered manual_df month_n week_n = Ok mdf ∧
    filtered sn_df month_n week_n = Ok sdf ∧
    ∀ row, row ∈ rows out →
      ∃ name, field out row "Employee Name" = VStr name ∧
        (name ≠ "" →
         field out row "Service Now Assessments Count"
           = count_cell (length (omap to_numeric
                                   (sn_rating_cells sdf (extract_people_fields sn_df) name))) ∧
         field out row "Manual Assessments Count"
           = count_cell (length (manual_grade_cells mdf (extract_people_fields manual_df) name))) ∧
        field out row "Service Now Assessments Count" ≠ VInt 0 ∧
        field out row "Manual Assessments Count" ≠ VInt 0 ∧
        (field out row "Service Now Assessments Count" = VStr "" ↔
         field out row "Service Now Assessments Average Rating" = VStr "") ∧
        (field out row "Manual Assessments Count" = VStr "" →
         field out row "Manual Assessments Average Rating" = VStr "").
Proof using Type.
  intros Hrun.
  pose proof Hrun as (mdf & sdf & records & Hm & Hs & -> & _)%generate_tracker_rows.
  exists mdf, sdf. split; [done|]. split; [done|].
  intros row Hrow.
  destruct (generate_tracker_row _ _ _ _ _ _ _ _ _ _ Hrun Hrow)
    as (mdf' & sdf' & records' & name & mon & areas & s1 & s2 & Hm' & Hs' & _ & Hmon & -> & _).
  rewrite Hm in Hm'. rewrite Hs in Hs'. simplify_eq.
  exists name. split; [done|].
  set (r := row_of _ _ mon week_n name areas).
  destruct (tracker_frame_field records r) as (_ & _ & _ & -> & -> & -> & -> & _).
  split_and!.
  - intros Hname. by apply row_of_counts.
  - unfold r, row_of. simpl. by destruct (length _).
  - unfold r, row_of. simpl. by destruct (length _).
  - unfold r, row_of. simpl. by destruct (omap to_numeric _).
  - unfold r, row_of. simpl. by destruct (length _).
Qed.

Lemma month_abbr_none month_n : ¬ (1 ≤ month_n ≤ 12)%Z → month_abbr month_n = None.
Proof using Type.
  intros Hm. unfold month_abbr.
  destruct (Z.leb_spec 1 month_n); [|done]. destruct (Z.leb_spec month_n 12); [lia|done].
Qed.

(** X23. A target month outside 1..12 is noticed only when a row is
    built: with no employee in the filtered tables the result is the
    empty table, and with at least one the run ends in [ValueError],
    after the service has been asked about the first employee. No table
    with rows is ever returned for such a month. *)
Theorem month_out_of_range depth manual_df sn_df month_n week_n seed s mdf sdf :
  ¬ (1 ≤ month_n ≤ 12)%Z →
  filtered manual_df month_n week_n = Ok mdf →
  filtered sn_df month_n week_n = Ok sdf →
  let keys := employee_keys mdf (name_col (extract_people_fields manual_df)) ++
              employee_keys sdf (name_col (extract_people_fields sn_df)) in
  (keys = [] →
     generate_tracker depth manual_df sn_df month_n week_n seed s = (Ok (tracker_frame []), s)) ∧
  (keys ≠ [] → probes_never_rate_limited → valid_session s → (1 ≤ depth)%nat →
     ∃ s', generate_tracker depth manual_df sn_df month_n week_n seed s
             = (Raise (ValueError "month must be in 1..12"), s')) ∧
  (∀ out s', generate_tracker depth manual_df sn_df month_n week_n seed s = (Ok out, s') →
             rows out = []).
Proof using Type.
  intros Hmonth Hm Hs keys.
  pose proof (month_abbr_none _ Hmonth) as Hnone.
  split_and!.
  - intros Hkeys. rewrite (generate_tracker_eq _ _ _ _ _ _ _ _ _ Hm Hs).
    fold keys. rewrite Hkeys. done.
  - intros Hkeys Hq Hvalid Hd. rewrite (generate_tracker_eq _ _ _ _ _ _ _ _ _ Hm Hs).
    fold keys. destruct (sorted_set keys) as [|name names] eqn:Hsorted.
    { exfalso. destruct keys as [|k ks]; [done|].
      assert (Hin : k ∈ sorted_set (k :: ks)) by (apply sorted_set_spec; left).
      rewrite Hsorted in Hin. inversion Hin. }
    cbn [for_each]. unfold bind at 1, employee_record at 1, bind at 1.
    match goal with
    | |- context [synthesize_areas_to_improve ?d ?c ?n ?e s] =>
        destruct (synthesize_areas_to_improve_quiet d c n e s Hq Hvalid Hd)
          as (text & s1 & -> & _)
    end.
    rewrite Hnone. by eexists.
  - intros out s' Hrun. destruct (rows out) as [|row rws] eqn:Hrows; [done|].
    destruct (generate_tracker_row _ _ _ _ _ _ _ _ _ row Hrun)
      as (mdf' & sdf' & records & name & mon & areas & s1 & s2 & _ & _ & _ & Hmon & _).
    { rewrite Hrows. left. }
    congruence.
Qed.

(** X24. Without any key in the environment a run still completes, for
    a valid month and date columns that can be read: the service is
    never called, the session is untouched, and Areas to Improve is
    empty in every row. *)
Theorem tracker_without_keys depth manual_df sn_df month_n week_n seed s :
  get_api_keys_from_env = [] →
  (1 ≤ month_n ≤ 12)%Z →
  dates_readable manual_df → dates_readable sn_df →
  ∃ out,
    generate_tracker depth manual_df sn_df month_n week_n seed s = (Ok out, s) ∧
    ∀ row, row ∈ rows out → field out row "Areas to Improve" = VStr "".
Proof using Type.
  intros Hkeys Hmonth [mdf Hm]%(filtered_total _ month_n week_n)
    [sdf Hs]%(filtered_total _ month_n week_n).
  destruct (month_abbr_total _ Hmonth) as [mon Hmon].
  assert (Hrun : ∃ out, generate_tracker depth manual_df sn_df month_n week_n seed s
                          = (Ok out, s)).
  { rewrite (generate_tracker_eq _ _ _ _ _ _ _ _ _ Hm Hs).
    match goal with
    | |- context [for_each ?f ?l s] =>
        destruct (for_each_total f l (λ s0, s0 = s) s) as (records & s' & -> & ->)
    end; [|done|by eexists].
    intros name s0 ->. unfold employee_record, bind.
    rewrite synthesize_no_keys by done. rewrite Hmon. by eexists _, _. }
  destruct Hrun as [out Hrun]. exists out. split; [done|].
  intros row Hrow.
  destruct (generate_tracker_row _ _ _ _ _ _ _ _ _ _ Hrun Hrow)
    as (mdf' & sdf' & records & name & mon' & areas & s1 & s2 & _ & _ & -> & _ & -> & Hsyn).
  rewrite synthesize_no_keys in Hsyn by done. by injection Hsyn as <- _.
Qed.

(** X25. A row for the empty employee key carries no data: nothing is
    aggregated under the empty key, so its Team Lead, Quality Assessors,
    counts, averages and Areas to Improve are all empty. *)
Theorem blank_key_row_is_empty depth manual_df sn_df month_n week_n seed s out s' row :
  generate_tracker depth manual_df sn_df month_n week_n seed s = (Ok out, s') →
  row ∈ rows out →
  field out row "Employee Name" = VStr "" →
  field out row "Team Lead" = VStr "" ∧
  field out row "Quality Assessors" = VStr "" ∧
  field out row "Service Now Assessments Count" = VStr "" ∧
  field out row "Service Now Assessments Average Rating" = VStr "" ∧
  field out row "Manual Assessments Count" = VStr "" ∧
  field out row "Manual Assessments Average Rating" = VStr "" ∧
  field out row "Areas to Improve" = VStr "".
Proof using Type.
  intros Hrun Hrow.
  destruct (generate_tracker_row _ _ _ _ _ _ _ _ _ _ Hrun Hrow)
    as (mdf & sdf & records & name & mon & areas & s1 & s2 & _ & _ & -> & _ & -> & Hsyn).
  set (r := row_of _ _ mon week_n name areas) in *.
  destruct (tracker_frame_field records r) as (-> & -> & -> & -> & -> & -> & -> & ->).
  intros [= Hname]. unfold r, row_of in Hname. simpl in Hname. subst name. subst r.
  destruct (row_of_blank mdf sdf (extract_people_fields manual_df)
              (extract_people_fields sn_df) mon week_n areas)
    as (-> & -> & -> & -> & -> & ->).
  split_and!; try done.
  unfold comments_of in Hsyn. rewrite !per_employee_spec, !decide_True in Hsyn by done.
  simpl in Hsyn. apply synthesize_no_comments in Hsyn. unfold row_of. simpl. by rewrite Hsyn.
Qed.

(** X26. When several team-lead values of an employee are equally
    frequent, Team Lead is the one met first, the records of the manual
    table coming before those of the ticketing table: no value that is
    as frequent occurs before it in the list of the employee's
    normalized team-lead values. *)
Theorem team_lead_tie_goes_to_first depth manual_df sn_df month_n week_n seed s out s' :
  generate_tracker depth manual_df sn_df month_n week_n seed s = (Ok out, s') →
  ∃ mdf sdf,
    filtered manual_df month_n week_n = Ok mdf ∧
    filtered sn_df month_n week_n = Ok sdf ∧
    ∀ row name, row ∈ rows out → field out row "Employee Name" = VStr name → name ≠ "" →
      let leads := lead_values mdf sdf (extract_people_fields manual_df)
                     (extract_people_fields sn_df) name in
      leads ≠ [] →
      ∃ tl, field out row "Team Lead" = VStr tl ∧
        ∀ y, occurrences y leads = occurrences tl leads →
             ∃ pre post, leads = pre ++ tl :: post ∧ (tl ∉ pre) ∧ (y ∉ pre).
Proof using Type.
  intros Hrun.
  pose proof Hrun as (mdf & sdf & records & Hm & Hs & -> & _)%generate_tracker_rows.
  exists mdf, sdf. split; [done|]. split; [done|].
  intros row name Hrow Hfield Hname leads Hleads.
  destruct (generate_tracker_row _ _ _ _ _ _ _ _ _ _ Hrun Hrow)
    as (mdf' & sdf' & records' & name' & mon & areas & s1 & s2 & Hm' & Hs' & _ & _ & -> & _).
  rewrite Hm in Hm'. rewrite Hs in Hs'. injection Hm' as <-. injection Hs' as <-.
  set (r := row_of _ _ mon week_n name' areas) in *.
  destruct (tracker_frame_field records r) as (Hn & -> & _).
  rewrite Hn in Hfield. injection Hfield as Hfield.
  unfold r, row_of in Hfield. simpl in Hfield. subst name'.
  destruct (row_of_named mdf sdf (extract_people_fields manual_df)
              (extract_people_fields sn_df) mon week_n name areas Hname) as (Htl & _).
  fold r in Htl. fold leads in Htl. rewrite Htl.
  pose proof (most_common1_spec leads) as Hspec.
  destruct (most_common1 (Counter leads)) as [x|] eqn:Hmc; [|done].
  exists x. split; [done|]. by apply most_common1_first.
Qed.

(** ** tracker: the keys of the per-employee dictionary *)

Lemma add_row_keys df cols nc d row name :
  is_Some (add_row df cols nc d row !! name) ↔
    is_Some (d !! name) ∨ (name ≠ "" ∧ build_employee_key (row_get df row nc) = name).
Proof using Type.
  unfold add_row.
  destruct (String.eqb_spec (build_employee_key (row_get df row nc)) "") as [He|Hne].
  - split; [by left|]. intros [?|[? ?]]; [done|congruence].
  - rewrite lookup_insert_is_Some. split.
    + intros [Hk|[_ ?]]; [right|by left]. split; [congruence|done].
    + intros [?|[_ Hk]]; [|by left].
      destruct (decide (build_employee_key (row_get df row nc) = name)); [by left|by right].
Qed.

Lemma foldl_add_row_keys df cols nc recs d name :
  is_Some (foldl (add_row df cols nc) d recs !! name) ↔
    is_Some (d !! name) ∨
    (name ≠ "" ∧ ∃ row, row ∈ recs ∧ build_employee_key (row_get df row nc) = name).
Proof using Type.
  revert d. induction recs as [|row recs IH]; intros d; simpl.
  - split; [by left|]. intros [?|[_ (row & Hrow & _)]]; [done|inversion Hrow].
  - rewrite IH, add_row_keys. split.
    + intros [[?|[? ?]]|[? (row' & ? & ?)]]; [by left|right|right].
      * split; [done|]. exists row. split; [left|done].
      * split; [done|]. exists row'. split; [by right|done].
    + intros [?|[? (row' & [->|?]%elem_of_cons & ?)]]; [by left; left|by left; right|].
      right. split; [done|]. by exists row'.
Qed.


End Program.

(** * The employee key *)


(** * Cleaned comments *)

Lemma collapse_from_spaced (in_run : bool) (s : string) :
  spaced_from in_run (Cleaning.collapse_from in_run s) = true.
Proof.
  revert in_run. induction s as [|c s IH]; intros in_run; [done|].
  simpl. destruct (py_isspace c) eqn:Hc.
  - destruct in_run; [apply IH|]. simpl. apply IH.
  - simpl. rewrite Hc. apply IH.
Qed.

Lemma spaced_from_lstrip (p : bool) (s : string) :
  spaced_from p s = true → spaced_from true (lstrip s) = true.
Proof.
  revert p. induction s as [|c s IH]; intros p; [done|].
  simpl. destruct (py_isspace c) eqn:Hc.
  - intros [_ Hs]%andb_true_iff. by eapply IH.
  - intros Hs. simpl. by rewrite Hc.
Qed.

Lemma rev_cons_string c (s : string) : String.rev (String c s) = String.rev s +:+ String c "".
Proof. change (String c s) with (String c "" +:+ s). by rewrite rev_app_distr. Qed.

(** A text that does not end in whitespace and is spaced is tidy. *)
Lemma spaced_from_tidy (p : bool) (u w : string) :
  u ≠ "" →
  (∀ c r, String.rev u = String c r → py_isspace c = false) →
  spaced_from p (u +:+ w) = true → tidy_from p u = true.
Proof.
  revert p. induction u as [|c u IH]; intros p Hne Hlast; [done|].
  rewrite app_cons. cbn [spaced_from tidy_from].
  destruct (decide (u = "")) as [->|Hu].
  - assert (Hc : py_isspace c = false) by (by eapply Hlast).
    by rewrite Hc.
  - assert (Hlast' : ∀ c0 r, String.rev u = String c0 r → py_isspace c0 = false).
    { intros c0 r Hr. apply (Hlast c0 (r +:+ String c "")).
      by rewrite rev_cons_string, Hr. }
    destruct (py_isspace c).
    + intros [Hc Hs]%andb_true_iff. rewrite Hc. by apply IH.
    + intros Hs. by apply IH.
Qed.

Lemma strip_spaced_tidy (s : string) :
  spaced_from false s = true → single_spaced (strip s) = true.
Proof.
  intros Hs%spaced_from_lstrip. unfold strip.
  destruct (rstrip_split (lstrip s)) as (w & _ & Hsplit).
  unfold single_spaced. destruct (rstrip (lstrip s)) as [|c u] eqn:Hu; [done|].
  rewrite <- Hu. apply (spaced_from_tidy true _ w).
  - by rewrite Hu.
  - intros c0 r. unfold rstrip. rewrite rev_involutive_string. apply lstrip_head.
  - rewrite Hu. by rewrite <- Hsplit.
Qed.

(** X28. A cleaned comment has no whitespace at either end, and the only
    whitespace inside it is single blanks: line breaks, tabs and runs of
    blanks of the comment do not survive. What is not text cleans to the
    empty text. *)
Theorem clean_comment_single_spaced :
  (∀ raw, single_spaced (Cleaning.clean_comment raw) = true) ∧
  (∀ raw, (∀ t, raw ≠ VStr t) → Cleaning.clean_comment raw = "").
Proof.
  split.
  - intros [| |raw| | |]; try done. unfold Cleaning.clean_comment.
    apply strip_spaced_tidy. apply collapse_from_spaced.
  - intros [| |raw| | |] Hraw; try done. by destruct (Hraw raw).
Qed.

Lemma split_on_nonempty sep (s : string) : Cleaning.split_on sep s ≠ [].
Proof.
  induction s as [|c s IH]; [done|]. simpl.
  destruct (Ascii.eqb c sep); [done|]. by destruct (Cleaning.split_on sep s).
Qed.

Lemma split_on_app sep (x y : string) :
  Cleaning.split_on sep (x +:+ String sep y)
    = Cleaning.split_on sep x ++ Cleaning.split_on sep y.
Proof.
  induction x as [|c x IH].
  - simpl. by rewrite Ascii.eqb_refl.
  - rewrite app_cons. simpl. destruct (Ascii.eqb c sep); [by rewrite IH|].
    rewrite IH. pose proof (split_on_nonempty sep x).
    by destruct (Cleaning.split_on sep x).
Qed.

Lemma lines_of_app (sep : ascii) (a b : string) :
  sep = "010"%char ∨ sep = "013"%char →
  Cleaning.lines_of (a +:+ String sep b) = Cleaning.lines_of a ++ Cleaning.lines_of b.
Proof.
  intros Hsep. unfold Cleaning.lines_of. rewrite string_map_app. cbn [string_map].
  assert (Hs : (if Ascii.eqb sep "013" then "010"%char else sep) = "010"%char).
  { by destruct Hsep as [-> | ->]. }
  rewrite Hs, split_on_app. by rewrite map_app.
Qed.

(** X29. The lines of a comment are cleaned one by one, a carriage
    return separating lines as a line feed does: a line that the loop
    drops, as a checklist line or as too short, leaves no trace, so the
    comment cleans to the same text with and without it; a comment all of
    whose lines are dropped cleans to the empty text. *)
Theorem dropped_lines_leave_no_trace :
  (∀ sep1 sep2 a l b,
     (sep1 = "010"%char ∨ sep1 = "013"%char) → (sep2 = "010"%char ∨ sep2 = "013"%char) →
     (∀ ln, ln ∈ Cleaning.lines_of l → Cleaning.keep_line ln = None) →
     Cleaning.clean_comment (VStr (a +:+ String sep1 (l +:+ String sep2 b)))
       = Cleaning.clean_comment (VStr (a +:+ String sep2 b))) ∧
  (∀ raw, (∀ ln, ln ∈ Cleaning.lines_of raw → Cleaning.keep_line ln = None) →
     Cleaning.clean_comment (VStr raw) = "").
Proof.
  assert (Hnone : ∀ lines, (∀ ln, ln ∈ lines → Cleaning.keep_line ln = None) →
                           omap Cleaning.keep_line lines = []).
  { induction lines as [|ln lines IH]; intros Hall; [done|].
    cbn [omap list_omap]. rewrite (Hall ln) by left. apply IH.
    intros ln' Hln'. apply Hall. by right. }
  split.
  - intros sep1 sep2 a l b Hs1 Hs2 Hdrop. unfold Cleaning.clean_comment.
    rewrite !lines_of_app by done. rewrite !omap_app.
    by rewrite (Hnone _ Hdrop).
  - intros raw Hdrop. unfold Cleaning.clean_comment. by rewrite (Hnone _ Hdrop).
Qed.

Lemma tidy_from_spaced (p : bool) (t : string) :
  tidy_from p t = true → spaced_from p t = true.
Proof.
  revert p. induction t as [|c t IH]; intros p; [done|]. simpl.
  destruct (py_isspace c).
  - intros [Hc Ht]%andb_true_iff. rewrite Hc. by apply IH.
  - apply IH.
Qed.

Lemma tidy_from_one_line (p : bool) (t : string) :
  tidy_from p t = true →
  string_map (λ c, if Ascii.eqb c "013" then "010"%char else c) t = t ∧
  Cleaning.split_on "010" t = [t].
Proof.
  revert p. induction t as [|c t IH]; intros p; [done|]. simpl.
  destruct (py_isspace c) eqn:Hc.
  - intros [[Hb _]%andb_true_iff Ht]%andb_true_iff.
    apply Ascii.eqb_eq in Hb as ->. destruct (IH _ Ht) as [-> ->]. done.
  - intros Ht. destruct (IH _ Ht) as [-> ->].
    destruct (Ascii.eqb_spec c "013") as [->|_]; [done|].
    destruct (Ascii.eqb_spec c "010") as [->|_]; [done|]. done.
Qed.

Lemma spaced_from_collapse (p : bool) (t : string) :
  spaced_from p t = true → Cleaning.collapse_from p t = t.
Proof.
  revert p. induction t as [|c t IH]; intros p; [done|]. simpl.
  destruct (py_isspace c).
  - intros [[Hb Hp]%andb_true_iff Ht]%andb_true_iff.
    apply Ascii.eqb_eq in Hb as ->. destruct p; [done|]. by rewrite IH.
  - intros Ht. by rewrite IH.
Qed.

Lemma tidy_from_last (p : bool) (t : string) :
  t ≠ "" → tidy_from p t = true →
  ∃ c r, String.rev t = String c r ∧ py_isspace c = false.
Proof.
  revert p. induction t as [|c t IH]; intros p Hne; [done|].
  cbn [tidy_from]. destruct (decide (t = "")) as [->|Ht].
  - destruct (py_isspace c) eqn:Hc.
    + rewrite andb_true_iff. simpl. intros [[_ Hp]%andb_true_iff Hf]. done.
    + intros _. by exists c, "".
  - intros Htidy.
    assert (Hrest : ∃ q, tidy_from q t = true).
    { destruct (py_isspace c); [|by eexists].
      apply andb_true_iff in Htidy as [_ Htidy]. by eexists. }
    destruct Hrest as [q Hq]. destruct (IH q Ht Hq) as (d & r & Hr & Hd).
    exists d, (r +:+ String c ""). by rewrite rev_cons_string, Hr.
Qed.

Lemma single_spaced_strip (t : string) : single_spaced t = true → strip t = t.
Proof.
  destruct t as [|c t]; [done|]. unfold single_spaced. intros Htidy.
  destruct (tidy_from_last true (String c t) ltac:(done) Htidy) as (d & r & Hr & Hd).
  assert (Hl : lstrip (String c t) = String c t).
  { simpl in Htidy. simpl. destruct (py_isspace c); [|done].
    by rewrite andb_false_r in Htidy. }
  unfold strip. rewrite Hl. unfold rstrip. rewrite Hr.
  rewrite (lstrip_fixed _ d r) by done. rewrite <- Hr. apply rev_involutive_string.
Qed.

Lemma single_spaced_collapse (t : string) :
  single_spaced t = true → Cleaning.collapse_ws t = t.
Proof.
  destruct t as [|c t]; [done|]. unfold single_spaced, Cleaning.collapse_ws.
  intros Htidy. apply spaced_from_collapse.
  simpl in *. destruct (py_isspace c).
  - by rewrite andb_false_r in Htidy.
  - by apply tidy_from_spaced.
Qed.

(** X30. An ordinary sentence passes through unchanged: a text of one
    line, single-spaced, that is no checklist line, has at least three
    characters besides the stripped marks and no double quote at
    either end, cleans to itself. *)
Theorem plain_sentence_is_kept (t : string) :
  t ≠ "" → single_spaced t = true →
  Cleaning._is_checklist_line t = false →
  (3 ≤ Cleaning.py_len (Cleaning.strip_marks t))%nat →
  Cleaning.strip_chars Cleaning.is_quote t = t →
  Cleaning.clean_comment (VStr t) = t.
Proof.
  intros Hne Htidy Hcheck Hlen Hquote.
  pose proof (single_spaced_strip t Htidy) as Hstrip.
  unfold Cleaning.clean_comment, Cleaning.lines_of. cbv zeta.
  assert (Hline : tidy_from true t = true) by (by destruct t).
  destruct (tidy_from_one_line true t Hline) as [-> ->].
  cbn [map]. rewrite Hstrip. cbn [omap list_omap].
  unfold Cleaning.keep_line at 1. rewrite Hcheck.
  destruct (Nat.ltb_spec (Cleaning.py_len (Cleaning.strip_marks t)) 3) as [?|_]; [lia|].
  rewrite Hquote, Hstrip. cbn [omap list_omap join].
  by rewrite single_spaced_collapse.
Qed.

(** * The theorems on sample inputs *)

Abbreviation sample_key := (build_employee_key_spec sample_repr_float sample_repr_stamp).
Abbreviation sample_generate models chat :=
  (generate_tracker sample_repr_float sample_repr_stamp sample_parse_number
     sample_to_datetime sample_getenv models chat sample_key (λ c, c)).
Abbreviation sample_filtered :=
  (filtered sample_repr_float sample_repr_stamp sample_to_datetime).
Abbreviation sample_mask :=
  (get_week_filter_mask sample_repr_float sample_repr_stamp sample_to_datetime).
Abbreviation sample_belongs :=
  (belongs_to_target_week sample_repr_float sample_repr_stamp sample_to_datetime).
Abbreviation sample_average :=
  (average_of_grades sample_repr_float sample_repr_stamp sample_parse_number).

Lemma pick_first_available_column_spec_witness :
  let d := Frame [LStr "  employee NAME "; LStr "Team-Lead"] [[VStr "a"; VStr "b"]] in
  df_empty d = false ∧
  first_agreeing norm (columns d) ["Team Lead"; "Employee Name"] (LStr "  employee NAME ") ∧
  pick_first_available_column (Some d) ["Team Lead"; "Employee Name"]
    = Some (LStr "  employee NAME ") ∧
  (∀ c col', c ∈ ["Team Lead"] → col' ∈ [LStr "Team-Lead"] → ¬ agree norm c col') ∧
  first_agreeing norm_simple [LStr "Team-Lead"] ["Team Lead"] (LStr "Team-Lead") ∧
  pick_first_available_column (Some (Frame [LStr "Team-Lead"] [[VStr "x"]])) ["Team Lead"]
    = Some (LStr "Team-Lead").
Proof.
  assert (H1 : first_agreeing norm [LStr "  employee NAME "; LStr "Team-Lead"]
                 ["Team Lead"; "Employee Name"] (LStr "  employee NAME ")).
  { exists ["Team Lead"], "Employee Name", [], [], [LStr "Team-Lead"].
    split_and!; try done.
    - intros c col' ->%list_elem_of_singleton Hcol' Hagree.
      apply elem_of_cons in Hcol' as [->|Hcol'];
        [|apply list_elem_of_singleton in Hcol' as ->];
        vm_compute in Hagree; discriminate.
    - intros col' Hcol'. inversion Hcol'. }
  assert (H2 : ∀ c col', c ∈ ["Team Lead"] → col' ∈ [LStr "Team-Lead"] → ¬ agree norm c col').
  { intros c col' ->%list_elem_of_singleton ->%list_elem_of_singleton Hagree.
    vm_compute in Hagree. discriminate. }
  assert (H3 : first_agreeing norm_simple [LStr "Team-Lead"] ["Team Lead"] (LStr "Team-Lead")).
  { exists [], "Team Lead", [], [], []. split_and!; try done.
    - intros c col' Hc. inversion Hc.
    - intros col' Hc. inversion Hc. }
  destruct pick_first_available_column_spec as (_ & _ & Hexact & Hsimple & _ & _).
  split; [done|]. split; [exact H1|]. split; [by apply Hexact|].
  split; [exact H2|]. split; [exact H3|].
  by apply (Hsimple (Frame [LStr "Team-Lead"] [[VStr "x"]])).
Defined.

Lemma average_of_grades_spec_witness :
  (∃ v, v ∈ [VStr "A"; VInt 4; VStr "B"; VInt 3] ∧ is_Some (to_numeric sample_parse_number v)) ∧
  sample_average [VStr "A"; VInt 4; VStr "B"; VInt 3] = Some (7 # 2)%Q ∧
  sample_average [VStr "A"; VInt 4; VStr "B"; VInt 3] = sample_average [VInt 4; VInt 3] ∧
  (∀ v, v ∈ [VStr "A"; VStr "B-"] → to_numeric sample_parse_number v = None) ∧
  sample_average [VStr "A"; VStr "B-"] = Some (87 # 20)%Q.
Proof.
  assert (H1 : ∃ v, v ∈ [VStr "A"; VInt 4; VStr "B"; VInt 3] ∧
                    is_Some (to_numeric sample_parse_number v)).
  { exists (VInt 4). split; [right; left|by eexists]. }
  assert (H2 : ∀ v, v ∈ [VStr "A"; VStr "B-"] → to_numeric sample_parse_number v = None).
  { intros v [->|[->|Hv]%elem_of_cons]%elem_of_cons; [done|done|inversion Hv]. }
  destruct (average_of_grades_spec sample_repr_float sample_repr_stamp sample_parse_number
              [VStr "A"; VInt 4; VStr "B"; VInt 3]) as (Hnum & _ & _).
  destruct (average_of_grades_spec sample_repr_float sample_repr_stamp sample_parse_number
              [VStr "A"; VStr "B-"]) as (_ & Hlet & _).
  destruct (Hnum H1) as [E1 E2].
  split; [exact H1|]. split; [by rewrite E1|]. split; [exact E2|].
  split; [exact H2|]. by rewrite (Hlet H2).
Defined.

Lemma sample_generate_run :
  sample_generate sample_models_ok sample_chat_reply 3 sample_manual sample_sn 5 2 []
    sample_session
  = (Ok sample_tracker, MkSession 0 ∅ 2).
Proof. vm_compute. reflexivity. Qed.

Lemma tracker_row_aggregates_witness :
  sample_generate sample_models_ok sample_chat_reply 3 sample_manual sample_sn 5 2 []
    sample_session
  = (Ok sample_tracker, MkSession 0 ∅ 2) ∧
  ∃ mdf sdf,
    sample_filtered sample_manual 5 2 = Ok mdf ∧
    sample_filtered sample_sn 5 2 = Ok sdf ∧
    most_frequent "Bob"
      (lead_values sample_repr_float sample_repr_stamp sample_key mdf sdf
         (extract_people_fields sample_manual) (extract_people_fields sample_sn) "ann lee").
Proof.
  split; [exact sample_generate_run|].
  destruct (tracker_row_aggregates _ _ _ _ _ _ _ _ _ _ _ _ _ _ _ _ _ _ sample_generate_run)
    as (mdf & sdf & Hm & Hs & Hrows).
  exists mdf, sdf. split; [done|]. split; [done|].
  destruct (Hrows [VStr "ann lee"; VStr ""; VStr ""; VStr "Bob"; VStr "";
                   VStr "ANN LEE, Amy, Ann Lee, Zed"; VStr "May - Week 2";
                   VInt 2; VFloat (9 # 2); VInt 2; VFloat (9 # 2);
                   VStr "probe before troubleshooting."])
    as (name & Hname & Hrow); [left|].
  injection Hname as <-.
  destruct Hrow as ((tl & Htl & Hlead) & _); [done|].
  injection Htl as <-.
  by destruct (lead_values _ _ _ _ _ _ _ _).
Defined.

Lemma averages_are_numeric_witness :
  sample_generate sample_models_ok sample_chat_reply 3 sample_manual sample_sn 5 2 []
    sample_session
  = (Ok sample_tracker, MkSession 0 ∅ 2) ∧
  ∀ row, row ∈ rows sample_tracker →
    number_or_blank (field sample_tracker row "Service Now Assessments Average Rating") ∧
    number_or_blank (field sample_tracker row "Manual Assessments Average Rating").
Proof.
  split; [exact sample_generate_run|].
  destruct (averages_are_numeric _ _ _ _ _ _ _ _ _ _ _ _ _ _ _ _ _ _ sample_generate_run)
    as (mdf & sdf & _ & _ & Hrows).
  intros row Hrow.
  destruct (Hrows row Hrow) as (name & sn_vals & manual_vals & _ & _ & _ & _ & _ & Hsn & Hma).
  by split.
Defined.

Lemma sample_dates_readable :
  dates_readable sample_to_datetime sample_manual ∧
  dates_readable sample_to_datetime sample_sn ∧
  dates_readable sample_to_datetime sample_no_week ∧
  dates_readable sample_to_datetime sample_empty.
Proof.
  unfold dates_readable. split_and!.
  - intros He Hw. vm_compute in Hw. discriminate.
  - intros He Hw. vm_compute in Hw. discriminate.
  - intros He Hw dc v Hd. vm_compute in Hd. discriminate.
  - intros He. vm_compute in He. discriminate.
Defined.

Lemma sample_probes_quiet : probes_never_rate_limited sample_models_ok.
Proof. intros t key msg Hm. discriminate. Defined.

Lemma sample_session_valid : valid_session sample_getenv sample_session.
Proof. right. vm_compute. lia. Defined.

Lemma tracker_rows_per_key_witness :
  (1 ≤ 5 ≤ 12)%Z ∧
  dates_readable sample_to_datetime sample_manual ∧
  dates_readable sample_to_datetime sample_sn ∧
  probes_never_rate_limited sample_models_ok ∧
  valid_session sample_getenv sample_session ∧
  (1 ≤ 3)%nat ∧
  ∃ out s' names,
    sample_generate sample_models_ok sample_chat_reply 3 sample_manual sample_sn 5 2 []
      sample_session = (Ok out, s') ∧
    columns out = map LStr col_order ∧
    length (columns out) = 12%nat ∧
    Forall2 (λ name row, length row = 12%nat ∧ field out row "Employee Name" = VStr name)
            names (rows out).
Proof.
  destruct sample_dates_readable as (Hd1 & Hd2 & _ & _).
  assert (Hmonth : (1 ≤ 5 ≤ 12)%Z) by lia.
  assert (Hdepth : (1 ≤ 3)%nat) by lia.
  split_and!; try done; try exact sample_probes_quiet; try exact sample_session_valid.
  destruct (tracker_rows_per_key sample_repr_float sample_repr_stamp sample_parse_number
              sample_to_datetime sample_getenv sample_models_ok sample_chat_reply
              sample_key (λ c, c) 3 sample_manual sample_sn 5 2 [] sample_session
              Hmonth Hd1 Hd2 sample_probes_quiet sample_session_valid Hdepth)
    as (out & s' & names & Hrun & _ & _ & _ & Hcols & Hlen & Hrows).
  by exists out, s', names.
Defined.

Lemma missing_columns_give_empty_fields_witness :
  (1 ≤ 5 ≤ 12)%Z ∧
  dates_readable sample_to_datetime sample_no_week ∧
  dates_readable sample_to_datetime sample_empty ∧
  probes_never_rate_limited sample_models_ok ∧
  valid_session sample_getenv sample_session ∧
  (1 ≤ 3)%nat ∧
  tl_col (extract_people_fields sample_no_week) = None ∧
  tl_col (extract_people_fields sample_empty) = None ∧
  comments_col (extract_people_fields sample_no_week) = None ∧
  comments_col (extract_people_fields sample_empty) = None ∧
  sn_rating_col (extract_people_fields sample_empty) = None ∧
  ∃ out s',
    sample_generate sample_models_ok sample_chat_reply 3 sample_no_week sample_empty 5 2 []
      sample_session = (Ok out, s') ∧
    ∀ row, row ∈ rows out →
      field out row "Team Lead" = VStr "" ∧
      field out row "Areas to Improve" = VStr "" ∧
      field out row "Service Now Assessments Count" = VStr "" ∧
      field out row "Service Now Assessments Average Rating" = VStr "".
Proof.
  destruct sample_dates_readable as (_ & _ & Hd1 & Hd2).
  assert (Hmonth : (1 ≤ 5 ≤ 12)%Z) by lia.
  assert (Hdepth : (1 ≤ 3)%nat) by lia.
  split_and!; try done; try exact sample_probes_quiet; try exact sample_session_valid.
  destruct (missing_columns_give_empty_fields sample_repr_float sample_repr_stamp
              sample_parse_number sample_to_datetime sample_getenv sample_models_ok
              sample_chat_reply sample_key (λ c, c) 3 sample_no_week sample_empty 5 2 []
              sample_session Hmonth Hd1 Hd2 sample_probes_quiet sample_session_valid Hdepth)
    as (out & s' & Hrun & _ & Hrows).
  exists out, s'. split; [done|]. intros row Hrow.
  destruct (Hrows row Hrow) as (Htl & _ & Hcm & Hsn & _).
  split; [by apply Htl|]. split; [by apply Hcm|]. by apply Hsn.
Defined.

Lemma completion_failure_gives_empty_text_witness :
  get_next_groq_client sample_getenv sample_models_ok 3 sample_session
    = (Ok (Some "key-a"), MkSession 0 ∅ 1) ∧
  sample_chat_limited 1 "key-a" default_system
    (user_prompt (join " " (cleaned_bits sample_repr_float sample_repr_stamp (λ c, c)
                              ["Probe more"; "  "; "late notes"])))
    = Failed "Rate limit reached for model" ∧
  ∃ s2,
    synthesize_areas_to_improve sample_repr_float sample_repr_stamp sample_getenv
      sample_models_ok sample_chat_limited (λ c, c) 3
      ["Probe more"; "  "; "late notes"] "ann lee" [] sample_session
    = (Ok "", s2).
Proof.
  assert (Hget : get_next_groq_client sample_getenv sample_models_ok 3 sample_session
                 = (Ok (Some "key-a"), MkSession 0 ∅ 1)) by (vm_compute; reflexivity).
  split; [exact Hget|]. split; [reflexivity|].
  destruct (completion_failure_gives_empty_text sample_repr_float sample_repr_stamp
              sample_getenv sample_models_ok sample_chat_limited (λ c, c)) as [_ Hsyn].
  apply (Hsyn 3 ["Probe more"; "  "; "late notes"] "ann lee" [] sample_session
              "key-a" (MkSession 0 ∅ 1) "Rate limit reached for model" Hget).
  reflexivity.
Defined.


Lemma unfiltered_without_week_or_date_witness :
  df_empty sample_no_week = false ∧
  usable_col (week_col (extract_people_fields sample_no_week)) sample_no_week = None ∧
  usable_col (date_col (extract_people_fields sample_no_week)) sample_no_week = None ∧
  sample_mask (Some sample_no_week) (week_col (extract_people_fields sample_no_week))
    (date_col (extract_people_fields sample_no_week)) 5 2 = Ok [true] ∧
  week_col (extract_people_fields sample_no_week) = None ∧
  date_col (extract_people_fields sample_no_week) = None ∧
  sample_filtered sample_no_week 5 2 = Ok sample_no_week.
Proof.
  destruct (unfiltered_without_week_or_date sample_repr_float sample_repr_stamp
              sample_to_datetime) as [Hmask Hwhole].
  split; [reflexivity|]. split; [reflexivity|]. split; [reflexivity|].
  split.
  { by destruct (Hmask sample_no_week
                   (week_col (extract_people_fields sample_no_week))
                   (date_col (extract_people_fields sample_no_week)) 5%Z 2%Z
                   eq_refl eq_refl eq_refl) as [-> _]. }
  split; [reflexivity|]. split; [reflexivity|].
  by apply Hwhole.
Defined.

Lemma sample_same_name : same_name "Ann Lee" " ann lee ".
Proof.
  exists "", "Ann Lee", "", " ", "ann lee", " ". by split_and!.
Defined.

Lemma sample_same_name_upper : same_name "Ann Lee" "ANN LEE".
Proof.
  exists "", "Ann Lee", "", "", "ANN LEE", "". by split_and!.
Defined.

Lemma sample_filtered_runs :
  sample_filtered sample_manual 5 2
    = Ok (Frame (columns sample_manual)
            [[VStr "Ann Lee"; VStr "Bob"; VStr "Zed"; VStr "Week 2"; VStr "A"; VStr "Probe more"];
             [VStr " ann lee "; VStr "Bob "; VStr "Amy"; VInt 2; VStr "B"; VNaN];
             [VStr "Cy"; VStr "Eve"; VNone; VInt 2; VInt 4; VStr ""]]) ∧
  sample_filtered sample_sn 5 2 = Ok sample_sn.
Proof. split; vm_compute; reflexivity. Defined.


Example week_filter_by_date :
  sample_mask (Some sample_dated) None (Some (LStr "Assessed On")) 5 2
    = Ok [true; false; false; false; true].
Proof. vm_compute. reflexivity. Qed.

Example week_filter_unparsed_date :
  sample_mask (Some sample_undated) None (Some (LStr "Assessed On")) 5 2
    = Raise (ValueError "cannot convert float NaN to integer").
Proof. vm_compute. reflexivity. Qed.

Example most_common_tie : most_common1 (Counter ["b"; "a"; "c"; "a"; "b"]) = Some "b".
Proof. vm_compute. reflexivity. Qed.

Example all_keys_always_limited :
  get_next_groq_client sample_getenv sample_models_limited 2 sample_session
    = (Raise RecursionError,
       MkSession 0 (<[2%nat := false]> (<[1%nat := false]> {[0%nat := false]})) 9).
Proof. vm_compute. reflexivity. Qed.

Example rotation_after_two_limited_probes :
  get_next_groq_client sample_getenv
    (λ t _, if (t <? 2)%nat then Some "quota exceeded" else None) 2 sample_session
    = (Ok (Some "key-c"),
       MkSession 2 (<[1%nat := true]> {[0%nat := true]}) 3).
Proof. vm_compute. reflexivity. Qed.

(** * An input on which the code does not do what C1 says *)

(** C1 at a failing input. The three records of "Ann" in the manual
    table have the team-lead cells NaN, NaN and "Bob" and the assessor
    cells "Zed", NaN and "Amy". The only normalized team-lead value of
    the records is "Bob" and the normalized assessor values are "Zed"
    and "Amy"; the row of the tracker has Team Lead "nan", which is not
    among the team-lead values, and lists "nan" among the assessors. *)
Theorem blank_cells_counted_as_values :
  sample_generate sample_models_ok sample_chat_reply 3 sample_blank_leads sample_empty
    5 2 [] sample_session
  = (Ok sample_tracker_blank, sample_session) ∧
  sample_filtered sample_blank_leads 5 2 = Ok sample_blank_leads ∧
  records_of sample_key sample_blank_leads (extract_people_fields sample_blank_leads) "ann"
    = rows sample_blank_leads ∧
  normalized_cells sample_repr_float sample_repr_stamp sample_blank_leads
    (tl_col (extract_people_fields sample_blank_leads)) (rows sample_blank_leads)
    = ["Bob"] ∧
  normalized_cells sample_repr_float sample_repr_stamp sample_blank_leads
    (qa_col (extract_people_fields sample_blank_leads)) (rows sample_blank_leads)
    = ["Zed"; "Amy"] ∧
  (∀ row, row ∈ rows sample_tracker_blank →
     field sample_tracker_blank row "Employee Name" = VStr "ann" ∧
     field sample_tracker_blank row "Team Lead" = VStr "nan" ∧
     field sample_tracker_blank row "Quality Assessors" = VStr "Amy, Zed, nan") ∧
  ¬ most_frequent "nan" ["Bob"].
Proof.
  split_and!; try (vm_compute; reflexivity).
  - intros row ->%list_elem_of_singleton. by split_and!.
  - intros [Hin _]. apply list_elem_of_singleton in Hin. discriminate.
Qed.

(** * Inputs on which the claims as first stated fail *)

(** C9 as stated: on a table with one row and no column, for which no
    week or date column is resolved, the mask is empty, not one [True]
    per row. *)
Lemma mask_of_columnless_table :
  week_col (extract_people_fields sample_columnless) = None ∧
  date_col (extract_people_fields sample_columnless) = None ∧
  df_len sample_columnless = 1%nat ∧
  sample_mask (Some sample_columnless) None None 5 2 = Ok [] ∧
  sample_mask (Some sample_columnless) None None 5 2
    ≠ Ok (replicate (df_len sample_columnless) true).
Proof. split_and!; try reflexivity. vm_compute. discriminate. Qed.

(** C3 as stated: the table has no week or date column, its only row is
    kept although nothing places it in week 2 of May (its own "Period"
    cell says week 1), and the tracker has a row for it. *)
Lemma row_outside_target_week_retained :
  sample_filtered sample_no_week 5 2 = Ok sample_no_week ∧
  [VStr "Ann"; VStr "Week 1"] ∈ rows sample_no_week ∧
  sample_belongs sample_no_week 5 2 [VStr "Ann"; VStr "Week 1"] = false ∧
  sample_generate sample_models_ok sample_chat_reply 3 sample_no_week sample_empty 5 2 []
    sample_session
  = (Ok sample_tracker_no_week, sample_session) ∧
  ¬ (∀ df month_n week_n fdf row,
       sample_filtered df month_n week_n = Ok fdf → row ∈ rows fdf →
       sample_belongs df month_n week_n row = true).
Proof.
  assert (Hf : sample_filtered sample_no_week 5 2 = Ok sample_no_week)
    by (vm_compute; reflexivity).
  split_and!; [done|left|reflexivity|vm_compute; reflexivity|].
  intros Hall.
  specialize (Hall sample_no_week 5%Z 2%Z sample_no_week [VStr "Ann"; VStr "Week 1"] Hf).
  discriminate Hall. left.
Qed.

(** C6 as stated: the team-lead column is not resolved in the manual
    table, yet the Team Lead field of the row is not empty: it comes from
    the ticketing table. *)
Lemma team_lead_from_the_other_table :
  tl_col (extract_people_fields sample_manual_no_lead) = None ∧
  sample_generate sample_models_ok sample_chat_reply 3
    sample_manual_no_lead sample_sn_with_lead 5 2 [] sample_session
  = (Ok sample_tracker_lead, sample_session) ∧
  (∀ row, row ∈ rows sample_tracker_lead →
     field sample_tracker_lead row "Team Lead" = VStr "Bob") ∧
  ¬ (∀ manual_df sn_df out s' row,
       tl_col (extract_people_fields manual_df) = None →
       sample_generate sample_models_ok sample_chat_reply 3 manual_df sn_df 5 2 []
         sample_session = (Ok out, s') →
       row ∈ rows out → field out row "Team Lead" = VStr "").
Proof.
  assert (Hrun : sample_generate sample_models_ok sample_chat_reply 3
            sample_manual_no_lead sample_sn_with_lead 5 2 [] sample_session
          = (Ok sample_tracker_lead, sample_session)) by (vm_compute; reflexivity).
  split_and!; [reflexivity|done| |].
  - intros row ->%list_elem_of_singleton. reflexivity.
  - intros Hall.
    specialize (Hall sample_manual_no_lead sample_sn_with_lead sample_tracker_lead
                  sample_session _ eq_refl Hrun (list_elem_of_here _ _)).
    discriminate Hall.
Qed.

(** * The further properties on sample inputs *)

Lemma norm_value_trimmed_witness :
  _norm sample_repr_float sample_repr_stamp (VStr "  Bob ") = Some "Bob" ∧
  strip "Bob" = "Bob" ∧
  _norm sample_repr_float sample_repr_stamp (VStr "Bob") = Some "Bob".
Proof.
  assert (H : _norm sample_repr_float sample_repr_stamp (VStr "  Bob ") = Some "Bob")
    by (vm_compute; reflexivity).
  split; [exact H|].
  exact (proj1 (norm_value_trimmed sample_repr_float sample_repr_stamp) (VStr "  Bob ") "Bob" H).
Defined.

Lemma pick_first_available_column_candidates_witness :
  map norm [" TEAM lead"; "grade "] = map norm ["Team Lead"; "Grade"] ∧
  pick_first_available_column (Some sample_manual) [" TEAM lead"; "grade "]
    = pick_first_available_column (Some sample_manual) ["Team Lead"; "Grade"].
Proof.
  assert (H : map norm [" TEAM lead"; "grade "] = map norm ["Team Lead"; "Grade"])
    by (vm_compute; reflexivity).
  split; [exact H|].
  exact (pick_first_available_column_candidates (Some sample_manual) _ _ H).
Defined.

Lemma week_of_month_range_witness :
  (1 ≤ day (Date 2024 5 31) ≤ 31)%Z ∧ (1 ≤ week_of_month (Date 2024 5 31) ≤ 6)%Z.
Proof.
  assert (H : (1 ≤ day (Date 2024 5 31) ≤ 31)%Z) by (simpl; lia).
  split; [exact H|]. exact (proj2 week_of_month_range (Date 2024 5 31) H).
Defined.

Lemma sample_same_grade : same_name " b+ " "B+".
Proof. exists " ", "b+", " ", "", "B+", "". by split_and!. Defined.

Lemma letter_grade_to_score_spec_witness :
  same_name " b+ " "B+" ∧
  letter_grade_to_score sample_repr_float sample_repr_stamp (VStr " b+ ")
    = letter_grade_to_score sample_repr_float sample_repr_stamp (VStr "B+").
Proof.
  split; [exact sample_same_grade|].
  exact (proj1 (letter_grade_to_score_spec sample_repr_float sample_repr_stamp)
           " b+ " "B+" sample_same_grade).
Defined.

Lemma average_of_grades_order_witness :
  [VInt 4; VStr "A"; VInt 5] ≡ₚ [VStr "A"; VInt 4; VInt 5] ∧
  sample_average [VInt 4; VStr "A"; VInt 5] = sample_average [VStr "A"; VInt 4; VInt 5].
Proof.
  assert (H : [VInt 4; VStr "A"; VInt 5] ≡ₚ [VStr "A"; VInt 4; VInt 5])
    by apply Permutation_swap.
  split; [exact H|].
  exact (average_of_grades_order sample_repr_float sample_repr_stamp sample_parse_number
           _ _ H).
Defined.


Lemma clean_output_spec_witness :
  (∀ p, p ∈ output_prefixes → contains p "  probe more. " = false) ∧
  clean_output "  probe more. " = strip "  probe more. ".
Proof.
  assert (H : ∀ p, p ∈ output_prefixes → contains p "  probe more. " = false).
  { intros p Hp. unfold output_prefixes in Hp.
    repeat (apply elem_of_cons in Hp as [->|Hp]; [vm_compute; reflexivity|]).
    inversion Hp. }
  split; [exact H|].
  exact (proj1 (proj2 clean_output_spec) "  probe more. " H).
Defined.

Lemma sample_keys : get_api_keys_from_env sample_getenv = ["key-a"; "key-b"; "key-c"].
Proof. vm_compute. reflexivity. Defined.

Lemma get_api_keys_from_env_spec_witness :
  "key-b" ∈ get_api_keys_from_env sample_getenv ∧ strip "key-b" = "key-b".
Proof.
  assert (H : "key-b" ∈ get_api_keys_from_env sample_getenv).
  { rewrite sample_keys. right. left. }
  split; [exact H|].
  exact (proj1 (proj2 (proj2 (get_api_keys_from_env_spec sample_getenv))) "key-b" H).
Defined.

Lemma is_rate_limit_error_spec_witness :
  is_rate_limit_error "Too Many Requests" = true ∧
  is_rate_limit_error ("Error: " +:+ "Too Many Requests" +:+ ", retry later") = true.
Proof.
  assert (H : is_rate_limit_error "Too Many Requests" = true) by (vm_compute; reflexivity).
  split; [exact H|].
  exact (proj1 (proj2 is_rate_limit_error_spec) "Error: " "Too Many Requests"
           ", retry later" H).
Defined.

Lemma acquisition_keeps_index_valid_witness :
  valid_session sample_getenv sample_session ∧
  get_next_groq_client sample_getenv sample_models_first_limited 1 sample_session
    = (Ok (Some "key-b"), MkSession 1 {[0%nat := true]} 2) ∧
  valid_session sample_getenv (MkSession 1 {[0%nat := true]} 2) ∧
  (clock sample_session ≤ 2 ≤ clock sample_session
                               + length (get_api_keys_from_env sample_getenv) * 2)%nat.
Proof.
  assert (H : get_next_groq_client sample_getenv sample_models_first_limited 1 sample_session
              = (Ok (Some "key-b"), MkSession 1 {[0%nat := true]} 2))
    by (vm_compute; reflexivity).
  split; [exact sample_session_valid|]. split; [exact H|].
  exact (proj1 (acquisition_keeps_index_valid sample_getenv sample_models_first_limited
                  sample_chat_reply) 1%nat sample_session _ _ sample_session_valid H).
Defined.

Lemma stale_key_index_raises_witness :
  get_api_keys_from_env sample_getenv ≠ [] ∧
  (length (get_api_keys_from_env sample_getenv) ≤ groq_key_index sample_session_stale)%nat ∧
  get_next_groq_client sample_getenv sample_models_ok 3 sample_session_stale
    = (Raise IndexError, sample_session_stale) ∧
  groq_chat_completion sample_getenv sample_models_ok sample_chat_reply 3 "text" None
    sample_session_stale = (Raise IndexError, sample_session_stale).
Proof.
  assert (H1 : get_api_keys_from_env sample_getenv ≠ []) by (by rewrite sample_keys).
  assert (H2 : (length (get_api_keys_from_env sample_getenv)
                ≤ groq_key_index sample_session_stale)%nat)
    by (rewrite sample_keys; simpl; lia).
  destruct (stale_key_index_raises sample_repr_float sample_repr_stamp sample_getenv
              sample_models_ok sample_chat_reply (λ c, c) 3 sample_session_stale H1 H2)
    as (Hget & Hchat & _).
  split; [exact H1|]. split; [exact H2|]. split; [exact Hget|]. apply Hchat.
Defined.

Lemma working_key_is_kept_witness :
  get_api_keys_from_env sample_getenv !! groq_key_index sample_session = Some "key-a" ∧
  limit_of sample_session (groq_key_index sample_session) = false ∧
  sample_models_ok (clock sample_session) "key-a" = None ∧
  get_next_groq_client sample_getenv sample_models_ok 3 sample_session
    = (Ok (Some "key-a"), tick sample_session).
Proof.
  assert (H1 : get_api_keys_from_env sample_getenv !! groq_key_index sample_session
               = Some "key-a") by (by rewrite sample_keys).
  assert (H2 : limit_of sample_session (groq_key_index sample_session) = false)
    by reflexivity.
  assert (H3 : sample_models_ok (clock sample_session) "key-a" = None) by reflexivity.
  split; [exact H1|]. split; [exact H2|]. split; [exact H3|].
  exact (working_key_is_kept sample_getenv sample_models_ok 3 sample_session "key-a"
           H1 H2 H3).
Defined.

Lemma all_keys_limited_reset_witness :
  (groq_key_index sample_session_all_limited
   < length (get_api_keys_from_env sample_getenv))%nat ∧
  (∀ i, (i < length (get_api_keys_from_env sample_getenv))%nat →
        limit_of sample_session_all_limited i = true) ∧
  ∃ s0, groq_key_index s0 = 0%nat ∧ clock s0 = 4%nat ∧
        get_next_groq_client sample_getenv sample_models_ok 0 sample_session_all_limited
          = (Raise RecursionError, s0) ∧
        get_next_groq_client sample_getenv sample_models_ok 1 sample_session_all_limited
          = get_next_groq_client sample_getenv sample_models_ok 0 s0.
Proof.
  assert (H1 : (groq_key_index sample_session_all_limited
                < length (get_api_keys_from_env sample_getenv))%nat)
    by (rewrite sample_keys; simpl; lia).
  assert (H2 : ∀ i, (i < length (get_api_keys_from_env sample_getenv))%nat →
                    limit_of sample_session_all_limited i = true).
  { rewrite sample_keys. intros [|[|[|i]]] Hi; [reflexivity..|simpl in Hi; lia]. }
  destruct (all_keys_limited_reset sample_getenv sample_models_ok
              sample_session_all_limited H1 H2)
    as (s0 & Hidx & Hclock & _ & _ & Hstep & Hzero).
  split; [exact H1|]. split; [exact H2|].
  exists s0. split; [exact Hidx|]. split; [exact Hclock|]. split; [exact Hzero|].
  apply Hstep.
Defined.

Lemma no_keys_no_remote_call_witness :
  get_api_keys_from_env sample_no_env = [] ∧
  groq_chat_completion sample_no_env sample_models_ok sample_chat_reply 3 "text" None
    sample_session = (Ok "", sample_session) ∧
  groq_complete sample_no_env sample_models_ok sample_create_none 3 [] 220 sample_session
    = (Ok "", sample_session).
Proof.
  assert (H : get_api_keys_from_env sample_no_env = []) by (vm_compute; reflexivity).
  destruct (no_keys_no_remote_call sample_repr_float sample_repr_stamp sample_no_env
              sample_models_ok sample_chat_reply (λ c, c) H) as (_ & Hchat & Hcomplete & _).
  split; [exact H|]. split; [apply Hchat|apply Hcomplete].
Defined.

Lemma groq_complete_spec_witness :
  get_next_groq_client sample_getenv sample_models_ok 3 sample_session
    = (Ok (Some "key-a"), MkSession 0 ∅ 1) ∧
  sample_create_none 1 "key-a" [] 220%Z = Replied [] ∧
  groq_complete sample_getenv sample_models_ok sample_create_none 3 [] 220 sample_session
    = (Ok "", MkSession 0 ∅ 2).
Proof.
  assert (H1 : get_next_groq_client sample_getenv sample_models_ok 3 sample_session
               = (Ok (Some "key-a"), MkSession 0 ∅ 1)) by (vm_compute; reflexivity).
  assert (H2 : sample_create_none 1 "key-a" [] 220%Z = Replied []) by reflexivity.
  split; [exact H1|]. split; [exact H2|].
  exact (proj1 (proj2 (proj2 (groq_complete_spec sample_getenv sample_models_ok)))
           sample_create_none 3%nat [] 220%Z sample_session "key-a" (MkSession 0 ∅ 1) H1 H2).
Defined.

Lemma pick_first_available_column_sound_witness :
  pick_first_available_column (Some sample_sn) ["TL"; "manager"] = Some (LStr "Manager") ∧
  ∃ d cand, Some sample_sn = Some d ∧ df_empty d = false ∧ LStr "Manager" ∈ columns d ∧
            cand ∈ ["TL"; "manager"] ∧
            (agree norm cand (LStr "Manager") ∨
             ((∀ c col', c ∈ ["TL"; "manager"] → col' ∈ columns d → ¬ agree norm c col') ∧
              agree norm_simple cand (LStr "Manager"))).
Proof.
  assert (H : pick_first_available_column (Some sample_sn) ["TL"; "manager"]
              = Some (LStr "Manager")) by (vm_compute; reflexivity).
  split; [exact H|].
  exact (pick_first_available_column_sound (Some sample_sn) ["TL"; "manager"]
           (LStr "Manager") H).
Defined.

Lemma resolved_columns_are_usable_witness :
  let cols := extract_people_fields sample_manual in
  Some (LStr "Week") ∈ [name_col cols; tl_col cols; qa_col cols; week_col cols;
                         date_col cols; sn_rating_col cols; manual_grade_col cols;
                         comments_col cols] ∧
  LStr "Week" ∈ columns sample_manual ∧ label_truthy (LStr "Week") = true.
Proof.
  intros cols.
  assert (H : Some (LStr "Week") ∈ [name_col cols; tl_col cols; qa_col cols; week_col cols;
                                     date_col cols; sn_rating_col cols; manual_grade_col cols;
                                     comments_col cols]).
  { do 3 right. assert (Hw : week_col cols = Some (LStr "Week")) by (vm_compute; reflexivity).
    rewrite Hw. left. }
  split; [exact H|].
  exact (proj1 (resolved_columns_are_usable sample_manual) (LStr "Week") H).
Defined.

Lemma week_filter_mask_length_witness :
  df_empty sample_manual = false ∧
  sample_mask (Some sample_manual) (Some (LStr "Week")) None 5 2
    = Ok [true; true; false; true] ∧
  length [true; true; false; true] = df_len sample_manual.
Proof.
  assert (H1 : df_empty sample_manual = false) by reflexivity.
  assert (H2 : sample_mask (Some sample_manual) (Some (LStr "Week")) None 5 2
               = Ok [true; true; false; true]) by (vm_compute; reflexivity).
  split; [exact H1|]. split; [exact H2|].
  exact (week_filter_mask_length sample_repr_float sample_repr_stamp sample_to_datetime
           sample_manual (Some (LStr "Week")) None 5 2 _ H1 H2).
Defined.

Lemma week_column_overrides_date_witness :
  week_col (extract_people_fields sample_manual) = Some (LStr "Week") ∧
  sample_filtered sample_manual 5 2 = sample_filtered sample_manual 11 2.
Proof.
  assert (H : week_col (extract_people_fields sample_manual) = Some (LStr "Week"))
    by (vm_compute; reflexivity).
  split; [exact H|].
  exact (proj2 (week_column_overrides_date sample_repr_float sample_repr_stamp
                  sample_to_datetime sample_manual (LStr "Week") 5 11 2 H)).
Defined.

Lemma synthesis_asks_service_witness :
  (∀ c, c ∈ [" "; ""] → strip c = "") ∧
  synthesize_areas_to_improve sample_repr_float sample_repr_stamp sample_getenv
    sample_models_ok sample_chat_reply (λ c, c) 3 [" "; ""] "ann lee" [] sample_session
  = (Ok "", sample_session).
Proof.
  assert (H : ∀ c, c ∈ [" "; ""] → strip c = "").
  { intros c [->|[->|Hc]%elem_of_cons]%elem_of_cons; [reflexivity|reflexivity|inversion Hc]. }
  split; [exact H|].
  exact (proj1 (synthesis_asks_service sample_repr_float sample_repr_stamp sample_getenv
                  sample_models_ok sample_chat_reply (λ c, c))
           3%nat [" "; ""] "ann lee" [] sample_session H).
Defined.

Lemma tracker_fixed_fields_witness :
  sample_generate sample_models_ok sample_chat_reply 3 sample_manual sample_sn 5 2 []
    sample_session
  = (Ok sample_tracker, MkSession 0 ∅ 2) ∧
  ∀ row, row ∈ rows sample_tracker →
    ∃ mon, month_abbr 5 = Some mon ∧
      field sample_tracker row "Emp ID" = VStr "" ∧
      field sample_tracker row "Organization" = VStr "" ∧
      field sample_tracker row "Status" = VStr "" ∧
      field sample_tracker row "Week" = VStr (mon +:+ " - Week " +:+ pretty 2%Z).
Proof.
  split; [exact sample_generate_run|].
  exact (tracker_fixed_fields _ _ _ _ _ _ _ _ _ _ _ _ _ _ _ _ _ _ sample_generate_run).
Defined.

Lemma tracker_counts_witness :
  sample_generate sample_models_ok sample_chat_reply 3 sample_manual sample_sn 5 2 []
    sample_session
  = (Ok sample_tracker, MkSession 0 ∅ 2) ∧
  ∀ row, row ∈ rows sample_tracker →
    field sample_tracker row "Service Now Assessments Count" ≠ VInt 0 ∧
    field sample_tracker row "Manual Assessments Count" ≠ VInt 0 ∧
    (field sample_tracker row "Service Now Assessments Count" = VStr "" ↔
     field sample_tracker row "Service Now Assessments Average Rating" = VStr "").
Proof.
  split; [exact sample_generate_run|].
  destruct (tracker_counts _ _ _ _ _ _ _ _ _ _ _ _ _ _ _ _ _ _ sample_generate_run)
    as (mdf & sdf & _ & _ & Hrows).
  intros row Hrow. destruct (Hrows row Hrow) as (name & _ & _ & H1 & H2 & H3 & _).
  split; [exact H1|]. split; [exact H2|exact H3].
Defined.

Lemma month_out_of_range_witness :
  ¬ (1 ≤ 13 ≤ 12)%Z ∧
  sample_filtered sample_manual_no_lead 13 2 = Ok sample_manual_no_lead ∧
  sample_filtered sample_empty 13 2 = Ok sample_empty ∧
  ∃ s', sample_generate sample_models_ok sample_chat_reply 3 sample_manual_no_lead
          sample_empty 13 2 [] sample_session
        = (Raise (ValueError "month must be in 1..12"), s').
Proof.
  assert (H1 : ¬ (1 ≤ 13 ≤ 12)%Z) by lia.
  assert (H2 : sample_filtered sample_manual_no_lead 13 2 = Ok sample_manual_no_lead)
    by (vm_compute; reflexivity).
  assert (H3 : sample_filtered sample_empty 13 2 = Ok sample_empty)
    by (vm_compute; reflexivity).
  destruct (month_out_of_range sample_repr_float sample_repr_stamp sample_parse_number
              sample_to_datetime sample_getenv sample_models_ok sample_chat_reply
              sample_key (λ c, c) 3 sample_manual_no_lead sample_empty 13 2 []
              sample_session _ _ H1 H2 H3) as (_ & Hraise & _).
  split; [exact H1|]. split; [exact H2|]. split; [exact H3|].
  apply Hraise.
  - vm_compute. discriminate.
  - exact sample_probes_quiet.
  - exact sample_session_valid.
  - lia.
Defined.

Lemma sample_small_dates_readable :
  dates_readable sample_to_datetime sample_manual_no_lead ∧
  dates_readable sample_to_datetime sample_empty.
Proof.
  unfold dates_readable. split.
  - intros He Hw dc v Hd. vm_compute in Hd. discriminate.
  - intros He. vm_compute in He. discriminate.
Defined.

Lemma tracker_without_keys_witness :
  get_api_keys_from_env sample_no_env = [] ∧
  (1 ≤ 5 ≤ 12)%Z ∧
  dates_readable sample_to_datetime sample_manual_no_lead ∧
  dates_readable sample_to_datetime sample_empty ∧
  ∃ out,
    generate_tracker sample_repr_float sample_repr_stamp sample_parse_number
      sample_to_datetime sample_no_env sample_models_ok sample_chat_reply sample_key
      (λ c, c) 3 sample_manual_no_lead sample_empty 5 2 [] sample_session
    = (Ok out, sample_session) ∧
    ∀ row, row ∈ rows out → field out row "Areas to Improve" = VStr "".
Proof.
  assert (H1 : get_api_keys_from_env sample_no_env = []) by (vm_compute; reflexivity).
  assert (H2 : (1 ≤ 5 ≤ 12)%Z) by lia.
  destruct sample_small_dates_readable as [H3 H4].
  split; [exact H1|]. split; [exact H2|]. split; [exact H3|]. split; [exact H4|].
  exact (tracker_without_keys sample_repr_float sample_repr_stamp sample_parse_number
           sample_to_datetime sample_no_env sample_models_ok sample_chat_reply sample_key
           (λ c, c) 3 sample_manual_no_lead sample_empty 5 2 [] sample_session
           H1 H2 H3 H4).
Defined.

Lemma sample_blank_name_run :
  sample_generate sample_models_ok sample_chat_reply 3 sample_blank_name sample_empty 5 2 []
    sample_session
  = (Ok sample_tracker_blank_name, sample_session).
Proof. vm_compute. reflexivity. Qed.

Lemma blank_key_row_is_empty_witness :
  let row := [VStr ""; VStr ""; VStr ""; VStr ""; VStr ""; VStr ""; VStr "May - Week 2";
              VStr ""; VStr ""; VStr ""; VStr ""; VStr ""] in
  sample_generate sample_models_ok sample_chat_reply 3 sample_blank_name sample_empty 5 2 []
    sample_session
  = (Ok sample_tracker_blank_name, sample_session) ∧
  row ∈ rows sample_tracker_blank_name ∧
  field sample_tracker_blank_name row "Employee Name" = VStr "" ∧
  field sample_tracker_blank_name row "Team Lead" = VStr "" ∧
  field sample_tracker_blank_name row "Manual Assessments Count" = VStr "".
Proof.
  intros row.
  assert (H1 : row ∈ rows sample_tracker_blank_name) by left.
  assert (H2 : field sample_tracker_blank_name row "Employee Name" = VStr "") by reflexivity.
  destruct (blank_key_row_is_empty _ _ _ _ _ _ _ _ _ _ _ _ _ _ _ _ _ _ row
              sample_blank_name_run H1 H2) as (Htl & _ & _ & _ & Hcount & _).
  split; [exact sample_blank_name_run|]. split; [exact H1|]. split; [exact H2|].
  split; [exact Htl|exact Hcount].
Defined.

Lemma team_lead_tie_goes_to_first_witness :
  let row := [VStr "cy"; VStr ""; VStr ""; VStr "Eve"; VStr "";
              VStr "Cy"; VStr "May - Week 2";
              VStr ""; VStr ""; VInt 1; VFloat 4; VStr ""] in
  sample_generate sample_models_ok sample_chat_reply 3 sample_manual sample_sn 5 2 []
    sample_session
  = (Ok sample_tracker, MkSession 0 ∅ 2) ∧
  row ∈ rows sample_tracker ∧
  ∃ mdf sdf,
    sample_filtered sample_manual 5 2 = Ok mdf ∧
    sample_filtered sample_sn 5 2 = Ok sdf ∧
    let leads := lead_values sample_repr_float sample_repr_stamp sample_key mdf sdf
                   (extract_people_fields sample_manual) (extract_people_fields sample_sn)
                   "cy" in
    leads = ["Eve"; "Eve"] ∧
    ∃ tl, field sample_tracker row "Team Lead" = VStr tl ∧
      ∀ y, occurrences y leads = occurrences tl leads →
           ∃ pre post, leads = pre ++ tl :: post ∧ (tl ∉ pre) ∧ (y ∉ pre).
Proof.
  intros row.
  assert (H1 : row ∈ rows sample_tracker) by (right; left).
  split; [exact sample_generate_run|]. split; [exact H1|].
  destruct (team_lead_tie_goes_to_first _ _ _ _ _ _ _ _ _ _ _ _ _ _ _ _ _ _
              sample_generate_run) as (mdf & sdf & Hm & Hs & Hrows).
  exists mdf, sdf. split; [exact Hm|]. split; [exact Hs|].
  assert (Hleads : lead_values sample_repr_float sample_repr_stamp sample_key mdf sdf
                     (extract_people_fields sample_manual) (extract_people_fields sample_sn)
                     "cy" = ["Eve"; "Eve"]).
  { vm_compute in Hm. injection Hm as <-. vm_compute in Hs. injection Hs as <-.
    vm_compute. reflexivity. }
  intros leads. split; [exact Hleads|].
  apply (Hrows row "cy" H1); [reflexivity|discriminate|].
  unfold leads. rewrite Hleads. discriminate.
Defined.


Lemma clean_comment_single_spaced_witness :
  (∀ t, VInt 3 ≠ VStr t) ∧ Cleaning.clean_comment (VInt 3) = "".
Proof.
  assert (H : ∀ t, VInt 3 ≠ VStr t) by discriminate.
  split; [exact H|]. exact (proj2 clean_comment_single_spaced (VInt 3) H).
Defined.

Lemma dropped_lines_leave_no_trace_witness :
  (∀ ln, ln ∈ Cleaning.lines_of "3) Category: Yes" → Cleaning.keep_line ln = None) ∧
  Cleaning.clean_comment
    (VStr ("Probe more." +:+ String "010" ("3) Category: Yes" +:+ String "013" "Confirm the fix.")))
  = Cleaning.clean_comment (VStr ("Probe more." +:+ String "013" "Confirm the fix.")).
Proof.
  assert (H : ∀ ln, ln ∈ Cleaning.lines_of "3) Category: Yes" → Cleaning.keep_line ln = None).
  { intros ln Hln. vm_compute in Hln. apply list_elem_of_singleton in Hln as ->.
    vm_compute. reflexivity. }
  split; [exact H|].
  exact (proj1 dropped_lines_leave_no_trace "010"%char "013"%char "Probe more."
           "3) Category: Yes" "Confirm the fix." (or_introl eq_refl) (or_intror eq_refl) H).
Defined.

Lemma plain_sentence_is_kept_witness :
  "Probe more before closing." ≠ "" ∧
  single_spaced "Probe more before closing." = true ∧
  Cleaning._is_checklist_line "Probe more before closing." = false ∧
  (3 ≤ Cleaning.py_len (Cleaning.strip_marks "Probe more before closing."))%nat ∧
  Cleaning.strip_chars Cleaning.is_quote "Probe more before closing."
    = "Probe more before closing." ∧
  Cleaning.clean_comment (VStr "Probe more before closing.") = "Probe more before closing.".
Proof.
  assert (H1 : "Probe more before closing." ≠ "") by discriminate.
  assert (H2 : single_spaced "Probe more before closing." = true) by (vm_compute; reflexivity).
  assert (H3 : Cleaning._is_checklist_line "Probe more before closing." = false)
    by (vm_compute; reflexivity).
  assert (H4 : (3 ≤ Cleaning.py_len (Cleaning.strip_marks "Probe more before closing."))%nat)
    by (vm_compute; lia).
  assert (H5 : Cleaning.strip_chars Cleaning.is_quote "Probe more before closing."
               = "Probe more before closing.") by (vm_compute; reflexivity).
  split; [exact H1|]. split; [exact H2|]. split; [exact H3|]. split; [exact H4|].
  split; [exact H5|].
  exact (plain_sentence_is_kept "Probe more before closing." H1 H2 H3 H4 H5).
Defined.
